(** * Golden-prompt scorer: a shallow embedding of [run_golden_checks.py]

    The development follows [tests/golden-prompts/run_golden_checks.py].

    - A Python [str] is a list of Unicode code points ([text]).
    - A Python [float] is an exact rational, an infinity or NaN ([pyfloat]):
      the special values behave as in IEEE 754, finite arithmetic is exact
      (rounding and overflow of finite results are outside the model). The
      scores, ratios of small integers and fixed weights, are plain [Q].
    - A Python [dict] keyed by strings is a [gmap text _] where only lookups
      matter ([parse_sections]) and an association list for decoded JSON.
    - The [re] patterns are terms of a small regular-expression syntax run by
      a backtracking matcher with Python's priorities (greedy and lazy
      repetition, leftmost alternative first, leftmost match first).
    - An exception is a value of [outcome]: [subprocess.TimeoutExpired] from
      a run, [OverflowError] from [int] of an infinity and from [float] of
      an integer beyond the range of a float.
    - Python built-ins whose tables are not part of the repository (Unicode
      decimal digits, [str.lower], [float(str)], [int(str)], [json.loads],
      the [.4g] format) are fields of a [builtins] record. *)

From Stdlib Require Import QArith Qround Qabs Lqa.
From Stdlib Require Import String Ascii.
From stdpp Require Import gmap list.

Set Default Proof Using "Type".
Local Open Scope Z_scope.

(** ** Text *)

Abbreviation text := (list N).

Module Str.

(** UTF-8 decoding, to write literals of the source as Rocq strings. *)
Fixpoint utf8_decode (bs : list N) : text :=
  match bs with
  | [] => []
  | b0 :: r0 =>
    if (b0 <? 128)%N then b0 :: utf8_decode r0
    else if (b0 <? 224)%N then
      match r0 with
      | b1 :: r1 => ((b0 - 192) * 64 + (b1 - 128))%N :: utf8_decode r1
      | _ => []
      end
    else if (b0 <? 240)%N then
      match r0 with
      | b1 :: b2 :: r2 =>
          ((b0 - 224) * 4096 + (b1 - 128) * 64 + (b2 - 128))%N :: utf8_decode r2
      | _ => []
      end
    else
      match r0 with
      | b1 :: b2 :: b3 :: r3 =>
          ((b0 - 240) * 262144 + (b1 - 128) * 4096 + (b2 - 128) * 64 + (b3 - 128))%N
            :: utf8_decode r3
      | _ => []
      end
  end.

Definition u (s : string) : text :=
  utf8_decode (map N_of_ascii (list_ascii_of_string s)).

(** [str.isspace] / the class [\s] of a [str] pattern. *)
Definition is_space (c : N) : bool :=
  ((9 <=? c) && (c <=? 13) || (28 <=? c) && (c <=? 32)
   || (c =? 133) || (c =? 160) || (c =? 5760)
   || (8192 <=? c) && (c <=? 8202)
   || (c =? 8232) || (c =? 8233) || (c =? 8239) || (c =? 8287) || (c =? 12288))%N.

(** The line boundaries of [str.splitlines]. *)
Definition is_linebreak (c : N) : bool :=
  ((10 <=? c) && (c <=? 13) || (28 <=? c) && (c <=? 30)
   || (c =? 133) || (c =? 8232) || (c =? 8233))%N.

Fixpoint lstrip (s : text) : text :=
  match s with
  | c :: s' => if is_space c then lstrip s' else s
  | [] => []
  end.

Definition rstrip (s : text) : text := rev (lstrip (rev s)).

Definition strip (s : text) : text := lstrip (rstrip s).

Fixpoint startswith (p s : text) : bool :=
  match p, s with
  | [], _ => true
  | a :: p', b :: s' => (a =? b)%N && startswith p' s'
  | _ :: _, [] => false
  end.

(** [needle in s] *)
Fixpoint contains (needle s : text) : bool :=
  startswith needle s ||
  match s with
  | [] => false
  | _ :: s' => contains needle s'
  end.

(** [s.replace(old, new, 1)] for a non-empty [old]. *)
Fixpoint replace_first (old new s : text) : text :=
  if startswith old s then new ++ drop (length old) s
  else match s with
       | [] => []
       | c :: s' => c :: replace_first old new s'
       end.

(** [s.splitlines()]: [cur] is the line being read. *)
Fixpoint splitlines_from (cur s : text) : list text :=
  match s with
  | [] => match cur with [] => [] | _ => [cur] end
  | c :: s' =>
    if (c =? 13)%N then
      match s' with
      | 10%N :: s'' => cur :: splitlines_from [] s''
      | _ => cur :: splitlines_from [] s'
      end
    else if is_linebreak c then cur :: splitlines_from [] s'
    else splitlines_from (cur ++ [c]) s'
  end.

Definition splitlines (s : text) : list text := splitlines_from [] s.

(** [s.split(sep)] for a one-character separator. *)
Fixpoint split_from (sep : N) (cur s : text) : list text :=
  match s with
  | [] => [cur]
  | c :: s' =>
    if (c =? sep)%N then cur :: split_from sep [] s'
    else split_from sep (cur ++ [c]) s'
  end.

Definition split (sep : N) (s : text) : list text := split_from sep [] s.

(** [sep.join(parts)] *)
Fixpoint join (sep : text) (parts : list text) : text :=
  match parts with
  | [] => []
  | [p] => p
  | p :: ps => p ++ sep ++ join sep ps
  end.

(** [text[a:b]] for [0 <= a <= b]. *)
Definition slice (a b : nat) (s : text) : text := take (b - a) (drop a s).

Definition digit_char (d : N) : N := (48 + d)%N.

Fixpoint dec_digits (fuel : nat) (n : N) (acc : text) : text :=
  match fuel with
  | O => acc
  | S fuel' =>
    let acc' := digit_char (n mod 10) :: acc in
    if (n <? 10)%N then acc' else dec_digits fuel' (n / 10) acc'
  end.

(** [str(n)] for a Python [int]. *)
Definition str_of_N (n : N) : text := dec_digits (S (N.to_nat (N.log2 n))) n [].

Definition str_of_Z (z : Z) : text :=
  if z <? 0 then 45%N :: str_of_N (Z.to_N (- z)) else str_of_N (Z.to_N z).

Definition str_of_nat (n : nat) : text := str_of_N (N.of_nat n).

End Str.

Import Str.

(** ** Regular expressions *)

Module Re.

Inductive re : Type :=
| Eps
| Chr (p : N → bool)
| Seq (r1 r2 : re)
| Alt (r1 r2 : re)
| Star (greedy : bool) (r : re)
| Bol (multiline : bool)
| Eol (multiline : bool)
| Group (r : re)
| Behind (p : N → bool)
| Ahead (p : N → bool).

(** Where the matcher stands: the character before, the text ahead, the
    offset, and what group 1 holds. *)
Record cursor : Type := Cursor {
  c_prev : option N;
  c_rest : text;
  c_pos : nat;
  c_grp : option text
}.

Definition at_bol (multiline : bool) (c : cursor) : bool :=
  match c_prev c with
  | None => true
  | Some x => multiline && (x =? 10)%N
  end.

Definition at_eol (multiline : bool) (c : cursor) : bool :=
  match c_rest c with
  | [] => true
  | x :: rest =>
    (x =? 10)%N && (multiline || match rest with [] => true | _ => false end)
  end.

Section Exec.
Context {A : Type}.

(** Repetition of [step], at most [n] times, each time moving forward:
    a greedy repetition tries one more round before the rest of the
    pattern [k], a lazy one tries [k] first. *)
Fixpoint star_loop (step : cursor → (cursor → option A) → option A) (greedy : bool)
    (k : cursor → option A) (n : nat) (c0 : cursor) {struct n} : option A :=
  let again (_ : unit) :=
    match n with
    | O => None
    | S n' =>
      step c0 (λ c', if (c_pos c0 <? c_pos c')%nat
                     then star_loop step greedy k n' c' else None)
    end in
  if greedy then
    match again () with
    | Some a => Some a
    | None => k c0
    end
  else
    match k c0 with
    | Some a => Some a
    | None => again ()
    end.

(** Backtracking in continuation-passing style: [k] is the rest of the
    pattern, [None] makes the caller try its next choice. *)
Fixpoint exec (r : re) (c : cursor) (k : cursor → option A) {struct r} : option A :=
  match r with
  | Eps => k c
  | Chr p =>
    match c_rest c with
    | x :: rest =>
      if p x then k (Cursor (Some x) rest (S (c_pos c)) (c_grp c)) else None
    | [] => None
    end
  | Seq r1 r2 => exec r1 c (λ c', exec r2 c' k)
  | Alt r1 r2 =>
    match exec r1 c k with
    | Some a => Some a
    | None => exec r2 c k
    end
  | Star greedy r1 => star_loop (exec r1) greedy k (length (c_rest c)) c
  | Bol m => if at_bol m c then k c else None
  | Eol m => if at_eol m c then k c else None
  | Group r1 =>
    exec r1 c (λ c',
      k (Cursor (c_prev c') (c_rest c') (c_pos c')
                (Some (take (c_pos c' - c_pos c) (c_rest c)))))
  | Behind p =>
    match c_prev c with
    | Some x => if p x then k c else None
    | None => None
    end
  | Ahead p =>
    match c_rest c with
    | x :: _ => if p x then k c else None
    | [] => None
    end
  end.
End Exec.

(** The matches of a pattern, read declaratively: [matches r c c'] when [r]
    can take the matcher from [c] to [c']. *)
Inductive matches : re → cursor → cursor → Prop :=
| M_Eps c : matches Eps c c
| M_Chr p c x rest :
    c_rest c = x :: rest → p x = true →
    matches (Chr p) c (Cursor (Some x) rest (S (c_pos c)) (c_grp c))
| M_Seq r1 r2 c c1 c2 :
    matches r1 c c1 → matches r2 c1 c2 → matches (Seq r1 r2) c c2
| M_AltL r1 r2 c c' : matches r1 c c' → matches (Alt r1 r2) c c'
| M_AltR r1 r2 c c' : matches r2 c c' → matches (Alt r1 r2) c c'
| M_StarNil g r c : matches (Star g r) c c
| M_StarCons g r c c1 c2 :
    matches r c c1 → (c_pos c < c_pos c1)%nat → matches (Star g r) c1 c2 →
    matches (Star g r) c c2
| M_Bol m c : at_bol m c = true → matches (Bol m) c c
| M_Eol m c : at_eol m c = true → matches (Eol m) c c
| M_Group r c c' :
    matches r c c' →
    matches (Group r) c (Cursor (c_prev c') (c_rest c') (c_pos c')
                                (Some (take (c_pos c' - c_pos c) (c_rest c))))
| M_Behind p c x : c_prev c = Some x → p x = true → matches (Behind p) c c
| M_Ahead p c x rest : c_rest c = x :: rest → p x = true → matches (Ahead p) c c.

(** The same position of the matcher over another remaining text. *)
Definition with_rest (c : cursor) (t : text) : cursor :=
  Cursor (c_prev c) t (c_pos c) (c_grp c).

(** Patterns that never look at the text after the match. *)
Fixpoint lookahead_free (r : re) : bool :=
  match r with
  | Eps | Chr _ | Bol _ | Behind _ => true
  | Eol _ | Ahead _ => false
  | Seq r1 r2 | Alt r1 r2 => lookahead_free r1 && lookahead_free r2
  | Star _ r1 | Group r1 => lookahead_free r1
  end.

(** A match object: [start()], [end()], [group(1)]. *)
Record rematch : Type := ReMatch {
  m_start : nat;
  m_end : nat;
  m_group1 : text
}.

(** The leftmost match at or after the cursor. *)
Fixpoint search_from (r : re) (prev : option N) (rest : text) (pos : nat)
  : option (nat * cursor) :=
  match exec r (Cursor prev rest pos None) Some with
  | Some c' => Some (pos, c')
  | None =>
    match rest with
    | [] => None
    | x :: rest' => search_from r (Some x) rest' (S pos)
    end
  end.

(** [pattern.search(s)] as a truth value. *)
Definition search (r : re) (s : text) : bool :=
  match search_from r None s 0 with Some _ => true | None => false end.

(** [pattern.finditer(s)]: successive leftmost matches, each search resuming
    where the previous match ended (one character further after an empty
    match). *)
Fixpoint finditer_from (fuel : nat) (r : re) (prev : option N) (rest : text) (pos : nat)
  : list rematch :=
  match fuel with
  | O => []
  | S fuel' =>
    match search_from r prev rest pos with
    | None => []
    | Some (start, c') =>
      ReMatch start (c_pos c') (default [] (c_grp c')) ::
      (if (start <? c_pos c')%nat
       then finditer_from fuel' r (c_prev c') (c_rest c') (c_pos c')
       else match c_rest c' with
            | [] => []
            | x :: rest' => finditer_from fuel' r (Some x) rest' (S (c_pos c'))
            end)
    end
  end.

Definition finditer (r : re) (s : text) : list rematch :=
  finditer_from (S (length s)) r None s 0.

(** [pattern.sub] with the empty replacement: the text outside the matches. *)
Definition sub_empty (r : re) (s : text) : text :=
  let ms := finditer r s in
  map snd
    (filter (λ p, forallb (λ m, negb ((m_start m <=? p.1)%nat && (p.1 <? m_end m)%nat)) ms = true)
       (imap (λ i ch, (i, ch)) s)).

(** Derived forms. *)
Definition lit (ch : N) : re := Chr (N.eqb ch).
Definition plus (greedy : bool) (r : re) : re := Seq r (Star greedy r).
Definition opt (r : re) : re := Alt r Eps.
Definition any_of (cs : list N) : re := Chr (λ c, existsb (N.eqb c) cs).
(** [.] without DOTALL: anything but a newline. *)
Definition dot : re := Chr (λ c, negb (c =? 10)%N).
Definition space : re := Chr is_space.

Fixpoint seq (rs : list re) : re :=
  match rs with
  | [] => Eps
  | [r] => r
  | r :: rs' => Seq r (seq rs')
  end.

End Re.

Import Re.

(** ** What the source takes from Python *)

(** A Python [float]: an exact rational, an infinity, or NaN. *)
Inductive pyfloat : Type :=
| Finite (q : Q)
| PosInf
| NegInf
| NaN.

Module Float.

(** [a <= b] *)
Definition le (a b : pyfloat) : bool :=
  match a, b with
  | NaN, _ => false
  | _, NaN => false
  | NegInf, _ => true
  | _, PosInf => true
  | Finite x, Finite y => Qle_bool x y
  | PosInf, _ => false
  | Finite _, NegInf => false
  end.

(** [a > b] *)
Definition gt (a b : pyfloat) : bool :=
  match a, b with
  | NaN, _ => false
  | _, NaN => false
  | NegInf, _ => false
  | _, PosInf => false
  | Finite x, Finite y => negb (Qle_bool x y)
  | PosInf, _ => true
  | Finite _, NegInf => true
  end.

(** [a == b] *)
Definition eq (a b : pyfloat) : bool :=
  match a, b with
  | Finite x, Finite y => Qeq_bool x y
  | PosInf, PosInf => true
  | NegInf, NegInf => true
  | _, _ => false
  end.

(** [max(a, b)]: [b] when [b > a], else [a]. *)
Definition max (a b : pyfloat) : pyfloat := if gt b a then b else a.

(** [abs(a)] *)
Definition abs (a : pyfloat) : pyfloat :=
  match a with
  | Finite x => Finite (Qabs x)
  | PosInf | NegInf => PosInf
  | NaN => NaN
  end.

(** [a - b] *)
Definition sub (a b : pyfloat) : pyfloat :=
  match a, b with
  | NaN, _ => NaN
  | _, NaN => NaN
  | Finite x, Finite y => Finite (x - y)
  | PosInf, PosInf => NaN
  | NegInf, NegInf => NaN
  | PosInf, _ => PosInf
  | NegInf, _ => NegInf
  | Finite _, PosInf => NegInf
  | Finite _, NegInf => PosInf
  end.

(** An infinity of the sign of [x] times the sign [positive]; NaN for 0. *)
Definition signed_inf (positive : bool) (x : Q) : pyfloat :=
  match (x ?= 0)%Q with
  | Eq => NaN
  | Gt => if positive then PosInf else NegInf
  | Lt => if positive then NegInf else PosInf
  end.

(** [a * b] *)
Definition mul (a b : pyfloat) : pyfloat :=
  match a, b with
  | NaN, _ => NaN
  | _, NaN => NaN
  | Finite x, Finite y => Finite (x * y)
  | PosInf, Finite y => signed_inf true y
  | NegInf, Finite y => signed_inf false y
  | Finite x, PosInf => signed_inf true x
  | Finite x, NegInf => signed_inf false x
  | PosInf, PosInf => PosInf
  | NegInf, NegInf => PosInf
  | PosInf, NegInf => NegInf
  | NegInf, PosInf => NegInf
  end.

End Float.

(** A decoded JSON value. A [JDict] stands for a Python [dict]: its keys are
    distinct, and [dict_get] reads the first binding of a key. *)
#[warnings="-register-all"]
Inductive json : Type :=
| JNull
| JBool (b : bool)
| JInt (z : Z)
| JFloat (f : pyfloat)
| JStr (s : text)
| JList (l : list json)
| JDict (l : list (text * json)).

Fixpoint dict_get (key : text) (d : list (text * json)) : option json :=
  match d with
  | [] => None
  | (k, v) :: d' => if decide (k = key) then Some v else dict_get key d'
  end.

(** Built-ins of Python whose tables the repository does not contain. *)
Record builtins : Type := Builtins {
  isdigit : N → bool;                 (* the class [\d] of a [str] pattern *)
  lower : text → text;                (* [str.lower] *)
  float_of_str : text → option pyfloat;     (* [float(s)], [None] for ValueError *)
  int_of_str : text → option Z;       (* [int(s)], [None] for ValueError *)
  str_of_json : json → text;          (* [str(x)] *)
  json_loads : text → text + json;    (* [json.loads], [inl] for JSONDecodeError *)
  format_4g : pyfloat → text                (* [f"{x:.4g}"] *)
}.

(** ** Constants *)

Definition DEFAULT_CASE_SCORE : Q := 0.80.
Definition DEFAULT_SUITE_SCORE : Q := 0.85.

Inductive metric : Type :=
| Sections | Assumptions | Keywords | References | Traits | PreferredScript.

Definition DEFAULT_WEIGHTS (name : metric) : Q :=
  match name with
  | Sections => 0.35
  | Assumptions => 0.10
  | Keywords => 0.20
  | References => 0.20
  | Traits => 0.10
  | PreferredScript => 0.05
  end.

Definition metric_name (name : metric) : text :=
  match name with
  | Sections => u "sections"
  | Assumptions => u "assumptions"
  | Keywords => u "keywords"
  | References => u "references"
  | Traits => u "traits"
  | PreferredScript => u "preferred_script"
  end.

(** ** Results, exceptions and the outside world *)

Inductive exn : Type :=
| TimeoutExpired (cmd : list text) (timeout : Z)
| OverflowError.

(** What a call produces: a value, or an exception that travels to the caller. *)
Inductive outcome (A : Type) : Type :=
| Ok (a : A)
| Raised (e : exn).
Arguments Ok {A} a.
Arguments Raised {A} e.

#[global] Instance outcome_ret : MRet outcome := λ A a, Ok a.

#[global] Instance outcome_bind : MBind outcome := λ A B f m,
  match m with
  | Ok a => f a
  | Raised e => Raised e
  end.

(** What [subprocess.run(cmd, capture_output=True, text=True, check=False,
    timeout=30)] does: it returns a completed process or raises
    [TimeoutExpired]. *)
Inductive run_result : Type :=
| Completed (returncode : Z) (stdout stderr : text)
| TimedOut.

(** The file system and the processes, as the scorer sees them. *)
Record world : Type := World {
  sys_executable : text;
  (* [str(repo_root / "skills" / "game-balance-math" / "scripts" / name)] *)
  script_path : text → text;
  (* [str(p)] for [p = Path(input_rel)], resolved against the suite
     directory when relative *)
  input_path : text → text;
  path_exists : text → bool;
  subprocess_run : list text → run_result
}.

Record Template : Type := {
  required_sections : list text;
  max_assumptions : Z;
  required_traits : list text
}.

(** [template.get(key, default)] on the empty template. *)
Definition empty_template : Template :=
  {| required_sections := []; max_assumptions := 3; required_traits := [] |}.

Record Case : Type := {
  case_id : text;
  case_title : text;
  case_category : text;
  expected_template : text;
  required_keywords : list text;
  required_references : list text;
  preferred_script : option text;
  script_validation : option json
}.

Record CheckResult : Type := {
  ck_name : text;
  ck_score : Q;
  ck_passed : bool;
  ck_details : text
}.

Record CaseResult : Type := {
  cr_id : text;
  cr_title : text;
  cr_category : text;
  cr_score : Q;
  cr_passed : bool;
  cr_skipped : bool;
  cr_hard_fail_reasons : list text;
  cr_checks : list CheckResult
}.

Record ScriptResult : Type := {
  sr_script : text;
  sr_path : text;
  sr_passed : bool;
  sr_details : text
}.

Record ScriptChecks : Type := {
  sc_enabled : bool;
  sc_score : Q;
  sc_passed : bool;
  sc_total : nat;
  sc_passed_count : nat;
  sc_results : list ScriptResult
}.

Record Suite : Type := {
  templates : gmap text Template;
  cases : list Case
}.

(** The options of the command line that the scorer reads. *)
Record Args : Type := {
  min_case_score : Q;
  min_suite_score : Q;
  allow_missing_cases : bool;
  check_scripts : bool
}.

Record Summary : Type := {
  cases_total : nat;
  cases_evaluated : nat;
  cases_passed : nat;
  sm_suite_score : Q;
  overall_passed : bool
}.

(** [round(x, 4)]: to the nearest multiple of 1/10000, ties to even. *)
Definition round4 (x : Q) : Q :=
  let y := (x * 10000)%Q in
  let f := Qfloor y in
  let r := (y - inject_Z f)%Q in
  let n := if Qle_bool r (1 # 2)
           then (if Qle_bool (1 # 2) r then (if Z.even f then f else f + 1) else f)
           else f + 1 in
  (inject_Z n / 10000)%Q.

(** [a > b] on floats. *)
Definition Qgt_bool (a b : Q) : bool := negb (Qle_bool a b).

Definition is_Some_b {A : Type} (o : option A) : bool :=
  match o with Some _ => true | None => false end.

(** Truth value of a decoded JSON value. *)
Definition truthy (v : json) : bool :=
  match v with
  | JNull => false
  | JBool b => b
  | JInt z => negb (z =? 0)
  | JFloat (Finite q) => negb (Qeq_bool q 0)
  | JFloat _ => true
  | JStr s => match s with [] => false | _ => true end
  | JList l => match l with [] => false | _ => true end
  | JDict d => match d with [] => false | _ => true end
  end.

(** [(?m)^\s*##\s+(.+?)\s*$] *)
Definition SECTION_RE : re :=
  seq [Bol true; Star true space; lit 35; lit 35; plus true space;
       Group (plus false dot); Star true space; Eol true].

Section WithBuiltins.
Variable py : builtins.

Definition digit : re := Chr (isdigit py).

(** [^\s*\|?\s*:?-{3,}] *)
Definition TABLE_SEP_RE : re :=
  seq [Bol false; Star true space; opt (lit 124); Star true space; opt (lit 58);
       lit 45; lit 45; lit 45; Star true (lit 45)].

(** [^\s*(?:[-*]|\d+\.)\s+] *)
Definition LIST_ROW_RE : re :=
  seq [Bol false; Star true space;
       Alt (any_of [45; 42]%N) (Seq (plus true digit) (lit 46));
       plus true space].

(** [[-+]?(?:\d+\.\d+|\d+|\.\d+)(?:[eE][-+]?\d+)?] *)
Definition NUMBER_RE : re :=
  seq [opt (any_of [45; 43]%N);
       Alt (seq [plus true digit; lit 46; plus true digit])
           (Alt (plus true digit) (Seq (lit 46) (plus true digit)));
       opt (seq [any_of [101; 69]%N; opt (any_of [45; 43]%N); plus true digit])].

(** [(?<=\d),(?=\d)] *)
Definition NUMERIC_COMMA_RE : re :=
  seq [Behind (isdigit py); lit 44; Ahead (isdigit py)].

Definition _canonical_section (section : text) : text :=
  strip (replace_first (u "##") [] section).

Definition _safe_ratio (numerator : Q) (denominator : Z) : Q :=
  if denominator <=? 0 then 1%Q else (numerator / inject_Z denominator)%Q.

Definition _contains_any (t : text) (needles : list text) : bool :=
  existsb (λ needle, contains (lower py needle) (lower py t)) needles.

(** [float(n)] of an [int] raises OverflowError when [n] does not round to
    a finite double: from [2^1024 - 2^970] on, in absolute value. *)
Definition float_overflows (z : Z) : bool := 2 ^ 1024 - 2 ^ 970 <=? Z.abs z.

(** [float(value)]: an integer beyond the range of a float raises
    OverflowError; [Ok None] stands for TypeError or ValueError. *)
Definition py_float (value : json) : outcome (option pyfloat) :=
  match value with
  | JBool b => Ok (Some (Finite (if b then 1%Q else 0%Q)))
  | JInt z => if float_overflows z then Raised OverflowError
              else Ok (Some (Finite (inject_Z z)))
  | JFloat f => Ok (Some f)
  | JStr s => Ok (float_of_str py s)
  | JNull | JList _ | JDict _ => Ok None
  end.

(** [int(value)]: a float is truncated towards zero, an infinity raises
    OverflowError; [Ok None] stands for TypeError or ValueError. *)
Definition py_int (value : json) : outcome (option Z) :=
  match value with
  | JBool b => Ok (Some (if b then 1 else 0))
  | JInt z => Ok (Some z)
  | JFloat (Finite q) => Ok (Some (Z.quot (Qnum q) (Z.pos (Qden q))))
  | JFloat NaN => Ok None
  | JFloat _ => Raised OverflowError
  | JStr s => Ok (int_of_str py s)
  | JNull | JList _ | JDict _ => Ok None
  end.

(** The argument is what [dict.get] returned: [None] is Python's [None]. *)
Definition _to_int (value : option json) (default : Z) : outcome Z :=
  match value with
  | Some v => z ← py_int v; Ok (match z with Some z' => z' | None => default end)
  | None => Ok default
  end.

(** Only TypeError and ValueError are caught: OverflowError travels on. *)
Definition _to_float (value : option json) (default : pyfloat) : outcome pyfloat :=
  match value with
  | Some v => f ← py_float v; Ok (match f with Some f' => f' | None => default end)
  | None => Ok default
  end.

Definition _extract_numbers (t : text) : list pyfloat :=
  let normalized := sub_empty NUMERIC_COMMA_RE t in
  omap (λ m, float_of_str py (slice (m_start m) (m_end m) normalized))
       (finditer NUMBER_RE normalized).

(** One step of the descent of [_value_at_path]; [None] stands for the
    KeyError or IndexError the source raises. *)
Definition descend (current : json) (raw_token : text) : option json :=
  let token := strip raw_token in
  match token with
  | [] => Some current
  | _ =>
    match current with
    | JDict d => dict_get token d
    | JList l =>
      match int_of_str py token with
      | None => None
      | Some idx =>
        if (idx <? 0) || (Z.of_nat (length l) <=? idx) then None
        else l !! Z.to_nat idx
      end
    | _ => None
    end
  end.

Definition _value_at_path (payload : json) (path : text) : option json :=
  foldl (λ current raw_token, current ≫= λ c, descend c raw_token)
        (Some payload) (split 46 path).

(** *** Structural parser *)

(** The headings of [text] in order, each with its stripped name and body. *)
Fixpoint section_bodies (t : text) (matches : list rematch) : list (text * text) :=
  match matches with
  | [] => []
  | m :: rest =>
    let name := strip (m_group1 m) in
    let start := m_end m in
    let end_ := match rest with m' :: _ => m_start m' | [] => length t end in
    (name, strip (slice start end_ t)) :: section_bodies t rest
  end.

Definition parse_sections (t : text) : gmap text text :=
  foldl (λ sections nb, <[nb.1 := nb.2]> sections) ∅
        (section_bodies t (finditer SECTION_RE t)).

Definition find_missing_sections (t : text) (required_sections : list text) : list text :=
  let parsed := parse_sections t in
  let parsed_names : gset text := set_map strip (dom parsed) in
  foldl (λ missing required,
           let wanted := _canonical_section required in
           if decide (wanted ∈ parsed_names) then missing else missing ++ [wanted])
        [] required_sections.

Definition starts_with_pipe (line : text) : bool := startswith (u "|") (lstrip line).

Definition nonblank (line : text) : bool :=
  match strip line with [] => false | _ => true end.

Definition _count_table_rows (lines : list text) : nat :=
  let filtered := filter (λ line, nonblank line = true) lines in
  if (length filtered <? 3)%nat then 0%nat
  else if negb (starts_with_pipe (default [] (filtered !! 0%nat))) then 0%nat
  else if negb (search TABLE_SEP_RE (default [] (filtered !! 1%nat))) then 0%nat
  else length (filter (λ line, starts_with_pipe line = true) (drop 2 filtered)).

Definition ASSUMPTIONS : text := u "가정".

(** [count_assumptions] once [body], the trimmed text of the section, is read. *)
Definition count_in_body (body : text) : nat :=
  match body with
  | [] => 0%nat
  | _ =>
    let lines := map rstrip (splitlines body) in
    let table_count := _count_table_rows lines in
    if (0 <? table_count)%nat then table_count
    else
      let list_count := length (filter (λ line, search LIST_ROW_RE line = true) lines) in
      if (0 <? list_count)%nat then list_count
      else length (filter (λ line, nonblank line = true) lines)
  end.

Definition count_assumptions (t : text) : nat :=
  let sections := parse_sections t in
  count_in_body (strip (default [] (sections !! ASSUMPTIONS))).

(** *** Trait inspector *)

Definition trait_ok (raw : text) (trait : text) : bool :=
  let lower_ := lower py raw in
  if decide (trait = u "근거 없는 매직 넘버 금지") then
    _contains_any raw [u "근거"; u "기준"]
    && _contains_any raw [u "매직 넘버"; u "파라미터"; u "수치"]
  else if decide (trait = u "영향 지표(TTK/TTE/클리어율 등) 명시") then
    _contains_any raw [u "ttk"; u "tte"; u "클리어율"; u "승률"; u "레벨업 시간"]
  else if decide (trait = u "최소 1개 이상의 로그/텔레메트리 제안") then
    _contains_any raw [u "로그"; u "텔레메트리"; u "telemetry"; u "모니터링"]
  else if decide (trait = u "모델/파라미터 선택 이유 설명") then
    _contains_any raw [u "모델"; u "파라미터"]
    && _contains_any raw [u "이유"; u "근거"; u "선택"]
  else if decide (trait = u "수치 제안은 표 또는 수식 포함") then
    contains (u "|") raw || contains (u "$") raw || contains (u "=") raw
  else if decide (trait = u "콘텐츠/경제 파급효과 점검") then
    _contains_any raw [u "콘텐츠"; u "경제"; u "파급"; u "영향"]
  else if decide (trait = u "원인-대응 매핑이 명확할 것") then
    _contains_any raw [u "원인"; u "대응"; u "해결 방안"]
  else if decide (trait = u "트레이드오프를 표로 비교할 것") then
    contains (u "트레이드오프") lower_ && contains (u "|") raw
  else if decide (trait = u "패치 후 검증 지표 제시") then
    _contains_any raw [u "검증"; u "지표"]
    && _contains_any raw [u "로그"; u "ttk"; u "tte"; u "클리어율"]
  else contains (lower py trait) lower_.

Definition check_traits (t : text) (traits : list text) : Q * list text :=
  let '(matched, missing) :=
    foldl (λ (acc : nat * list text) trait,
             if trait_ok t trait then (S acc.1, acc.2) else (acc.1, acc.2 ++ [trait]))
          (0%nat, []) traits in
  (_safe_ratio (inject_Z (Z.of_nat matched)) (Z.of_nat (length traits)), missing).

(** *** Reference evaluator *)

Definition py_str (v : json) : text :=
  match v with
  | JStr s => s
  | _ => str_of_json py v
  end.

(** [rule.get("path") or rule.get("json_path")] *)
Definition rule_path (rule : list (text * json)) : option json :=
  match dict_get (u "path") rule with
  | Some v => if truthy v then Some v else dict_get (u "json_path") rule
  | None => dict_get (u "json_path") rule
  end.

Definition rule_atol (rule : list (text * json)) : outcome pyfloat :=
  atol ← _to_float (dict_get (u "atol") rule) (Finite 0);
  Ok (Float.max (Finite 0) atol).

Definition rule_rtol (rule : list (text * json)) : outcome pyfloat :=
  rtol ← _to_float (dict_get (u "rtol") rule) (Finite 0.02);
  Ok (Float.max (Finite 0) rtol).

(** Lines 179-181: [atol] is read before [rtol]. *)
Definition rule_tol (rule : list (text * json)) (expected : pyfloat) : outcome pyfloat :=
  atol ← rule_atol rule;
  rtol ← rule_rtol rule;
  Ok (Float.max atol (Float.mul (Float.abs expected) rtol)).

(** [any(abs(value - expected) <= tol for value in response_numbers)] *)
Definition rule_hit (tol expected : pyfloat) (response_numbers : list pyfloat) : bool :=
  existsb (λ value, Float.le (Float.abs (Float.sub value expected)) tol)
          response_numbers.

Inductive rule_verdict : Type :=
| Matched
| Missing (description : text).

(** The body of the loop over [extract_rules]; [idx] counts from 1. The
    [try] around the lookup catches KeyError, IndexError, TypeError and
    ValueError; the OverflowError of [float] leaves the loop, from the
    value found as from [atol] and [rtol]. *)
Definition judge_rule (payload : json) (response_numbers : list pyfloat) (idx : nat)
    (rule : json)
  : outcome rule_verdict :=
  match rule with
  | JDict d =>
    match rule_path d with
    | Some (JStr path) =>
      match strip path with
      | [] => Ok (Missing (u "rule#" ++ str_of_nat idx ++ u ":missing_path"))
      | _ =>
        let name := match dict_get (u "name") d with
                    | Some v => py_str v
                    | None => path
                    end in
        match _value_at_path payload path with
        | None => Ok (Missing (name ++ u ":path_error"))
        | Some found =>
          converted ← py_float found;
          match converted with
          | None => Ok (Missing (name ++ u ":path_error"))
          | Some expected =>
            tol ← rule_tol d expected;
            Ok (if rule_hit tol expected response_numbers then Matched
                else Missing (name ++ u "≈" ++ format_4g py expected
                                   ++ u "±" ++ format_4g py tol))
          end
        end
      end
    | _ => Ok (Missing (u "rule#" ++ str_of_nat idx ++ u ":missing_path"))
    end
  | _ => Ok (Missing (u "rule#" ++ str_of_nat idx ++ u ":invalid_rule"))
  end.

(** The loop: the first rule that raises ends it. *)
Definition judge_rules (payload : json) (response_numbers : list pyfloat)
    (extract_rules : list json)
  : outcome (nat * list text) :=
  foldl (λ (state : outcome (nat * list text)) (ir : nat * json),
           acc ← state;
           verdict ← judge_rule payload response_numbers ir.1 ir.2;
           Ok (match verdict with
               | Matched => (S acc.1, acc.2)
               | Missing d => (acc.1, acc.2 ++ [d])
               end))
        (Ok (0%nat, [])) (imap (λ i rule, (S i, rule)) extract_rules).

Definition numeric_details (matched total : nat) (min_matches : Z) (missing : list text)
  : text :=
  let details := u "matched " ++ str_of_nat matched ++ u "/" ++ str_of_nat total
                   ++ u " (min " ++ str_of_Z min_matches ++ u ")" in
  match missing with
  | [] => details
  | _ =>
    let details := details ++ u "; missing: " ++ join (u ", ") (take 6 missing) in
    if (6 <? length missing)%nat then details ++ u " ..." else details
  end.

Definition evaluate_script_numeric_checks
    (response : text) (preferred_script : text) (validation : list (text * json))
    (w : world) : outcome (Q * bool * text) :=
  let script := script_path w preferred_script in
  if negb (path_exists w script) then Ok (0%Q, false, u "script_not_found: " ++ script)
  else
  match dict_get (u "input") validation with
  | Some (JStr input_rel) =>
    match strip input_rel with
    | [] => Ok (0%Q, false, u "invalid_script_validation_input")
    | _ =>
      let input := input_path w input_rel in
      if negb (path_exists w input) then Ok (0%Q, false, u "input_not_found: " ++ input)
      else
      match dict_get (u "extract") validation with
      | Some (JList (rule0 :: rules')) =>
        let extract_rules := rule0 :: rules' in
        let cmd := [sys_executable w; script; u "--input"; input; u "--format"; u "json"] in
        match subprocess_run w cmd with
        | TimedOut => Raised (TimeoutExpired cmd 30)
        | Completed returncode stdout stderr =>
          if negb (returncode =? 0) then
            Ok (0%Q, false,
                u "script_exit_" ++ str_of_Z returncode ++ u ": " ++ strip stderr)
          else
          match strip stdout with
          | [] => Ok (0%Q, false, u "script_empty_stdout")
          | stdout' =>
            match json_loads py stdout' with
            | inl exc => Ok (0%Q, false, u "script_invalid_json: " ++ exc)
            | inr payload =>
              match _extract_numbers response with
              | [] => Ok (0%Q, false, u "no_numeric_values_in_response")
              | response_numbers =>
                judged ← judge_rules payload response_numbers extract_rules;
                let '(matched, missing) := judged in
                let total := length extract_rules in
                requested ← _to_int (dict_get (u "min_matches") validation) (Z.of_nat total);
                let min_matches := Z.max 0 requested in
                let min_matches := Z.min min_matches (Z.of_nat total) in
                let score := _safe_ratio (inject_Z (Z.of_nat matched)) (Z.of_nat total) in
                let passed := min_matches <=? Z.of_nat matched in
                Ok (score, passed, numeric_details matched total min_matches missing)
              end
            end
          end
        end
      | _ => Ok (0%Q, false, u "invalid_script_validation_extract")
      end
    end
  | _ => Ok (0%Q, false, u "invalid_script_validation_input")
  end.

(** *** Case scorer *)

(** The local variables of [score_case] once a response is present. *)
Record locals : Type := Locals {
  missing_sections : list text;
  sections_score : Q;
  sections_pass : bool;
  assumption_count : nat;
  assumptions_pass : bool;
  assumptions_score : Q;
  missing_keywords : list text;
  keywords_score : Q;
  keywords_pass : bool;
  missing_refs : list text;
  refs_score : Q;
  refs_pass : bool;
  traits_score : Q;
  missing_traits : list text;
  traits_pass : bool;
  script_score : option Q;
  script_pass : option bool;
  script_details : text
}.

Definition is_empty {A : Type} (l : list A) : bool :=
  match l with [] => true | _ => false end.

Definition ratio_found (required missing : list text) : Q :=
  _safe_ratio (inject_Z (Z.of_nat (length required) - Z.of_nat (length missing)))
              (Z.of_nat (length required)).

Definition not_mentioned (response : text) (items : list text) : list text :=
  filter (λ item, contains (lower py item) (lower py response) = false) items.

(** [if preferred_script:] *)
Definition script_declared (case : Case) : option text :=
  match preferred_script case with
  | Some (c :: cs) => Some (c :: cs)
  | _ => None
  end.

(** Lines 468-486: score, verdict and details of the script check, [None]
    where the source leaves [script_score] and [script_pass] at [None]. *)
Definition script_check (case : Case) (response : text) (w : world)
  : outcome (option (Q * bool) * text) :=
  match script_declared case with
  | Some script =>
    match script_validation case with
    | Some (JDict validation) =>
      r ← evaluate_script_numeric_checks response script validation w;
      Ok (Some (r.1.1, r.1.2), r.2)
    | _ =>
      let pass := contains (lower py script) (lower py response) in
      Ok (Some (if pass then 1%Q else 0%Q, pass),
          if pass then u "mentioned " ++ script else u "missing mention: " ++ script)
    end
  | None => Ok (None, u "N/A")
  end.

(** Lines 441-486. *)
Definition case_locals (case : Case) (template : Template) (response : text) (w : world)
  : outcome locals :=
  let missing_sections := find_missing_sections response (required_sections template) in
  let assumption_count := count_assumptions response in
  let assumptions_pass := Z.of_nat assumption_count <=? max_assumptions template in
  let missing_keywords := not_mentioned response (required_keywords case) in
  let missing_refs := not_mentioned response (required_references case) in
  let '(traits_score, missing_traits) := check_traits response (required_traits template) in
  sc ← script_check case response w;
  Ok {| missing_sections := missing_sections;
        sections_score := ratio_found (required_sections template) missing_sections;
        sections_pass := is_empty missing_sections;
        assumption_count := assumption_count;
        assumptions_pass := assumptions_pass;
        assumptions_score := if assumptions_pass then 1%Q else 0%Q;
        missing_keywords := missing_keywords;
        keywords_score := ratio_found (required_keywords case) missing_keywords;
        keywords_pass := is_empty missing_keywords;
        missing_refs := missing_refs;
        refs_score := ratio_found (required_references case) missing_refs;
        refs_pass := is_empty missing_refs;
        traits_score := traits_score;
        missing_traits := missing_traits;
        traits_pass := is_empty missing_traits;
        script_score := fst <$> sc.1;
        script_pass := snd <$> sc.1;
        script_details := sc.2 |}.

(** Lines 488-496: the scores by name, in insertion order. *)
Definition metric_scores (l : locals) : list (metric * Q) :=
  [(Sections, sections_score l); (Assumptions, assumptions_score l);
   (Keywords, keywords_score l); (References, refs_score l); (Traits, traits_score l)]
  ++ match script_score l with
     | Some s => [(PreferredScript, s)]
     | None => []
     end.

(** Lines 498-504. *)
Definition weighted_score (scores : list (metric * Q)) : Q :=
  let '(weighted_sum, total_weight) :=
    foldl (λ (acc : Q * Q) (ns : metric * Q),
             let weight := DEFAULT_WEIGHTS ns.1 in
             ((acc.1 + weight * ns.2)%Q, (acc.2 + weight)%Q))
          (0%Q, 0%Q) scores in
  if Qgt_bool total_weight 0 then (weighted_sum / total_weight)%Q else 0%Q.

(** [bool(script_pass)] *)
Definition bool_of (b : option bool) : bool := default false b.

(** Lines 506-512. *)
Definition hard_fail_reasons (case : Case) (l : locals) : list text :=
  (if sections_pass l then [] else [u "missing_required_sections"])
  ++ (if assumptions_pass l then [] else [u "assumptions_out_of_range"])
  ++ (if is_Some_b (script_declared case) && is_Some_b (script_validation case)
         && negb (bool_of (script_pass l))
      then [u "preferred_script_numeric_mismatch"] else []).

Definition missing_or (missing : list text) (otherwise : text) : text :=
  match missing with
  | [] => otherwise
  | _ => u "missing: " ++ join (u ", ") missing
  end.

(** Lines 516-557. *)
Definition checks_of (case : Case) (template : Template) (l : locals) : list CheckResult :=
  [ {| ck_name := u "sections"; ck_score := round4 (sections_score l);
       ck_passed := sections_pass l;
       ck_details := missing_or (missing_sections l) (u "all required sections present") |};
    {| ck_name := u "assumptions"; ck_score := round4 (assumptions_score l);
       ck_passed := assumptions_pass l;
       ck_details := u "count=" ++ str_of_nat (assumption_count l)
                       ++ u ", max=" ++ str_of_Z (max_assumptions template) |};
    {| ck_name := u "keywords"; ck_score := round4 (keywords_score l);
       ck_passed := keywords_pass l;
       ck_details := missing_or (missing_keywords l) (u "all keywords present") |};
    {| ck_name := u "references"; ck_score := round4 (refs_score l);
       ck_passed := refs_pass l;
       ck_details := missing_or (missing_refs l) (u "all references present") |};
    {| ck_name := u "traits"; ck_score := round4 (traits_score l);
       ck_passed := traits_pass l;
       ck_details := missing_or (missing_traits l) (u "all traits passed") |} ]
  ++ match script_score l with
     | Some s =>
       [ {| ck_name := if is_Some_b (script_validation case)
                       then u "preferred_script_numeric" else u "preferred_script";
            ck_score := round4 s;
            ck_passed := bool_of (script_pass l);
            ck_details := script_details l |} ]
     | None => []
     end.

Definition missing_result (case : Case) (allow_missing_cases : bool) : CaseResult :=
  let skipped := allow_missing_cases in
  let hard_fail := negb skipped in
  {| cr_id := case_id case; cr_title := case_title case; cr_category := case_category case;
     cr_score := 0; cr_passed := false; cr_skipped := skipped;
     cr_hard_fail_reasons := if hard_fail then [u "missing_response"] else [];
     cr_checks :=
       [ {| ck_name := u "response_presence"; ck_score := 0; ck_passed := false;
            ck_details := if hard_fail then u "No response provided for this case."
                          else u "No response provided; skipped." |} ] |}.

Definition score_case
    (case : Case) (template : Template) (response : option text)
    (min_case_score : Q) (allow_missing_cases : bool) (w : world) : outcome CaseResult :=
  match response with
  | None => Ok (missing_result case allow_missing_cases)
  | Some response =>
    l ← case_locals case template response w;
    let score := weighted_score (metric_scores l) in
    let reasons := hard_fail_reasons case l in
    let passed := Qle_bool min_case_score score && is_empty reasons in
    Ok {| cr_id := case_id case; cr_title := case_title case;
          cr_category := case_category case;
          cr_score := round4 score; cr_passed := passed; cr_skipped := false;
          cr_hard_fail_reasons := reasons;
          cr_checks := checks_of case template l |}
  end.

(** *** Batch health-check *)

(** The distinct non-empty [preferred_script] names, in order of appearance. *)
Definition preferred_scripts (cases : list Case) : list text :=
  foldl (λ preferred case,
           match script_declared case with
           | Some value => if decide (value ∈ preferred) then preferred
                           else preferred ++ [value]
           | None => preferred
           end) [] cases.

(** The body of the loop of [execute_preferred_scripts]. *)
Definition health_check (w : world) (script : text) : outcome ScriptResult :=
  let path := script_path w script in
  if negb (path_exists w path) then
    Ok {| sr_script := script; sr_path := path; sr_passed := false;
          sr_details := u "file_not_found" |}
  else
    let cmd := [sys_executable w; path; u "--format"; u "json"] in
    match subprocess_run w cmd with
    | TimedOut => Raised (TimeoutExpired cmd 30)
    | Completed returncode stdout stderr =>
      if negb (returncode =? 0) then
        Ok {| sr_script := script; sr_path := path; sr_passed := false;
              sr_details := u "exit=" ++ str_of_Z returncode ++ u ": " ++ strip stderr |}
      else
      match strip stdout with
      | [] => Ok {| sr_script := script; sr_path := path; sr_passed := false;
                    sr_details := u "empty_stdout" |}
      | stdout' =>
        match json_loads py stdout' with
        | inl exc => Ok {| sr_script := script; sr_path := path; sr_passed := false;
                           sr_details := u "invalid_json_output: " ++ exc |}
        | inr _ => Ok {| sr_script := script; sr_path := path; sr_passed := true;
                         sr_details := u "ok" |}
        end
      end
    end.

Definition execute_preferred_scripts (cases : list Case) (w : world) : outcome ScriptChecks :=
  results ← mapM (health_check w) (preferred_scripts cases);
  let passed_count := length (filter (λ item, sr_passed item = true) results) in
  let total := length results in
  Ok {| sc_enabled := true;
        sc_score := round4 (_safe_ratio (inject_Z (Z.of_nat passed_count)) (Z.of_nat total));
        sc_passed := (passed_count =? total)%nat;
        sc_total := total; sc_passed_count := passed_count;
        sc_results := results |}.

(** *** Suite aggregator *)

(** Lines 768-784 of [build_report]. *)
Definition score_cases (suite : Suite) (responses : gmap text text) (args : Args) (w : world)
  : outcome (list CaseResult) :=
  mapM (λ case,
          let template := default empty_template (templates suite !! expected_template case) in
          score_case case template (responses !! case_id case)
                     (min_case_score args) (allow_missing_cases args) w)
       (cases suite).

End WithBuiltins.

(** Lines 786-794 of [build_report]. *)
Definition evaluated_cases (case_results : list CaseResult) : list CaseResult :=
  filter (λ item, cr_skipped item = false) case_results.

Definition case_passed (case_results : list CaseResult) : nat :=
  length (filter (λ item, cr_passed item = true) (evaluated_cases case_results)).

Definition suite_score (case_results : list CaseResult) : Q :=
  let evaluated := evaluated_cases case_results in
  let evaluated_total := length evaluated in
  if (0 <? evaluated_total)%nat
  then _safe_ratio (foldl Qplus 0%Q (map cr_score evaluated)) (Z.of_nat evaluated_total)
  else 0%Q.

(** Lines 803-833 of [build_report]. *)
Definition summarize (lint_passed : bool) (case_results : list CaseResult)
    (script_checks : ScriptChecks) (min_suite_score : Q) : Summary :=
  let evaluated_total := length (evaluated_cases case_results) in
  let overall :=
    lint_passed && (0 <? evaluated_total)%nat
    && Qle_bool min_suite_score (suite_score case_results)
    && (case_passed case_results =? evaluated_total)%nat
    && sc_passed script_checks in
  {| cases_total := length case_results;
     cases_evaluated := evaluated_total;
     cases_passed := case_passed case_results;
     sm_suite_score := round4 (suite_score case_results);
     overall_passed := overall |}.

(** [script_checks] when [--check-scripts] is off. *)
Definition script_checks_disabled : ScriptChecks :=
  {| sc_enabled := false; sc_score := 1; sc_passed := true; sc_total := 0;
     sc_passed_count := 0; sc_results := [] |}.

(** ** Vocabulary of the statements *)

(** The names under which [find_missing_sections] looks a section up. *)
Definition parsed_names (t : text) : gset text := set_map strip (dom (parse_sections t)).

(** The level-2 headings of a text, in order: [match.group(1).strip()]. *)
Definition heading_names (t : text) : list text :=
  map (λ m, strip (m_group1 m)) (finditer SECTION_RE t).

(** The check of a result that carries a given name. *)
Definition find_check (name : text) (r : CaseResult) : option CheckResult :=
  head (filter (λ ck, ck_name ck = name) (cr_checks r)).

(** The command line of the per-case run of a script on an input. *)
Definition numeric_cmd (w : world) (script input_rel : text) : list text :=
  [sys_executable w; script_path w script; u "--input"; input_path w input_rel;
   u "--format"; u "json"].

(** The command line of the health-check run of a script. *)
Definition health_cmd (w : world) (script : text) : list text :=
  [sys_executable w; script_path w script; u "--format"; u "json"].

(** NaN as second argument of [max] counts for nothing, like 0 next to a
    first argument that is not negative. *)
Definition nan_to_zero (p : pyfloat) : pyfloat :=
  match p with NaN => Finite 0 | _ => p end.

Definition infinite (f : pyfloat) : bool :=
  match f with PosInf | NegInf => true | _ => false end.

(** An integer that [float] does not convert. *)
Definition huge (v : option json) : Prop :=
  ∃ z, v = Some (JInt z) ∧ float_overflows z = true.

(** A rule that makes the loop raise on a payload: the value at its path,
    its [atol] or its [rtol] is an integer beyond the range of a float. *)
Definition rule_overflows (py : builtins) (payload : json) (rule : list (text * json))
  : Prop :=
  (∃ path, rule_path rule = Some (JStr path) ∧ huge (_value_at_path py payload path))
  ∨ huge (dict_get (u "atol") rule)
  ∨ huge (dict_get (u "rtol") rule).

(** How the numeric validation can raise: its run times out, the
    [min_matches] of the validation is an infinity, or one of its rules
    overflows on what the script printed. *)
Definition validation_raises (py : builtins) (w : world) (validation : list (text * json))
    (e : exn) : Prop :=
  (∃ cmd, e = TimeoutExpired cmd 30 ∧ subprocess_run w cmd = TimedOut)
  ∨ (e = OverflowError
     ∧ ∃ f, dict_get (u "min_matches") validation = Some (JFloat f) ∧ infinite f = true)
  ∨ (e = OverflowError
     ∧ ∃ cmd stdout stderr payload rules rule,
         subprocess_run w cmd = Completed 0 stdout stderr
         ∧ json_loads py (strip stdout) = inr payload
         ∧ dict_get (u "extract") validation = Some (JList rules)
         ∧ JDict rule ∈ rules
         ∧ rule_overflows py payload rule).

(** How scoring a case can raise: through its numeric validation. *)
Definition case_raises (py : builtins) (w : world) (case : Case) (e : exn) : Prop :=
  ∃ validation, script_validation case = Some (JDict validation)
              ∧ validation_raises py w validation e.

(** ** The built-ins on ASCII text

    An instance of [builtins] that agrees with Python on ASCII input; the
    examples below run the scorer with it. *)

Module AsciiPy.

Definition is_ascii_digit (c : N) : bool := ((48 <=? c) && (c <=? 57))%N.

Definition ascii_lower (t : text) : text :=
  map (λ c, if ((65 <=? c) && (c <=? 90))%N then (c + 32)%N else c) t.

(** Leading decimal digits: their value, how many, and what follows. *)
Fixpoint digits (s : text) (acc : Z) (n : nat) : Z * nat * text :=
  match s with
  | c :: s' => if is_ascii_digit c then digits s' (10 * acc + Z.of_N (c - 48)) (S n)
               else (acc, n, s)
  | [] => (acc, n, [])
  end.

Definition sign (s : text) : bool * text :=
  match s with
  | 45%N :: s' => (true, s')
  | 43%N :: s' => (false, s')
  | _ => (false, s)
  end.

Definition parse_int (s : text) : option Z :=
  let '(neg, s1) := sign (strip s) in
  let '(v, n, rest) := digits s1 0 0 in
  match n, rest with
  | S _, [] => Some (if neg then - v else v)
  | _, _ => None
  end.

(** Decimal literals from this magnitude on are read as an infinity. *)
Definition overflow_threshold : Q := inject_Z (2 ^ 1024 - 2 ^ 970).

Definition read (x : Q) : pyfloat :=
  if Qle_bool overflow_threshold x then PosInf
  else if Qle_bool x (- overflow_threshold) then NegInf
  else Finite x.

Definition parse_decimal (s : text) : option Q :=
  let '(neg, s1) := sign (strip s) in
  let '(ip, ni, s2) := digits s1 0 0 in
  let '(fp, nf, s3) := match s2 with
                       | 46%N :: r => digits r 0 0
                       | _ => (0, 0%nat, s2)
                       end in
  match (ni + nf)%nat with
  | O => None
  | S _ =>
    let mantissa := (inject_Z ip + inject_Z fp / inject_Z (10 ^ Z.of_nat nf))%Q in
    let signed := if neg then (- mantissa)%Q else mantissa in
    match s3 with
    | [] => Some signed
    | c :: r =>
      if ((c =? 101) || (c =? 69))%N then
        let '(eneg, r1) := sign r in
        let '(ev, ne, r2) := digits r1 0 0 in
        match ne, r2 with
        | S _, [] => Some (signed * Qpower 10 (if eneg then - ev else ev))%Q
        | _, _ => None
        end
      else None
    end
  end.

Definition parse_float (s : text) : option pyfloat := read <$> parse_decimal s.

(** The only payloads the examples need: an object with one number under
    the key [ttk]. *)
Definition ttk_prefix : text := u "{" ++ [34%N] ++ u "ttk" ++ [34%N] ++ u ": ".

Definition loads (s : text) : text + json :=
  if startswith ttk_prefix s && bool_decide (drop (length s - 1) s = u "}") then
    match parse_float (take (length s - length ttk_prefix - 1) (drop (length ttk_prefix) s)) with
    | Some f => inr (JDict [(u "ttk", JFloat f)])
    | None => inl (u "Expecting value")
    end
  else inl (u "Expecting value").

Definition str_json (v : json) : text :=
  match v with
  | JStr s => s
  | JInt z => str_of_Z z
  | JNull => u "None"
  | JBool true => u "True"
  | JBool false => u "False"
  | _ => u "?"
  end.

Definition py : builtins :=
  {| isdigit := is_ascii_digit; lower := ascii_lower;
     float_of_str := parse_float; int_of_str := parse_int;
     str_of_json := str_json; json_loads := loads; format_4g := λ _, u "?" |}.

End AsciiPy.

(** ** Example data *)

Module Demo.
Import AsciiPy.

(** A world in which every path exists and every run ends as [r]. *)
Definition demo_world (r : run_result) : world :=
  {| sys_executable := u "python3";
     script_path := λ name, u "skills/game-balance-math/scripts/" ++ name;
     input_path := λ rel, u "tests/golden-prompts/" ++ rel;
     path_exists := λ _, true;
     subprocess_run := λ _, r |}.

Definition template : Template :=
  {| required_sections := [u "요약"; u "## 가정"];
     max_assumptions := 2;
     required_traits := [u "수치 제안은 표 또는 수식 포함"] |}.

Definition rule : list (text * json) :=
  [(u "path", JStr (u "ttk")); (u "rtol", JFloat (Finite 0.02))].

Definition validation : list (text * json) :=
  [(u "input", JStr (u "fixtures/ttk.json")); (u "extract", JList [JDict rule])].

(** A case that names a script and how to validate its numbers. *)
Definition scripted : Case :=
  {| case_id := u "A01"; case_title := u "TTK"; case_category := u "combat";
     expected_template := u "standard";
     required_keywords := [u "DPS"]; required_references := [u "combat.md"];
     preferred_script := Some (u "ttk.py");
     script_validation := Some (JDict validation) |}.

(** A case without requirements and without a script. *)
Definition bare : Case :=
  {| case_id := u "Z00"; case_title := u "bare"; case_category := u "misc";
     expected_template := u "none";
     required_keywords := []; required_references := [];
     preferred_script := None;
     script_validation := None |}.

(** The scripted case without its script. *)
Definition plain : Case :=
  {| case_id := u "A02"; case_title := u "TTK"; case_category := u "combat";
     expected_template := u "standard";
     required_keywords := [u "DPS"]; required_references := [u "combat.md"];
     preferred_script := None;
     script_validation := None |}.

Definition response : text := u "## 요약
dps = 10, see combat.md; TTK is about 12.1s
## 가정
| a | b |
|---|---|
| 1 | 2 |
".

(** A text with two sections named "가정": three entries, then one. *)
Definition twice : text := u "## 가정
- a
- b
- c
## 요약
text
## 가정
- d
".

(** The script prints an object whose [ttk] is 12.0, or 13.0. *)
Definition prints_12 : run_result := Completed 0 (ttk_prefix ++ u "12.0}") [].
Definition prints_13 : run_result := Completed 0 (ttk_prefix ++ u "13.0}") [].
Definition exits_1 : run_result := Completed 1 [] (u " boom ").

(** The script prints a [ttk] beyond the range of a float, and a response
    quotes it. *)
Definition prints_huge : run_result := Completed 0 (ttk_prefix ++ u "1e999}") [].
Definition response_huge : text := u "## 요약
TTK is 1e999 s".

(** The rule of the example with other tolerances. *)
Definition rule_with (atol rtol : json) : list (text * json) :=
  [(u "path", JStr (u "ttk")); (u "atol", atol); (u "rtol", rtol)].

End Demo.

(** * The rest of the runner

    The functions of [run_golden_checks.py] around the scorer: the selection
    of cases, the lint of the suite, the decoding of the responses and the
    run as a whole; then the routing-table synchroniser
    [sync_reference_routing.py]. *)

(** What these functions raise. *)
Inductive pyerror : Type :=
| TypeError
| AttributeError
| ValueError (msg : text)
| FileNotFoundError (path : text).

Inductive attempt (A : Type) : Type :=
| Done (a : A)
| Failed (e : pyerror).
Arguments Done {A} a.
Arguments Failed {A} e.

#[global] Instance attempt_ret : MRet attempt := λ A a, Done a.

#[global] Instance attempt_bind : MBind attempt := λ A B f m,
  match m with
  | Done a => f a
  | Failed e => Failed e
  end.

(** ** Selection of cases *)

Definition parse_case_ids (raw : option text) : option (list text) :=
  match raw with
  | None | Some [] => None
  | Some raw =>
    let values := map strip (split 44 raw) in
    Some (filter (λ value, value ≠ []) values)
  end.

(** [case_id] is [str(case.get("id"))]. *)
Definition filter_cases (cases : list Case) (selected_ids : option (list text)) : list Case :=
  match selected_ids with
  | None | Some [] => cases
  | Some selected_ids =>
    let wanted : gset text := list_to_set selected_ids in
    filter (λ case, case_id case ∈ wanted) cases
  end.

(** ** Lint of the suite *)

Definition is_dict (v : option json) : bool :=
  match v with Some (JDict _) => true | _ => false end.

(** [isinstance(v, str) and bool(str(v).strip())] *)
Definition nonblank_str (v : option json) : bool :=
  match v with Some (JStr s) => nonblank s | _ => false end.

(** [bool(v)] for what [dict.get] returned. *)
Definition truthy_opt (v : option json) : bool :=
  match v with Some v' => truthy v' | None => false end.

(** [needle in container] for a string [needle]: a key of a dict, an element
    of a list, a substring of a string; TypeError on anything else. *)
Definition py_in (needle : text) (container : json) : attempt bool :=
  match container with
  | JDict d => Done (is_Some_b (dict_get needle d))
  | JList l =>
    Done (existsb (λ v, match v with JStr s => bool_decide (s = needle) | _ => false end) l)
  | JStr s => Done (contains needle s)
  | JNull | JBool _ | JInt _ | JFloat _ => Failed TypeError
  end.

Section Runner.
Variable py : builtins.

(** [str(d.get(key, '')).strip()] *)
Definition str_field (key : text) (d : list (text * json)) : text :=
  strip (py_str py (default (JStr []) (dict_get key d))).

(** The body of the loop over [extract]; [ridx] counts from 1. *)
Definition lint_rule (case_id : text) (ridx : nat) (rule : json) : list text :=
  match rule with
  | JDict d =>
    let has_path := nonblank_str (dict_get (u "path") d)
                    || nonblank_str (dict_get (u "json_path") d) in
    if has_path then []
    else [u "case " ++ case_id ++ u ": script_validation.extract[" ++ str_of_nat ridx
            ++ u "] requires path or json_path"]
  | _ => [u "case " ++ case_id ++ u ": script_validation.extract[" ++ str_of_nat ridx
            ++ u "] must be an object"]
  end.

(** Lines 248-268: the issues of a [script_validation] that is an object. *)
Definition lint_validation (case_id : text) (validation : list (text * json)) : list text :=
  (if nonblank_str (dict_get (u "input") validation) then []
   else [u "case " ++ case_id ++ u ": script_validation.input must be a non-empty string"])
  ++ match dict_get (u "extract") validation with
     | Some (JList (rule0 :: rules')) =>
       concat (imap (λ i rule, lint_rule case_id (S i) rule) (rule0 :: rules'))
     | _ => [u "case " ++ case_id
               ++ u ": script_validation.extract must be a non-empty array"]
     end.

(** Lines 241-268. *)
Definition lint_script (case_id : text) (case : list (text * json)) : list text :=
  let preferred_script := dict_get (u "preferred_script") case in
  match dict_get (u "script_validation") case with
  | None | Some JNull => []
  | Some script_validation =>
    (if truthy_opt preferred_script then []
     else [u "case " ++ case_id ++ u ": script_validation requires preferred_script"])
    ++ match script_validation with
       | JDict validation => lint_validation case_id validation
       | _ => [u "case " ++ case_id ++ u ": script_validation must be an object"]
       end
  end.

(** Lines 237-239. *)
Definition lint_keys (case_id : text) (case : list (text * json)) : list text :=
  flat_map (λ req_key,
              if is_Some_b (dict_get req_key case) then []
              else [u "case " ++ case_id ++ u ": missing '" ++ req_key ++ u "'"])
           [u "prompt"; u "required_references"; u "required_keywords"].

(** Lines 225-231: the issue about the id, and [seen] afterwards. *)
Definition lint_id (seen : gset text) (idx : nat) (case_id : text)
  : list text * gset text :=
  match case_id with
  | [] => ([u "cases[" ++ str_of_nat idx ++ u "] missing id"], seen)
  | _ => if decide (case_id ∈ seen) then ([u "duplicate case id: " ++ case_id], seen)
         else ([], {[case_id]} ∪ seen)
  end.

(** Lines 233-235. *)
Definition lint_template (templates : json) (case_id : text) (case : list (text * json))
  : attempt (list text) :=
  let template := str_field (u "expected_template") case in
  match template with
  | [] => Done []
  | _ =>
    known ← py_in template templates;
    Done (if known : bool then []
          else [u "case " ++ case_id ++ u ": unknown expected_template '"
                  ++ template ++ u "'"])
  end.

(** The loop over the cases; [idx] counts from 1. *)
Fixpoint lint_cases (templates : json) (seen : gset text) (idx : nat) (cases : list json)
  : attempt (list text) :=
  match cases with
  | [] => Done []
  | JDict case :: rest =>
    let case_id := str_field (u "id") case in
    let id_issues := lint_id seen idx case_id in
    template_issues ← lint_template templates case_id case;
    later ← lint_cases templates id_issues.2 (S idx) rest;
    Done (id_issues.1 ++ template_issues ++ lint_keys case_id case
          ++ lint_script case_id case ++ later)
  | _ :: rest =>
    later ← lint_cases templates seen (S idx) rest;
    Done ((u "cases[" ++ str_of_nat idx ++ u "] must be an object") :: later)
  end.

Definition lint_suite (suite : list (text * json)) : attempt (list text) :=
  let issues := if is_dict (dict_get (u "templates") suite) then []
                else [u "suite.templates must be an object"] in
  match dict_get (u "cases") suite with
  | Some (JList cases) =>
    let templates := default (JDict []) (dict_get (u "templates") suite) in
    later ← lint_cases templates ∅ 1 cases;
    Done (issues ++ later)
  | _ => Done (issues ++ [u "suite.cases must be an array"])
  end.

(** ** Decoding of the responses *)

(** The loop over the items of a list payload. *)
Definition collect_responses (items : list json) : gmap text text :=
  foldl (λ out item,
           match item with
           | JDict d =>
             match dict_get (u "id") d, dict_get (u "response") d with
             | Some id, Some response => <[py_str py id := py_str py response]> out
             | _, _ => out
             end
           | _ => out
           end)
        ∅ items.

Definition is_container (v : json) : bool :=
  match v with JDict _ | JList _ => true | _ => false end.

(** [{str(k): str(v) for k, v in d.items()}]: a key of a decoded object is a
    string already. *)
Definition str_items (d : list (text * json)) : gmap text text :=
  py_str py <$> (list_to_map d : gmap text json).

Definition parse_response_payload (payload : json) : attempt (gmap text text) :=
  let unsupported := Failed (ValueError (u "Unsupported responses payload shape.")) in
  match payload with
  | JDict d =>
    match dict_get (u "responses") d with
    | Some (JDict responses) => Done (str_items responses)
    | _ =>
      match dict_get (u "cases") d with
      | Some (JList items) => Done (collect_responses items)
      | _ =>
        let direct := str_items (filter (λ kv, is_container kv.2 = false) d) in
        if decide (direct = ∅) then unsupported else Done direct
      end
    end
  | JList items => Done (collect_responses items)
  | _ => unsupported
  end.

(** ** The run as a whole *)

(** Lines 754-835 of [build_report], from the decoded suite to the summary:
    the selected cases are scored, the scripts of the whole suite are
    health-checked on request. *)
Definition build_report (suite : Suite) (lint_issues : list text) (case_ids : option text)
    (responses : gmap text text) (args : Args) (w : world) : outcome Summary :=
  let selected_case_ids := parse_case_ids case_ids in
  let selected := filter_cases (cases suite) selected_case_ids in
  case_results ←
    score_cases py {| templates := templates suite; cases := selected |} responses args w;
  script_checks ←
    (if check_scripts args then execute_preferred_scripts py (cases suite) w
     else Ok script_checks_disabled);
  Ok (summarize (is_empty lint_issues) case_results script_checks (min_suite_score args)).

End Runner.

(** The exit status of [main], the rendering and the writing of the report
    aside: 2 when [build_report] raises, else 0 for a run that passed and 1
    for one that did not. *)
Definition main (report : outcome Summary) : Z :=
  match report with
  | Raised _ => 2
  | Ok summary => if overall_passed summary then 0 else 1
  end.

(** ** The routing-table synchroniser *)

Module Routing.

Definition AGENT_MARKERS : text * text :=
  (u "<!-- ROUTING_TABLE_START:agent -->", u "<!-- ROUTING_TABLE_END:agent -->").

Definition SKILL_MARKERS : text * text :=
  (u "<!-- ROUTING_TABLE_START:skill -->", u "<!-- ROUTING_TABLE_END:skill -->").

(** [text.replace("|", "\\|")] *)
Definition _escape_cell (t : text) : text :=
  flat_map (λ c, if (c =? 124)%N then [92; 124]%N else [c]) t.

Definition _code_filename (name : text) : text := u "`" ++ name ++ u "`".

Record Entry : Type := {
  signal : text;
  primary : text;
  secondary : text;
  output : text
}.

Section Entries.
Variable py : builtins.

(** The body of the loop of [load_entries]; [idx] counts from 1. *)
Definition normalize (idx : nat) (entry : json) : attempt Entry :=
  match entry with
  | JDict d =>
    let signal := str_field py (u "signal") d in
    let primary := str_field py (u "primary") d in
    let secondary := str_field py (u "secondary") d in
    let output := str_field py (u "output") d in
    if is_empty signal || is_empty primary then
      Failed (ValueError (u "entries[" ++ str_of_nat idx ++ u "] requires signal and primary"))
    else Done {| signal := signal; primary := primary; secondary := secondary;
                 output := output |}
  | _ => Failed (ValueError (u "entries[" ++ str_of_nat idx ++ u "] must be an object"))
  end.

(** [load_entries] once the routing file is decoded. *)
Definition load_entries (payload : json) : attempt (list Entry) :=
  match payload with
  | JDict p =>
    match dict_get (u "entries") p with
    | Some (JList (entry0 :: entries')) =>
      mapM (λ ie : nat * json, normalize ie.1 ie.2)
           (imap (λ i entry, (S i, entry)) (entry0 :: entries'))
    | _ => Failed (ValueError (u "routing entries must be a non-empty array"))
    end
  | _ => Failed AttributeError
  end.

End Entries.

Definition agent_row (entry : Entry) : text :=
  let secondary := match secondary entry with
                   | [] => u "-"
                   | name => _code_filename name
                   end in
  u "| " ++ _escape_cell (signal entry) ++ u " | " ++ _code_filename (primary entry)
    ++ u " | " ++ secondary ++ u " |".

Definition build_agent_table (entries : list Entry) : text :=
  join [10%N] ([u "| 요청 키워드/신호 | 우선 참조 | 보조 참조 |"; u "|---|---|---|"]
               ++ map agent_row entries).

Definition skill_row (entry : Entry) : text :=
  let output := match output entry with
                | [] => u "-"
                | o => o
                end in
  u "| " ++ _escape_cell (signal entry) ++ u " | " ++ _code_filename (primary entry)
    ++ u " | " ++ _escape_cell output ++ u " |".

Definition build_skill_table (entries : list Entry) : text :=
  join [10%N] ([u "| 요청 신호(의도) | 먼저 볼 문서 | 핵심 산출 |"; u "|---|---|---|"]
               ++ map skill_row entries).

(** [s.find(sub)]: the lowest index at which [sub] occurs. *)
Fixpoint find (sub s : text) : option nat :=
  if startswith sub s then Some 0%nat
  else match s with
       | [] => None
       | _ :: s' => S <$> find sub s'
       end.

(** [s.find(sub, start)] for [start] within [s]. *)
Definition find_from (sub s : text) (start : nat) : option nat :=
  (λ i, (start + i)%nat) <$> find sub (drop start s).

Definition replace_between_markers (content start_marker end_marker body : text)
  : attempt text :=
  match find start_marker content with
  | None => Failed (ValueError (u "start marker not found: " ++ start_marker))
  | Some start_idx =>
    match find_from [10%N] content start_idx with
    | None => Failed (ValueError (u "invalid start marker line: " ++ start_marker))
    | Some start_line_end =>
      match find_from end_marker content (start_line_end + 1) with
      | None => Failed (ValueError (u "end marker not found: " ++ end_marker))
      | Some end_idx =>
        Done (take (start_line_end + 1) content ++ rstrip body ++ [10%N]
                ++ drop end_idx content)
      end
    end
  end.

(** What reading a text file returns for the characters it stores: a
    carriage return, alone or before a newline, is read as a newline. *)
Fixpoint universal_newlines (s : text) : text :=
  match s with
  | [] => []
  | c :: rest =>
    if (c =? 13)%N then
      match rest with
      | c' :: rest' =>
        if (c' =? 10)%N then 10%N :: universal_newlines rest'
        else 10%N :: universal_newlines rest
      | [] => [10%N]
      end
    else c :: universal_newlines rest
  end.

(** The files are a map from paths to the characters stored; the result
    carries the files after the call. [read_text] reads with universal
    newlines; [write_text] stores a newline as it is, as on POSIX. *)
Definition sync_file (files : gmap text text) (path : text) (markers : text * text)
    (table_body : text) (check : bool) : attempt (bool * gmap text text) :=
  match files !! path with
  | None => Failed (FileNotFoundError path)
  | Some stored =>
    let original := universal_newlines stored in
    updated ← replace_between_markers original markers.1 markers.2 table_body;
    let changed := bool_decide (updated ≠ original) in
    Done (negb changed,
          if changed && negb check then <[path := updated]> files else files)
  end.

(** [main] once the routing file is decoded: the exit status and the files
    afterwards. *)
Definition main (py : builtins) (routing : json) (agent_doc skill_doc : text)
    (files : gmap text text) (check : bool) : attempt (Z * gmap text text) :=
  entries ← load_entries py routing;
  let agent_table := build_agent_table entries in
  let skill_table := build_skill_table entries in
  agent ← sync_file files agent_doc AGENT_MARKERS agent_table check;
  skill ← sync_file agent.2 skill_doc SKILL_MARKERS skill_table check;
  if check then Done (if agent.1 && skill.1 then 0 else 1, skill.2)
  else Done (0, skill.2).

End Routing.

(** ** Vocabulary of the statements below *)

(** A world that differs from [w] in what its runs produce. *)
Definition with_run (w : world) (run : list text → run_result) : world :=
  {| sys_executable := sys_executable w; script_path := script_path w;
     input_path := input_path w; path_exists := path_exists w;
     subprocess_run := run |}.

(** The script exists, the validation names an existing input and holds at
    least one rule. *)
Definition runnable (w : world) (preferred_script : text) (validation : list (text * json))
  : bool :=
  path_exists w (script_path w preferred_script)
  && match dict_get (u "input") validation with
     | Some (JStr input_rel) => nonblank input_rel && path_exists w (input_path w input_rel)
     | _ => false
     end
  && match dict_get (u "extract") validation with
     | Some (JList (_ :: _)) => true
     | _ => false
     end.

(** A character that is a comma or white space. *)
Definition separator (c : N) : bool := (c =? 44)%N || is_space c.

(** An id that [--case-ids] can name: not empty, trimmed, without a comma. *)
Definition selectable (id : text) : Prop := id ≠ [] ∧ strip id = id ∧ 44%N ∉ id.

(** *** Well-formed suites *)

(** A value that is neither a string nor a container. *)
Definition scalar (v : json) : bool :=
  match v with
  | JNull | JBool _ | JInt _ | JFloat _ => true
  | JStr _ | JList _ | JDict _ => false
  end.

(** A rule with a usable [path] or [json_path]. *)
Definition well_formed_rule (rule : json) : Prop :=
  ∃ d, rule = JDict d
     ∧ (nonblank_str (dict_get (u "path") d) = true
        ∨ nonblank_str (dict_get (u "json_path") d) = true).

(** A case without [script_validation], or with one that is an object with
    an input and rules and comes with a script. *)
Definition well_formed_validation (case : list (text * json)) : Prop :=
  match dict_get (u "script_validation") case with
  | None | Some JNull => True
  | Some (JDict validation) =>
    truthy_opt (dict_get (u "preferred_script") case) = true
    ∧ nonblank_str (dict_get (u "input") validation) = true
    ∧ ∃ rule0 rules', dict_get (u "extract") validation = Some (JList (rule0 :: rules'))
                    ∧ Forall well_formed_rule (rule0 :: rules')
  | Some _ => False
  end.

(** The template that a case names is either empty or a key of [templates]. *)
Definition well_formed_case (py : builtins) (templates : list (text * json)) (case : json)
  : Prop :=
  ∃ d, case = JDict d
     ∧ str_field py (u "id") d ≠ []
     ∧ (str_field py (u "expected_template") d = []
        ∨ is_Some (dict_get (str_field py (u "expected_template") d) templates))
     ∧ is_Some (dict_get (u "prompt") d)
     ∧ is_Some (dict_get (u "required_references") d)
     ∧ is_Some (dict_get (u "required_keywords") d)
     ∧ well_formed_validation d.

(** The id under which the lint knows a case. *)
Definition case_key (py : builtins) (case : json) : text :=
  match case with
  | JDict d => str_field py (u "id") d
  | _ => []
  end.

(** A case that names a template. *)
Definition names_template (py : builtins) (case : json) : Prop :=
  ∃ d, case = JDict d ∧ str_field py (u "expected_template") d ≠ [].

(** A rule whose [path] is set to something other than a usable string, so
    that its [json_path] is not read. *)
Definition shadowed (rule : list (text * json)) : bool :=
  match dict_get (u "path") rule with
  | Some v => truthy v && negb (nonblank_str (Some v))
  | None => false
  end.

(** *** Payloads *)

(** A payload in none of the shapes that [parse_response_payload] reads:
    neither a list nor an object, or an object without a [responses]
    object, without a [cases] list and with nested values only. *)
Definition unsupported (payload : json) : Prop :=
  match payload with
  | JList _ => False
  | JDict d =>
    (∀ responses, dict_get (u "responses") d ≠ Some (JDict responses))
    ∧ (∀ items, dict_get (u "cases") d ≠ Some (JList items))
    ∧ Forall (λ kv : text * json, is_container kv.2 = true) d
  | _ => True
  end.

(** An item of a list payload that gives a response for [id]. *)
Definition answers (py : builtins) (id : text) (item : json) : Prop :=
  ∃ d i r, item = JDict d ∧ dict_get (u "id") d = Some i
         ∧ dict_get (u "response") d = Some r ∧ py_str py i = id.

(** *** Routing tables *)

(** In [body] followed by a line with [end_marker], the marker first occurs
    on that line: the body does not bring an end marker of its own. *)
Definition closes_after (end_marker body : text) : Prop :=
  Routing.find end_marker (rstrip body ++ [10%N] ++ end_marker)
  = Some (S (length (rstrip body))).

(** A table that can be written between markers and read back: it brings
    no end marker of its own and holds no carriage return. *)
Definition fits (end_marker body : text) : Prop :=
  closes_after end_marker body ∧ 13%N ∉ body.

(** A normalised entry: fields trimmed, [signal] and [primary] not empty. *)
Definition normalised (entry : Routing.Entry) : Prop :=
  Routing.signal entry ≠ [] ∧ Routing.primary entry ≠ []
  ∧ strip (Routing.signal entry) = Routing.signal entry
  ∧ strip (Routing.primary entry) = Routing.primary entry
  ∧ strip (Routing.secondary entry) = Routing.secondary entry
  ∧ strip (Routing.output entry) = Routing.output entry.

(** ** Sample data for the examples *)

Module Samples.
Import AsciiPy Demo.

(** The scripted case without validation rules. *)
Definition unvalidated : Case :=
  {| case_id := u "A03"; case_title := u "TTK"; case_category := u "combat";
     expected_template := u "standard";
     required_keywords := [u "DPS"]; required_references := [u "combat.md"];
     preferred_script := Some (u "ttk.py");
     script_validation := None |}.

(** A suite of one case without requirements, and a response for it. *)
Definition suite_bare : Suite := {| templates := ∅; cases := [bare] |}.

Definition responses_bare : gmap text text := {[ u "Z00" := u "Nothing to add." ]}.

(** A suite whose only case names a script. *)
Definition suite_scripted : Suite := {| templates := ∅; cases := [scripted] |}.

Definition args (check_scripts : bool) : Args :=
  {| min_case_score := DEFAULT_CASE_SCORE; min_suite_score := DEFAULT_SUITE_SCORE;
     allow_missing_cases := false; check_scripts := check_scripts |}.

(** The validation of the scripted case with a [min_matches] of 0. *)
Definition validation_any : list (text * json) :=
  validation ++ [(u "min_matches", JInt 0)].

(** A rule whose blank [path] hides its [json_path]. *)
Definition shadowed_rule : list (text * json) :=
  [(u "path", JStr (u "  ")); (u "json_path", JStr (u "ttk"))].

(** A list payload that answers A01 twice and B02 once. *)
Definition item (id response : string) : list (text * json) :=
  [(u "id", JStr (u id)); (u "response", JStr (u response))].

Definition payload_items : list json :=
  [JDict (item "A01" "first"); JDict (item "A01" "second"); JDict (item "B02" "other")].

(** A payload with both a [responses] object and a [cases] list. *)
Definition payload_both : list (text * json) :=
  [(u "cases", JList payload_items);
   (u "responses", JDict [(u "A01", JStr (u "direct")); (u "n", JInt 7)])].

(** A routing file of one entry, and a document with the agent markers. *)
Definition routing : json :=
  JDict [(u "entries",
          JList [JDict [(u "signal", JStr (u " ttk | dps "));
                        (u "primary", JStr (u "combat.md"))]])].

Definition agent_doc : text := u "# Agent
<!-- ROUTING_TABLE_START:agent -->
| old |
<!-- ROUTING_TABLE_END:agent -->
tail
".

Definition skill_doc : text := u "# Skill
<!-- ROUTING_TABLE_START:skill -->
<!-- ROUTING_TABLE_END:skill -->
".

Definition files : gmap text text :=
  {[ u "agents/game-balance-designer.md" := agent_doc;
     u "skills/game-balance-math/SKILL.md" := skill_doc ]}.

End Samples.

(** * Properties *)

(** ** Arithmetic on scores *)

Lemma Qle_bool_true (a b : Q) : Qle_bool a b = true ↔ (a <= b)%Q.
Proof. apply Qle_bool_iff. Qed.

Lemma Qle_bool_false (a b : Q) : Qle_bool a b = false ↔ (b < a)%Q.
Proof.
  split; intros H.
  - apply Qnot_le_lt. intros Hle. apply Qle_bool_iff in Hle. congruence.
  - destruct (Qle_bool a b) eqn:E; [|done].
    apply Qle_bool_iff in E. apply Qle_not_lt in E. contradiction.
Qed.

Lemma safe_ratio_nonpositive (n : Q) (d : Z) : d <= 0 → _safe_ratio n d = 1%Q.
Proof. intros Hd. unfold _safe_ratio. by rewrite (proj2 (Z.leb_le d 0) Hd). Qed.

Lemma safe_ratio_bounds (n d : Z) :
  0 <= n <= d → (0 <= _safe_ratio (inject_Z n) d <= 1)%Q.
Proof.
  intros [Hn Hd]. unfold _safe_ratio. destruct (d <=? 0) eqn:E.
  - split; [discriminate|apply Qle_refl].
  - apply Z.leb_gt in E.
    assert (0 < inject_Z d)%Q as Hpos by (unfold Qlt; simpl; lia).
    split.
    + apply Qle_shift_div_l; [done|]. rewrite Qmult_0_l.
      unfold Qle; simpl; lia.
    + apply Qle_shift_div_r; [done|]. rewrite Qmult_1_l. unfold Qle; simpl; lia.
Qed.

Lemma safe_ratio_full (d : Z) : (_safe_ratio (inject_Z d) d == 1)%Q.
Proof.
  unfold _safe_ratio. destruct (d <=? 0) eqn:E; [reflexivity|].
  apply Z.leb_gt in E. apply Qmult_inv_r.
  intros H. unfold Qeq in H. simpl in H. lia.
Qed.

(** ** Loops as maps and filters *)

Lemma foldl_collect {A B : Type} (P : A → Prop) `{!∀ x, Decision (P x)} (g : A → B)
    (acc : list B) (l : list A) :
  foldl (λ missing x, if decide (P x) then missing else missing ++ [g x]) acc l
  = acc ++ map g (filter (λ x, ¬ P x) l).
Proof.
  revert acc. induction l as [|x l IH]; intros acc; simpl.
  - by rewrite app_nil_r.
  - rewrite IH, filter_cons. destruct (decide (P x)) as [HP|HP].
    + by rewrite decide_False by (intros Hn; by apply Hn).
    + rewrite decide_True by done. simpl. by rewrite <- app_assoc.
Qed.

Lemma foldl_tally {A : Type} (ok : A → bool) (n : nat) (missing : list A) (l : list A) :
  foldl (λ (acc : nat * list A) x,
           if ok x then (S acc.1, acc.2) else (acc.1, acc.2 ++ [x])) (n, missing) l
  = ((n + length (filter (λ x, ok x = true) l))%nat,
     missing ++ filter (λ x, ok x = false) l).
Proof.
  revert n missing. induction l as [|x l IH]; intros n missing; simpl.
  - by rewrite Nat.add_0_r, app_nil_r.
  - rewrite !filter_cons. destruct (ok x) eqn:E; simpl; rewrite IH; simpl.
    + f_equal. lia.
    + by rewrite <- app_assoc.
Qed.

Lemma length_filter_split {A : Type} (ok : A → bool) (l : list A) :
  (length (filter (λ x, ok x = true) l) + length (filter (λ x, ok x = false) l))%nat
  = length l.
Proof.
  induction l as [|x l IH]; [done|]. rewrite !filter_cons.
  destruct (ok x); simpl; lia.
Qed.

Section Loops.
Variable py : builtins.

Lemma find_missing_sections_filter (t : text) (required : list text) :
  find_missing_sections t required
  = map _canonical_section
        (filter (λ r, _canonical_section r ∉ parsed_names t) required).
Proof. unfold find_missing_sections. apply (foldl_collect _ _ []). Qed.

Lemma find_missing_sections_length (t : text) (required : list text) :
  (length (find_missing_sections t required) ≤ length required)%nat.
Proof. rewrite find_missing_sections_filter, length_map. apply length_filter. Qed.

Lemma check_traits_filter (t : text) (traits : list text) :
  check_traits py t traits
  = (_safe_ratio
       (inject_Z (Z.of_nat (length (filter (λ tr, trait_ok py t tr = true) traits))))
       (Z.of_nat (length traits)),
     filter (λ tr, trait_ok py t tr = false) traits).
Proof. unfold check_traits. by rewrite (foldl_tally (trait_ok py t)). Qed.

Lemma ratio_found_bounds (required missing : list text) :
  (length missing ≤ length required)%nat →
  (0 <= ratio_found required missing <= 1)%Q.
Proof. intros H. apply safe_ratio_bounds. lia. Qed.

Lemma ratio_found_none_missing (required : list text) :
  (ratio_found required [] == 1)%Q.
Proof.
  unfold ratio_found. simpl length. rewrite Z.sub_0_r. apply safe_ratio_full.
Qed.

Lemma not_mentioned_length (response : text) (items : list text) :
  (length (not_mentioned py response items) ≤ length items)%nat.
Proof. apply length_filter. Qed.

(** What [case_locals] returns once the script check has returned. *)
Lemma case_locals_inv (case : Case) (template : Template) (response : text) (w : world)
    (l : locals) :
  case_locals py case template response w = Ok l →
  ∃ sc, script_check py case response w = Ok sc
    ∧ missing_sections l = find_missing_sections response (required_sections template)
    ∧ sections_score l = ratio_found (required_sections template) (missing_sections l)
    ∧ sections_pass l = is_empty (missing_sections l)
    ∧ assumption_count l = count_assumptions py response
    ∧ assumptions_pass l = (Z.of_nat (assumption_count l) <=? max_assumptions template)
    ∧ assumptions_score l = (if assumptions_pass l then 1%Q else 0%Q)
    ∧ missing_keywords l = not_mentioned py response (required_keywords case)
    ∧ keywords_score l = ratio_found (required_keywords case) (missing_keywords l)
    ∧ keywords_pass l = is_empty (missing_keywords l)
    ∧ missing_refs l = not_mentioned py response (required_references case)
    ∧ refs_score l = ratio_found (required_references case) (missing_refs l)
    ∧ refs_pass l = is_empty (missing_refs l)
    ∧ (traits_score l, missing_traits l) = check_traits py response (required_traits template)
    ∧ traits_pass l = is_empty (missing_traits l)
    ∧ script_score l = fst <$> sc.1
    ∧ script_pass l = snd <$> sc.1
    ∧ script_details l = sc.2.
Proof.
  unfold case_locals.
  destruct (check_traits py response (required_traits template)) as [ts mt] eqn:Et.
  destruct (script_check py case response w) as [sc|e] eqn:Es; simpl; [|done].
  intros [= <-]. exists sc. simpl. by repeat split.
Qed.

Lemma case_locals_of_script_check (case : Case) (template : Template) (response : text)
    (w : world) (sc : option (Q * bool) * text) :
  script_check py case response w = Ok sc →
  ∃ l, case_locals py case template response w = Ok l.
Proof.
  intros Hs. unfold case_locals.
  destruct (check_traits py response (required_traits template)) as [ts mt].
  rewrite Hs. simpl. eauto.
Qed.

Lemma script_check_undeclared (case : Case) (response : text) (w : world) :
  script_declared case = None →
  script_check py case response w = Ok (None, u "N/A").
Proof. intros H. unfold script_check. by rewrite H. Qed.

End Loops.

(** ** The case scorer *)

Section CaseScorer.
Variable py : builtins.

(** With a response, [score_case] returns as soon as the script check does. *)
Lemma score_case_of_locals (case : Case) (template : Template) (response : text)
    (min_score : Q) (allow : bool) (w : world) (l : locals) :
  case_locals py case template response w = Ok l →
  score_case py case template (Some response) min_score allow w
  = Ok {| cr_id := case_id case; cr_title := case_title case;
          cr_category := case_category case;
          cr_score := round4 (weighted_score (metric_scores l));
          cr_passed := Qle_bool min_score (weighted_score (metric_scores l))
                       && is_empty (hard_fail_reasons case l);
          cr_skipped := false;
          cr_hard_fail_reasons := hard_fail_reasons case l;
          cr_checks := checks_of case template l |}.
Proof. intros H. unfold score_case. by rewrite H. Qed.

Lemma weighted_score_five (s a k r t : Q) :
  (weighted_score [(Sections, s); (Assumptions, a); (Keywords, k); (References, r);
                   (Traits, t)]
   == (0.35 * s + 0.10 * a + 0.20 * k + 0.20 * r + 0.10 * t) / 0.95)%Q.
Proof.
  unfold weighted_score. cbn [foldl fst snd DEFAULT_WEIGHTS].
  destruct (Qgt_bool _ 0) eqn:E.
  - field.
  - unfold Qgt_bool in E. apply negb_false_iff, Qle_bool_iff in E. lra.
Qed.

Lemma weighted_score_six (s a k r t p : Q) :
  (weighted_score [(Sections, s); (Assumptions, a); (Keywords, k); (References, r);
                   (Traits, t); (PreferredScript, p)]
   == 0.35 * s + 0.10 * a + 0.20 * k + 0.20 * r + 0.10 * t + 0.05 * p)%Q.
Proof.
  unfold weighted_score. cbn [foldl fst snd DEFAULT_WEIGHTS].
  destruct (Qgt_bool _ 0) eqn:E.
  - field.
  - unfold Qgt_bool in E. apply negb_false_iff, Qle_bool_iff in E. lra.
Qed.

End CaseScorer.

(** ** Exceptions *)

Section Exceptions.
Variable py : builtins.

Lemma to_int_raised_inv (value : option json) (default : Z) (e : exn) :
  _to_int py value default = Raised e →
  e = OverflowError ∧ ∃ f, value = Some (JFloat f) ∧ infinite f = true.
Proof.
  unfold _to_int. destruct value as [[| | |[]|str| |]|]; simpl; try discriminate.
  - intros [= <-]. eauto.
  - intros [= <-]. eauto.
Qed.

(** [float] raises on the integers beyond its range, and on nothing else. *)
Lemma py_float_raised_inv (v : json) (e : exn) :
  py_float py v = Raised e → e = OverflowError ∧ huge (Some v).
Proof.
  destruct v as [|b|z|f|s|l|d]; simpl; try discriminate.
  destruct (float_overflows z) eqn:Ez; [|discriminate].
  intros [= <-]. split; [done|]. by exists z.
Qed.

Lemma py_float_huge (v : json) : huge (Some v) → py_float py v = Raised OverflowError.
Proof. intros (z & [= ->] & Hz). simpl. by rewrite Hz. Qed.

Lemma to_float_raised_inv (value : option json) (default : pyfloat) (e : exn) :
  _to_float py value default = Raised e → e = OverflowError ∧ huge value.
Proof.
  destruct value as [v|]; simpl; [|discriminate].
  destruct (py_float py v) as [f|e'] eqn:Ef; simpl; [discriminate|].
  intros [= <-]. by eapply py_float_raised_inv.
Qed.

Lemma to_float_huge (value : option json) (default : pyfloat) :
  huge value → _to_float py value default = Raised OverflowError.
Proof.
  intros (z & -> & Hz). unfold _to_float.
  by rewrite (py_float_huge (JInt z)) by (by exists z).
Qed.

Lemma to_float_ok (value : option json) (default : pyfloat) :
  ¬ huge value → ∃ f, _to_float py value default = Ok f.
Proof.
  intros Hn. destruct (_to_float py value default) as [f|e] eqn:E; [by exists f|].
  apply to_float_raised_inv in E as [_ Hh]. by destruct Hn.
Qed.

(** The tolerance of a rule is computed unless [atol] or [rtol] is beyond
    the range of a float. *)
Lemma rule_tol_raised_inv (rule : list (text * json)) (expected : pyfloat) (e : exn) :
  rule_tol py rule expected = Raised e →
  e = OverflowError
  ∧ (huge (dict_get (u "atol") rule) ∨ huge (dict_get (u "rtol") rule)).
Proof.
  unfold rule_tol, rule_atol, rule_rtol.
  destruct (_to_float py (dict_get (u "atol") rule) (Finite 0)) as [a|e1] eqn:Ea.
  - destruct (_to_float py (dict_get (u "rtol") rule) (Finite 0.02)) as [r|e2] eqn:Er;
      [discriminate|].
    intros [= <-]. apply to_float_raised_inv in Er as [-> Hr]. auto.
  - intros [= <-]. apply to_float_raised_inv in Ea as [-> Ha]. auto.
Qed.

Lemma rule_tol_huge (rule : list (text * json)) (expected : pyfloat) :
  huge (dict_get (u "atol") rule) ∨ huge (dict_get (u "rtol") rule) →
  rule_tol py rule expected = Raised OverflowError.
Proof.
  intros H. unfold rule_tol, rule_atol, rule_rtol.
  destruct (_to_float py (dict_get (u "atol") rule) (Finite 0)) as [a|e1] eqn:Ea.
  - destruct H as [H|H].
    + by rewrite (to_float_huge _ _ H) in Ea.
    + by rewrite (to_float_huge _ _ H).
  - by apply to_float_raised_inv in Ea as [-> _].
Qed.

(** A rule raises when the value at its path, its [atol] or its [rtol] is
    an integer beyond the range of a float. *)
Lemma judge_rule_raised_inv (payload : json) (nums : list pyfloat) (idx : nat)
    (rule : json) (e : exn) :
  judge_rule py payload nums idx rule = Raised e →
  e = OverflowError ∧ ∃ d, rule = JDict d ∧ rule_overflows py payload d.
Proof.
  unfold judge_rule. destruct rule as [| | | | | |d]; try discriminate.
  destruct (rule_path d) as [[| | | |path| |]|] eqn:Ep; try discriminate.
  destruct (strip path); [discriminate|].
  destruct (_value_at_path py payload path) as [found|] eqn:Ev; [|discriminate].
  destruct (py_float py found) as [[expected|]|e'] eqn:Ef.
  - cbn [mbind outcome_bind].
    destruct (rule_tol py d expected) as [tol|e'] eqn:Et; [discriminate|].
    intros [= <-]. apply rule_tol_raised_inv in Et as [-> Ht].
    split; [done|]. exists d. split; [done|]. by right.
  - discriminate.
  - intros [= <-]. apply py_float_raised_inv in Ef as [-> Hh].
    split; [done|]. exists d. split; [done|]. left. exists path. by rewrite Ev.
Qed.

Lemma judge_fold_raised (payload : json) (nums : list pyfloat) (irs : list (nat * json))
    (e : exn) :
  foldl (λ (state : outcome (nat * list text)) (ir : nat * json),
           acc ← state;
           verdict ← judge_rule py payload nums ir.1 ir.2;
           Ok (match verdict with
               | Matched => (S acc.1, acc.2)
               | Missing d => (acc.1, acc.2 ++ [d])
               end))
        (Raised e) irs
  = Raised e.
Proof. induction irs as [|ir irs IH]; [done|]. exact IH. Qed.

(** The loop over the rules: every rule is counted once, as matched or as
    missing, unless one of them raises. *)
Lemma judge_fold_inv (payload : json) (nums : list pyfloat) (irs : list (nat * json))
    (acc : nat * list text) :
  match foldl (λ (state : outcome (nat * list text)) (ir : nat * json),
                 acc ← state;
                 verdict ← judge_rule py payload nums ir.1 ir.2;
                 Ok (match verdict with
                     | Matched => (S acc.1, acc.2)
                     | Missing d => (acc.1, acc.2 ++ [d])
                     end))
              (Ok acc) irs with
  | Ok out => (out.1 + length out.2 = acc.1 + length acc.2 + length irs)%nat
  | Raised e => ∃ ir, ir ∈ irs ∧ judge_rule py payload nums ir.1 ir.2 = Raised e
  end.
Proof.
  revert acc. induction irs as [|ir irs IH]; intros acc; [simpl; lia|].
  cbn [foldl]. cbn beta.
  destruct (judge_rule py payload nums ir.1 ir.2) as [verdict|e] eqn:Ej;
    cbn [mbind outcome_bind].
  - match goal with
    | |- context [foldl _ (Ok ?a) irs] => specialize (IH a)
    end.
    destruct (foldl _ _ irs) as [out|e].
    + rewrite IH. destruct verdict; simpl; [lia|]. rewrite length_app. simpl. lia.
    + destruct IH as (ir' & Hin & Hr). exists ir'. split; [by right|done].
  - rewrite judge_fold_raised. exists ir. split; [by left|done].
Qed.

Lemma imap_numbered_elem (rules : list json) (first : nat) (ir : nat * json) :
  ir ∈ imap (λ i rule, (first + i, rule)%nat) rules → ir.2 ∈ rules.
Proof.
  revert first. induction rules as [|rule rules IH]; intros first; simpl.
  - by intros ?%elem_of_nil.
  - intros [->|Hin]%elem_of_cons; [by left|]. right. apply (IH (S first)).
    erewrite imap_ext; [exact Hin|]. intros i x _. simpl. f_equal. lia.
Qed.

Lemma judge_rules_inv (payload : json) (nums : list pyfloat) (rules : list json) :
  match judge_rules py payload nums rules with
  | Ok (matched, missing) => (matched + length missing = length rules)%nat
  | Raised e =>
    e = OverflowError ∧ ∃ d, JDict d ∈ rules ∧ rule_overflows py payload d
  end.
Proof.
  unfold judge_rules.
  pose proof (judge_fold_inv payload nums (imap (λ i rule, (S i, rule)) rules) (0%nat, []))
    as H.
  destruct (foldl _ _ _) as [[matched missing]|e].
  - simpl in H. by rewrite length_imap in H.
  - destruct H as (ir & Hin & Hr).
    apply judge_rule_raised_inv in Hr as (-> & d & Hd & Hov).
    split; [done|]. exists d. split; [|done]. rewrite <- Hd.
    by apply (imap_numbered_elem rules 1).
Qed.

(** What the numeric check raises: the time limit of the run, the
    conversion of an infinite [min_matches], or the conversion of an integer
    beyond the range of a float in one of the rules. *)
Lemma evaluate_raised_inv (response script : text) (validation : list (text * json))
    (w : world) (e : exn) :
  evaluate_script_numeric_checks py response script validation w = Raised e →
  validation_raises py w validation e.
Proof.
  unfold evaluate_script_numeric_checks. intros H.
  destruct (negb (path_exists w (script_path w script))); [done|].
  destruct (dict_get (u "input") validation) as [[| | | |input_rel| |]|]; try done.
  destruct (strip input_rel); [done|].
  destruct (negb (path_exists w (input_path w input_rel))); [done|].
  destruct (dict_get (u "extract") validation) as [[| | | | |[|rule0 rules']|]|] eqn:Ee;
    try done.
  destruct (subprocess_run w _) as [rc out err|] eqn:Er;
    [|injection H as <-; left; eauto].
  destruct (negb (rc =? 0)) eqn:Erc; [done|].
  apply negb_false_iff, Z.eqb_eq in Erc. subst rc.
  destruct (strip out) as [|c o] eqn:Eo; [done|].
  destruct (json_loads py _) as [exc|payload] eqn:Ej; [done|].
  destruct (_extract_numbers py response) as [|num0 nums]; [done|].
  pose proof (judge_rules_inv payload (num0 :: nums) (rule0 :: rules')) as Hrules.
  destruct (judge_rules py payload (num0 :: nums) (rule0 :: rules'))
    as [[matched missing]|e'].
  - destruct (_to_int py _ _) as [z|e'] eqn:Ez; simpl in H; [discriminate|].
    injection H as <-. right. left. by eapply to_int_raised_inv.
  - injection H as <-. destruct Hrules as (-> & d & Hin & Hov).
    right. right. split; [done|].
    eexists _, out, err, payload, (rule0 :: rules'), d.
    split; [exact Er|]. rewrite Eo. by split.
Qed.

Lemma script_check_raised_inv (case : Case) (response : text) (w : world) (e : exn) :
  script_check py case response w = Raised e → case_raises py w case e.
Proof.
  unfold script_check. intros H.
  repeat (case_match; try discriminate).
  destruct (evaluate_script_numeric_checks py response _ _ w) eqn:E; [discriminate|].
  simpl in H. injection H as <-. eexists. split; [done|]. by eapply evaluate_raised_inv.
Qed.

Lemma case_locals_raised_inv (case : Case) (template : Template) (response : text)
    (w : world) (e : exn) :
  case_locals py case template response w = Raised e → case_raises py w case e.
Proof.
  unfold case_locals.
  destruct (check_traits py response (required_traits template)) as [ts mt].
  destruct (script_check py case response w) as [sc|e'] eqn:Es; simpl; [done|].
  intros [= <-]. by eapply script_check_raised_inv.
Qed.

Lemma score_case_raised_inv (case : Case) (template : Template) (response : option text)
    (min_score : Q) (allow : bool) (w : world) (e : exn) :
  score_case py case template response min_score allow w = Raised e →
  case_raises py w case e.
Proof.
  unfold score_case. destruct response as [response|]; [|done].
  destruct (case_locals py case template response w) as [l|e'] eqn:El; simpl; [done|].
  intros [= <-]. by eapply case_locals_raised_inv.
Qed.

Lemma score_case_ok_inv (case : Case) (template : Template) (response : text)
    (min_score : Q) (allow : bool) (w : world) (r : CaseResult) :
  score_case py case template (Some response) min_score allow w = Ok r →
  ∃ l, case_locals py case template response w = Ok l
     ∧ r = {| cr_id := case_id case; cr_title := case_title case;
              cr_category := case_category case;
              cr_score := round4 (weighted_score (metric_scores l));
              cr_passed := Qle_bool min_score (weighted_score (metric_scores l))
                           && is_empty (hard_fail_reasons case l);
              cr_skipped := false;
              cr_hard_fail_reasons := hard_fail_reasons case l;
              cr_checks := checks_of case template l |}.
Proof.
  unfold score_case.
  destruct (case_locals py case template response w) as [l|e'] eqn:El; simpl; [|done].
  intros [= <-]. eauto.
Qed.

End Exceptions.

(** ** Claims about the case scorer *)

Ltac skip_check :=
  rewrite filter_cons, decide_False
    by (cbn [ck_name]; let H := fresh in intros H; vm_compute in H; discriminate H).
Ltac take_check := rewrite filter_cons, decide_True by reflexivity.

Section CaseClaims.
Variable py : builtins.

Lemma locals_scores_bounded (case : Case) (template : Template) (response : text)
    (w : world) (l : locals) :
  case_locals py case template response w = Ok l →
  (0 <= sections_score l <= 1 ∧ 0 <= assumptions_score l <= 1
   ∧ 0 <= keywords_score l <= 1 ∧ 0 <= refs_score l <= 1
   ∧ 0 <= traits_score l <= 1)%Q.
Proof.
  intros H. apply case_locals_inv in H as (sc & _ & Hms & Hs & _ & _ & _ & Ha & Hmk & Hk
    & _ & Hmr & Hr & _ & Ht & _).
  rewrite Hs, Hk, Hr, Ha, Hms, Hmk, Hmr.
  rewrite check_traits_filter in Ht. injection Ht as Ht _. rewrite Ht.
  split; [apply ratio_found_bounds, find_missing_sections_length|].
  split; [destruct (assumptions_pass l); lra|].
  split; [apply ratio_found_bounds, not_mentioned_length|].
  split; [apply ratio_found_bounds, not_mentioned_length|].
  apply safe_ratio_bounds. split; [lia|]. apply inj_le, length_filter.
Qed.

(** C1, as amended. A case with a response and no preferred script is
    scored on five checks; its weighted score is the weighted sum divided
    by the weight evaluated, 0.95: it lies between 0 and 1 and is 1 when the
    five checks score 1. *)
Theorem C1_score_divided_by_evaluated_weight
    (case : Case) (template : Template) (response : text) (w : world) :
  script_declared case = None →
  ∃ l, case_locals py case template response w = Ok l
     ∧ (weighted_score (metric_scores l)
        == (0.35 * sections_score l + 0.10 * assumptions_score l
            + 0.20 * keywords_score l + 0.20 * refs_score l
            + 0.10 * traits_score l) / 0.95)%Q
     ∧ (0 <= weighted_score (metric_scores l) <= 1)%Q
     ∧ ((sections_score l == 1)%Q → (assumptions_score l == 1)%Q →
        (keywords_score l == 1)%Q → (refs_score l == 1)%Q → (traits_score l == 1)%Q →
        (weighted_score (metric_scores l) == 1)%Q)
     ∧ ∀ min_score allow, ∃ r,
         score_case py case template (Some response) min_score allow w = Ok r
         ∧ cr_score r = round4 (weighted_score (metric_scores l)).
Proof.
  intros Hnone.
  destruct (case_locals_of_script_check py case template response w _
              (script_check_undeclared py case response w Hnone)) as [l Hl].
  exists l. split; [done|].
  pose proof (locals_scores_bounded _ _ _ _ _ Hl) as (Hs & Ha & Hk & Hr & Ht).
  assert (script_score l = None) as Hsc.
  { apply case_locals_inv in Hl as (sc & Hsc & Hrest).
    rewrite script_check_undeclared in Hsc by done. injection Hsc as <-.
    by destruct Hrest as (_&_&_&_&_&_&_&_&_&_&_&_&_&_&->&_). }
  assert (weighted_score (metric_scores l)
          == (0.35 * sections_score l + 0.10 * assumptions_score l
              + 0.20 * keywords_score l + 0.20 * refs_score l
              + 0.10 * traits_score l) / 0.95)%Q as Heq.
  { unfold metric_scores. rewrite Hsc. simpl app. apply weighted_score_five. }
  split; [done|]. split; [|split].
  - rewrite Heq. split.
    + apply Qle_shift_div_l; lra.
    + apply Qle_shift_div_r; lra.
  - intros E1 E2 E3 E4 E5. rewrite Heq, E1, E2, E3, E4, E5. reflexivity.
  - intros min_score allow. eexists. split; [by apply score_case_of_locals|done].
Qed.

(** C3. With a response, [score_case] either passes on what its numeric
    validation raises or returns a result whose verdict is: the weighted score
    reaches the minimum and no hard-fail reason was recorded. When sections
    and assumptions pass and the validated script check fails, the only
    reason is [preferred_script_numeric_mismatch] and the case fails,
    whatever its score. *)
Theorem C3_pass_is_score_and_no_hard_fail
    (case : Case) (template : Template) (response : text)
    (min_score : Q) (allow : bool) (w : world) :
  match score_case py case template (Some response) min_score allow w with
  | Raised e => case_raises py w case e
  | Ok r =>
    ∃ l, case_locals py case template response w = Ok l
       ∧ cr_score r = round4 (weighted_score (metric_scores l))
       ∧ cr_passed r = Qle_bool min_score (weighted_score (metric_scores l))
                       && is_empty (cr_hard_fail_reasons r)
       ∧ (sections_pass l = true → assumptions_pass l = true →
          is_Some (script_declared case) → is_Some (script_validation case) →
          bool_of (script_pass l) = false →
          cr_hard_fail_reasons r = [u "preferred_script_numeric_mismatch"]
          ∧ cr_passed r = false)
  end.
Proof.
  destruct (score_case py case template (Some response) min_score allow w) as [r|e] eqn:E.
  - apply score_case_ok_inv in E as (l & Hl & ->). exists l. simpl.
    split; [done|]. split; [done|]. split; [done|].
    intros Hs Ha [s Hd] [v Hv] Hp. unfold hard_fail_reasons.
    rewrite Hs, Ha, Hd, Hv, Hp. simpl. split; [done|]. apply andb_false_r.
  - by eapply score_case_raised_inv.
Qed.

(** C9. With a response, [score_case] either passes on what its numeric
    validation raises or returns a result in which every check over an empty
    requirement list scores 1.0 and passes; a ratio whose denominator is
    zero or negative is 1.0. *)
Theorem C9_empty_requirements_score_one
    (case : Case) (template : Template) (response : text)
    (min_score : Q) (allow : bool) (w : world) :
  (∀ (n : Q) (d : Z), d <= 0 → _safe_ratio n d = 1%Q)
  ∧ match score_case py case template (Some response) min_score allow w with
    | Raised e => case_raises py w case e
    | Ok r =>
      (required_sections template = [] →
       ∃ ck, find_check (u "sections") r = Some ck
           ∧ (ck_score ck == 1)%Q ∧ ck_passed ck = true)
      ∧ (required_keywords case = [] →
         ∃ ck, find_check (u "keywords") r = Some ck
             ∧ (ck_score ck == 1)%Q ∧ ck_passed ck = true)
      ∧ (required_references case = [] →
         ∃ ck, find_check (u "references") r = Some ck
             ∧ (ck_score ck == 1)%Q ∧ ck_passed ck = true)
      ∧ (required_traits template = [] →
         ∃ ck, find_check (u "traits") r = Some ck
             ∧ (ck_score ck == 1)%Q ∧ ck_passed ck = true)
    end.
Proof.
  split; [apply safe_ratio_nonpositive|].
  destruct (score_case py case template (Some response) min_score allow w) as [r|e] eqn:E;
    [|by eapply score_case_raised_inv].
  apply score_case_ok_inv in E as (l & Hl & ->).
  apply case_locals_inv in Hl as (sc & _ & Hms & Hs & Hsp & _ & _ & _ & Hmk & Hk & Hkp
    & Hmr & Hr & Hrp & Ht & Htp & _).
  assert (round4 1 == 1)%Q as Hone by reflexivity.
  unfold find_check, checks_of. cbn [cr_checks app].
  repeat split.
  - intros Hreq. take_check. eexists. split; [reflexivity|]. cbn [ck_score ck_passed].
    rewrite Hs, Hsp, Hms, Hreq. by split.
  - intros Hreq. do 2 skip_check. take_check.
    eexists. split; [reflexivity|]. cbn [ck_score ck_passed].
    rewrite Hk, Hkp, Hmk, Hreq. by split.
  - intros Hreq. do 3 skip_check. take_check.
    eexists. split; [reflexivity|]. cbn [ck_score ck_passed].
    rewrite Hr, Hrp, Hmr, Hreq. by split.
  - intros Hreq. do 4 skip_check. take_check.
    eexists. split; [reflexivity|]. cbn [ck_score ck_passed].
    rewrite Htp. rewrite Hreq in Ht. injection Ht as -> ->. by split.
Qed.

(** C4. Without a response, [score_case] returns score 0.0 and
    [passed=false]; the result is skipped with no hard-fail reason when
    missing responses are tolerated, and otherwise not skipped, with the
    single reason [missing_response]. A skipped result changes neither the
    evaluated cases, nor the number of passed cases, nor the suite score. *)
Theorem C4_missing_response
    (case : Case) (template : Template) (min_score : Q) (allow : bool) (w : world) :
  ∃ r, score_case py case template None min_score allow w = Ok r
     ∧ cr_score r = 0%Q ∧ cr_passed r = false ∧ cr_skipped r = allow
     ∧ cr_hard_fail_reasons r = (if allow then [] else [u "missing_response"])
     ∧ (allow = true → ∀ (before after : list CaseResult) lint checks min_suite,
          evaluated_cases (before ++ r :: after) = evaluated_cases (before ++ after)
          ∧ case_passed (before ++ r :: after) = case_passed (before ++ after)
          ∧ suite_score (before ++ r :: after) = suite_score (before ++ after)
          ∧ cases_passed (summarize lint (before ++ r :: after) checks min_suite)
            = cases_passed (summarize lint (before ++ after) checks min_suite)
          ∧ sm_suite_score (summarize lint (before ++ r :: after) checks min_suite)
            = sm_suite_score (summarize lint (before ++ after) checks min_suite)).
Proof.
  eexists. split; [reflexivity|]. simpl.
  split; [done|]. split; [done|]. split; [done|]. split; [by destruct allow|].
  intros -> before after lint checks min_suite.
  assert (evaluated_cases (before ++ missing_result case true :: after)
          = evaluated_cases (before ++ after)) as Heval.
  { unfold evaluated_cases. by rewrite !filter_app, filter_cons. }
  unfold summarize, case_passed, suite_score. simpl. by rewrite Heval.
Qed.

End CaseClaims.

(** ** The case scorer on the example data *)

Module CaseExamples.
Import AsciiPy Demo.

(** C1 on a case without a script whose five checks all score 1.0. *)
Lemma C1_witness :
  script_declared plain = None
  ∧ ∃ l, case_locals py plain template response (demo_world TimedOut) = Ok l
       ∧ (weighted_score (metric_scores l)
          == (0.35 * sections_score l + 0.10 * assumptions_score l
              + 0.20 * keywords_score l + 0.20 * refs_score l
              + 0.10 * traits_score l) / 0.95)%Q
       ∧ (0 <= weighted_score (metric_scores l) <= 1)%Q
       ∧ ((sections_score l == 1)%Q → (assumptions_score l == 1)%Q →
          (keywords_score l == 1)%Q → (refs_score l == 1)%Q → (traits_score l == 1)%Q →
          (weighted_score (metric_scores l) == 1)%Q)
       ∧ ∀ min_score allow, ∃ r,
           score_case py plain template (Some response) min_score allow (demo_world TimedOut)
           = Ok r
           ∧ cr_score r = round4 (weighted_score (metric_scores l)).
Proof.
  split; [reflexivity|].
  apply (C1_score_divided_by_evaluated_weight py plain template response (demo_world TimedOut)).
  reflexivity.
Defined.

(** The claim C1 as stated fails: the case has a response and no script, its
    five checks score 1.0, and its score is 1.0, above 0.95. *)
Lemma C1_counterexample :
  script_declared plain = None
  ∧ ∃ l r, case_locals py plain template response (demo_world TimedOut) = Ok l
         ∧ score_case py plain template (Some response) DEFAULT_CASE_SCORE false
                      (demo_world TimedOut) = Ok r
         ∧ (sections_score l == 1 ∧ assumptions_score l == 1 ∧ keywords_score l == 1
            ∧ refs_score l == 1 ∧ traits_score l == 1)%Q
         ∧ (weighted_score (metric_scores l) == 1)%Q
         ∧ (cr_score r == 1)%Q
         ∧ ¬ (weighted_score (metric_scores l) <= 0.95)%Q
         ∧ ¬ (cr_score r <= 0.95)%Q.
Proof.
  split; [reflexivity|].
  eexists. eexists.
  split; [vm_compute; reflexivity|].
  split; [vm_compute; reflexivity|].
  cbn [sections_score assumptions_score keywords_score refs_score traits_score cr_score].
  repeat split; try (vm_compute; reflexivity);
    intros H; vm_compute in H; by apply H.
Qed.

(** C3 on a case whose script check alone fails: the score 0.95 reaches the
    minimum 0.80 and the case does not pass. *)
Lemma C3_witness :
  ∃ r l, score_case py scripted template (Some response) DEFAULT_CASE_SCORE false
                    (demo_world prints_13) = Ok r
       ∧ case_locals py scripted template response (demo_world prints_13) = Ok l
       ∧ (weighted_score (metric_scores l) == 0.95)%Q
       ∧ Qle_bool DEFAULT_CASE_SCORE (weighted_score (metric_scores l)) = true
       ∧ cr_hard_fail_reasons r = [u "preferred_script_numeric_mismatch"]
       ∧ cr_passed r = false.
Proof.
  pose proof (C3_pass_is_score_and_no_hard_fail py scripted template response
                DEFAULT_CASE_SCORE false (demo_world prints_13)) as H.
  destruct (score_case py scripted template (Some response) DEFAULT_CASE_SCORE false
              (demo_world prints_13)) as [r|e] eqn:E; [|by vm_compute in E].
  destruct H as (l & Hl & _ & _ & Hfail).
  exists r, l. split; [done|]. split; [done|].
  assert (Ok l = case_locals py scripted template response (demo_world prints_13)) as Hl'
    by done.
  vm_compute in Hl'. injection Hl' as ->.
  split; [by vm_compute|]. split; [by vm_compute|].
  apply Hfail; [reflexivity | reflexivity | by eexists | by eexists | reflexivity].
Defined.

(** C4 on the example case, missing responses tolerated. *)
Lemma C4_witness :
  ∃ r, score_case py scripted template None DEFAULT_CASE_SCORE true (demo_world TimedOut) = Ok r
     ∧ cr_score r = 0%Q ∧ cr_passed r = false ∧ cr_skipped r = true
     ∧ cr_hard_fail_reasons r = []
     ∧ ∀ before after : list CaseResult,
         evaluated_cases (before ++ r :: after) = evaluated_cases (before ++ after)
         ∧ case_passed (before ++ r :: after) = case_passed (before ++ after)
         ∧ suite_score (before ++ r :: after) = suite_score (before ++ after).
Proof.
  destruct (C4_missing_response py scripted template DEFAULT_CASE_SCORE true
              (demo_world TimedOut)) as (r & H1 & H2 & H3 & H4 & H5 & H6).
  exists r. repeat split; try done;
    by destruct (H6 eq_refl before after true script_checks_disabled DEFAULT_SUITE_SCORE)
      as (? & ? & ? & _).
Defined.

(** C9 on a case and a template without requirements: the four checks score
    1.0 and pass. *)
Lemma C9_witness :
  ∃ r, score_case py bare empty_template (Some response) DEFAULT_CASE_SCORE false
                  (demo_world TimedOut) = Ok r
     ∧ ∀ name, name ∈ [u "sections"; u "keywords"; u "references"; u "traits"] →
         ∃ ck, find_check name r = Some ck ∧ (ck_score ck == 1)%Q ∧ ck_passed ck = true.
Proof.
  pose proof (C9_empty_requirements_score_one py bare empty_template response
                DEFAULT_CASE_SCORE false (demo_world TimedOut)) as [_ H].
  destruct (score_case py bare empty_template (Some response) DEFAULT_CASE_SCORE false
              (demo_world TimedOut)) as [r|e] eqn:E; [|by vm_compute in E].
  exists r. split; [done|]. destruct H as (Hs & Hk & Hr & Ht).
  intros name Hname. repeat (apply elem_of_cons in Hname as [->|Hname]); auto.
  by apply elem_of_nil in Hname.
Defined.

End CaseExamples.

(** ** External runs: exit status and timeout *)

Section Runs.
Variable py : builtins.

Lemma mapM_raised {A B : Type} (f : A → outcome B) (l : list A) (x : A) (e : exn) :
  x ∈ l → f x = Raised e → ∃ e', mapM f l = Raised e'.
Proof.
  induction l as [|a l IH]; intros Hin Hx; [by apply elem_of_nil in Hin|].
  simpl. destruct (f a) as [b|e0] eqn:Ea; simpl; [|eauto].
  apply elem_of_cons in Hin as [->|Hin]; [congruence|].
  destruct (IH Hin Hx) as [e' ->]. simpl. eauto.
Qed.

Lemma mapM_ok {A B : Type} (f : A → outcome B) (l : list A) :
  (∀ x, x ∈ l → ∃ y, f x = Ok y) →
  ∃ ys, mapM f l = Ok ys ∧ ∀ x, x ∈ l → ∃ y, f x = Ok y ∧ y ∈ ys.
Proof.
  induction l as [|a l IH]; intros Hall.
  - exists []. split; [done|]. intros x Hx. by apply elem_of_nil in Hx.
  - destruct (Hall a) as [b Hb]; [by left|].
    destruct IH as (ys & Hys & Hmem); [intros x Hx; apply Hall; by right|].
    exists (b :: ys). split; [simpl; rewrite Hb; simpl; by rewrite Hys|].
    intros x Hx. apply elem_of_cons in Hx as [->|Hx].
    + exists b. split; [done|by left].
    + destruct (Hmem x Hx) as (y & Hy & Hin). exists y. split; [done|by right].
Qed.

Lemma mapM_raised_from {A B : Type} (f : A → outcome B) (l : list A) (e : exn) :
  mapM f l = Raised e → ∃ x, x ∈ l ∧ f x = Raised e.
Proof.
  induction l as [|a l IH]; [done|]. simpl.
  destruct (f a) as [b|e0] eqn:Ea; simpl.
  - destruct (mapM f l) as [bs|e1]; simpl; [done|]. intros [= ->].
    destruct IH as (x & Hx & Hfx); [done|]. exists x. split; [by right|done].
  - intros [= ->]. exists a. split; [by left|done].
Qed.

Lemma health_check_raised_inv (w : world) (script : text) (e : exn) :
  health_check py w script = Raised e → e = TimeoutExpired (health_cmd w script) 30.
Proof.
  unfold health_check, health_cmd. intros H.
  repeat (case_match; try discriminate). by injection H as <-.
Qed.

(** What [health_check] does with a script that exists. *)
Lemma health_check_run (w : world) (script : text) :
  path_exists w (script_path w script) = true →
  match subprocess_run w (health_cmd w script) with
  | TimedOut =>
    health_check py w script = Raised (TimeoutExpired (health_cmd w script) 30)
  | Completed returncode stdout stderr =>
    ∃ res, health_check py w script = Ok res
         ∧ sr_script res = script
         ∧ (returncode ≠ 0 →
            sr_passed res = false
            ∧ sr_details res = u "exit=" ++ str_of_Z returncode ++ u ": " ++ strip stderr)
  end.
Proof.
  intros Hex. unfold health_check, health_cmd. rewrite Hex. simpl negb. cbv iota.
  destruct (subprocess_run w _) as [rc out err|]; [|done].
  destruct (rc =? 0) eqn:Erc; simpl negb; cbv iota.
  - apply Z.eqb_eq in Erc.
    destruct (strip out) as [|c out'] eqn:Eout; [by eexists|].
    destruct (json_loads py (c :: out')); by eexists.
  - by eexists.
Qed.

Lemma health_check_missing (w : world) (script : text) :
  path_exists w (script_path w script) = false →
  ∃ res, health_check py w script = Ok res ∧ sr_script res = script.
Proof. intros Hex. unfold health_check. rewrite Hex. by eexists. Qed.

(** C2, as amended. A run that ends with a non-zero exit status gives a
    failed check (score 0.0, not passed, the status and the standard error
    in the details) in [evaluate_script_numeric_checks] and a failed entry
    in [execute_preferred_scripts]. A run that times out is not converted:
    [TimeoutExpired] leaves [evaluate_script_numeric_checks], [score_case]
    and [execute_preferred_scripts]. *)
Theorem C2_exit_status_converted_timeout_raised (w : world) :
  (∀ (response script input_rel : text) (validation : list (text * json))
     (rule0 : json) (rules : list json),
     path_exists w (script_path w script) = true →
     dict_get (u "input") validation = Some (JStr input_rel) →
     strip input_rel ≠ [] →
     path_exists w (input_path w input_rel) = true →
     dict_get (u "extract") validation = Some (JList (rule0 :: rules)) →
     match subprocess_run w (numeric_cmd w script input_rel) with
     | TimedOut =>
       evaluate_script_numeric_checks py response script validation w
       = Raised (TimeoutExpired (numeric_cmd w script input_rel) 30)
       ∧ ∀ case template min_score allow,
           script_declared case = Some script →
           script_validation case = Some (JDict validation) →
           score_case py case template (Some response) min_score allow w
           = Raised (TimeoutExpired (numeric_cmd w script input_rel) 30)
     | Completed returncode stdout stderr =>
       returncode ≠ 0 →
       evaluate_script_numeric_checks py response script validation w
       = Ok (0%Q, false,
             u "script_exit_" ++ str_of_Z returncode ++ u ": " ++ strip stderr)
     end)
  ∧ (∀ (cases : list Case),
       (∀ script, script ∈ preferred_scripts cases →
                  path_exists w (script_path w script) = true →
                  subprocess_run w (health_cmd w script) ≠ TimedOut) →
       ∃ checks, execute_preferred_scripts py cases w = Ok checks
         ∧ ∀ script returncode stdout stderr,
             script ∈ preferred_scripts cases →
             path_exists w (script_path w script) = true →
             subprocess_run w (health_cmd w script)
             = Completed returncode stdout stderr →
             returncode ≠ 0 →
             ∃ res, res ∈ sc_results checks ∧ sr_script res = script
                  ∧ sr_passed res = false
                  ∧ sr_details res
                    = u "exit=" ++ str_of_Z returncode ++ u ": " ++ strip stderr)
  ∧ (∀ (cases : list Case) (script : text),
       script ∈ preferred_scripts cases →
       path_exists w (script_path w script) = true →
       subprocess_run w (health_cmd w script) = TimedOut →
       ∃ cmd, execute_preferred_scripts py cases w = Raised (TimeoutExpired cmd 30)).
Proof.
  split; [|split].
  - intros response script input_rel validation rule0 rules Hs Hin Hne Hi Hex.
    unfold evaluate_script_numeric_checks, numeric_cmd.
    rewrite Hs, Hin. simpl negb. cbv iota.
    destruct (strip input_rel) as [|c0 rel'] eqn:Erel; [done|].
    rewrite Hi, Hex. simpl negb. cbv iota.
    destruct (subprocess_run w _) as [rc out err|] eqn:Erun.
    + intros Hrc. by rewrite (proj2 (Z.eqb_neq rc 0) Hrc).
    + split; [done|]. intros case template min_score allow Hd Hv.
      unfold score_case, case_locals.
      destruct (check_traits py response (required_traits template)).
      unfold script_check. rewrite Hd, Hv.
      unfold evaluate_script_numeric_checks.
      rewrite Hs, Hin. simpl negb. cbv iota. rewrite Erel, Hi, Hex. simpl negb. cbv iota.
      by rewrite Erun.
  - intros cases Hno.
    destruct (mapM_ok (health_check py w) (preferred_scripts cases)) as (rs & Hrs & Hmem).
    { intros script Hin.
      destruct (path_exists w (script_path w script)) eqn:Hex.
      - pose proof (health_check_run w script Hex) as Hrun.
        destruct (subprocess_run w (health_cmd w script)) eqn:Erun.
        + destruct Hrun as (res & -> & _). eauto.
        + by destruct (Hno script Hin Hex).
      - destruct (health_check_missing w script Hex) as (res & -> & _). eauto. }
    eexists. split; [unfold execute_preferred_scripts; rewrite Hrs; reflexivity|].
    cbn [sc_results].
    intros script rc out err Hin Hex Hrun Hrc.
    destruct (Hmem script Hin) as (res & Hres & Hres_in).
    pose proof (health_check_run w script Hex) as Hspec. rewrite Hrun in Hspec.
    destruct Hspec as (res' & Hres' & Hname & Hfail).
    rewrite Hres in Hres'. injection Hres' as <-.
    exists res. destruct (Hfail Hrc) as [-> ->]. by repeat split.
  - intros cases script Hin Hex Hrun.
    pose proof (health_check_run w script Hex) as Hspec. rewrite Hrun in Hspec.
    destruct (mapM_raised (health_check py w) _ script _ Hin Hspec) as [e He].
    unfold execute_preferred_scripts. rewrite He.
    apply mapM_raised_from in He as (script' & _ & He).
    apply health_check_raised_inv in He as ->. eauto.
Qed.

End Runs.

Module RunExamples.
Import AsciiPy Demo.

(** The claim C2 as stated fails on a run that times out: the exception
    leaves [evaluate_script_numeric_checks], [score_case], [score_cases] and
    [execute_preferred_scripts]; no failed check is produced. *)
Lemma C2_counterexample :
  subprocess_run (demo_world TimedOut) (numeric_cmd (demo_world TimedOut) (u "ttk.py")
                                                    (u "fixtures/ttk.json")) = TimedOut
  ∧ evaluate_script_numeric_checks py response (u "ttk.py") validation (demo_world TimedOut)
    = Raised (TimeoutExpired (numeric_cmd (demo_world TimedOut) (u "ttk.py")
                                          (u "fixtures/ttk.json")) 30)
  ∧ score_case py scripted template (Some response) DEFAULT_CASE_SCORE false
               (demo_world TimedOut)
    = Raised (TimeoutExpired (numeric_cmd (demo_world TimedOut) (u "ttk.py")
                                          (u "fixtures/ttk.json")) 30)
  ∧ execute_preferred_scripts py [scripted] (demo_world TimedOut)
    = Raised (TimeoutExpired (health_cmd (demo_world TimedOut) (u "ttk.py")) 30).
Proof. repeat split; vm_compute; reflexivity. Qed.

(** C2 on a run that exits with status 1, and on one that times out. *)
Lemma C2_witness :
  evaluate_script_numeric_checks py response (u "ttk.py") validation (demo_world exits_1)
  = Ok (0%Q, false, u "script_exit_1: boom")
  ∧ (∃ checks, execute_preferred_scripts py [scripted] (demo_world exits_1) = Ok checks
       ∧ ∃ res, res ∈ sc_results checks ∧ sr_script res = u "ttk.py"
              ∧ sr_passed res = false ∧ sr_details res = u "exit=1: boom")
  ∧ (∃ cmd, execute_preferred_scripts py [scripted] (demo_world TimedOut)
            = Raised (TimeoutExpired cmd 30))
  ∧ score_case py scripted template (Some response) DEFAULT_CASE_SCORE false
               (demo_world TimedOut)
    = Raised (TimeoutExpired (numeric_cmd (demo_world TimedOut) (u "ttk.py")
                                          (u "fixtures/ttk.json")) 30).
Proof.
  destruct (C2_exit_status_converted_timeout_raised py (demo_world exits_1))
    as (Hexit & Hbatch & _).
  destruct (C2_exit_status_converted_timeout_raised py (demo_world TimedOut))
    as (Hrun & _ & Htimeout).
  split; [|split; [|split]]; cycle 3.
  { assert (strip (u "fixtures/ttk.json") ≠ []) as Hne by (by vm_compute).
    pose proof (Hrun response (u "ttk.py") (u "fixtures/ttk.json") validation (JDict rule) []
                  eq_refl eq_refl Hne eq_refl eq_refl) as [_ Hcase].
    by apply Hcase. }
  - apply (Hexit response (u "ttk.py") (u "fixtures/ttk.json") validation (JDict rule) []);
      try reflexivity; by vm_compute.
  - destruct (Hbatch [scripted]) as (checks & Hok & Hres); [done|].
    exists checks. split; [done|].
    destruct (Hres (u "ttk.py") 1 [] (u " boom ")) as (res & Hin & Hn & Hp & Hd);
      try done; [vm_compute; by left|].
    exists res. by repeat split.
  - apply (Htimeout [scripted] (u "ttk.py")); [vm_compute; by left|done|done].
Defined.

End RunExamples.

(** ** Float comparisons *)

Ltac float_facts :=
  repeat match goal with
         | H : Qle_bool _ _ = true |- _ => apply Qle_bool_iff in H
         | H : Qle_bool _ _ = false |- _ => apply Qle_bool_false in H
         | H : negb _ = true |- _ => apply negb_true_iff in H
         | H : negb _ = false |- _ => apply negb_false_iff in H
         | H : (_ ?= _)%Q = Eq |- _ => apply Qeq_alt in H
         | H : (_ ?= _)%Q = Lt |- _ => apply Qlt_alt in H
         | H : (_ ?= _)%Q = Gt |- _ => apply Qgt_alt in H
         end.

Ltac float_goal :=
  repeat match goal with
         | |- Qle_bool _ _ = true => apply Qle_bool_iff
         | |- Qle_bool _ _ = false => apply Qle_bool_false
         | |- negb _ = true => apply negb_true_iff
         | |- negb _ = false => apply negb_false_iff
         end.

Lemma float_le_trans (a b c : pyfloat) :
  Float.le a b = true → Float.le b c = true → Float.le a c = true.
Proof.
  destruct a as [x| | |], b as [y| | |], c as [z| | |]; simpl; try done.
  intros H1 H2. float_facts. float_goal. lra.
Qed.

Lemma float_le_refl_nonneg (a : pyfloat) :
  Float.le (Finite 0) a = true → Float.le a a = true.
Proof. destruct a as [x| | |]; simpl; try done. intros _. float_goal. lra. Qed.

(** [max] is monotone where both pairs are comparable. *)
Lemma float_max_mono (a1 b1 a2 b2 : pyfloat) :
  Float.le a1 a2 = true → Float.le b1 b2 = true →
  Float.le (Float.max a1 b1) (Float.max a2 b2) = true.
Proof.
  unfold Float.max.
  destruct a1 as [x1| | |], a2 as [x2| | |], b1 as [y1| | |], b2 as [y2| | |]; simpl;
    try done; intros H1 H2;
    repeat match goal with
           | |- context [Qle_bool ?p ?q] => destruct (Qle_bool p q) eqn:?; simpl
           end;
    try done; float_facts; float_goal; lra.
Qed.

Lemma float_max_ge_first (a b : pyfloat) :
  Float.le (Finite 0) a = true → Float.le a (Float.max a b) = true.
Proof.
  unfold Float.max.
  destruct a as [x| | |], b as [y| | |]; simpl; try done; intros H;
    repeat match goal with
           | |- context [Qle_bool ?p ?q] => destruct (Qle_bool p q) eqn:?; simpl
           end;
    try done; float_facts; float_goal; lra.
Qed.

Lemma float_max_nan_to_zero (a p : pyfloat) :
  Float.le (Finite 0) a = true → Float.max a p = Float.max a (nan_to_zero p).
Proof.
  unfold Float.max. destruct a as [x| | |], p as [y| | |]; simpl; try done.
  intros H. destruct (Qle_bool 0 x) eqn:E; [done|]. congruence.
Qed.

Lemma float_abs_nonneg (e : pyfloat) :
  Float.abs e = NaN ∨ Float.le (Finite 0) (Float.abs e) = true.
Proof.
  destruct e as [q| | |]; simpl; [right|by right|by right|by left].
  apply Qle_bool_iff, Qabs_nonneg.
Qed.

(** The product with a magnitude grows with the other factor, NaN counting
    as 0. *)
Lemma float_mul_mono (a r1 r2 : pyfloat) :
  a = NaN ∨ Float.le (Finite 0) a = true →
  Float.le (Finite 0) r1 = true → Float.le r1 r2 = true →
  Float.le (nan_to_zero (Float.mul a r1)) (nan_to_zero (Float.mul a r2)) = true.
Proof.
  intros [->|Ha]; [by destruct r1, r2|].
  destruct a as [x| | |], r1 as [y1| | |], r2 as [y2| | |]; simpl in *; try done;
    intros H1 H2; unfold Float.signed_inf;
    repeat match goal with
           | |- context [(?p ?= ?q)%Q] => destruct (p ?= q)%Q eqn:?; simpl
           end;
    try done; float_facts; float_goal; try lra; try nra.
Qed.

(** ** Tolerance matching *)

Section Tolerance.
Variable py : builtins.

Lemma rule_atol_nonneg (rule : list (text * json)) (atol : pyfloat) :
  rule_atol py rule = Ok atol → Float.le (Finite 0) atol = true.
Proof.
  unfold rule_atol. destruct (_to_float py _ _) as [a|e]; [|discriminate].
  intros [= <-]. by apply float_max_ge_first.
Qed.

Lemma rule_rtol_nonneg (rule : list (text * json)) (rtol : pyfloat) :
  rule_rtol py rule = Ok rtol → Float.le (Finite 0) rtol = true.
Proof.
  unfold rule_rtol. destruct (_to_float py _ _) as [r|e]; [|discriminate].
  intros [= <-]. by apply float_max_ge_first.
Qed.

Lemma rule_tol_ok_inv (rule : list (text * json)) (expected tol : pyfloat) :
  rule_tol py rule expected = Ok tol →
  ∃ atol rtol,
    rule_atol py rule = Ok atol ∧ rule_rtol py rule = Ok rtol
    ∧ tol = Float.max atol (Float.mul (Float.abs expected) rtol).
Proof.
  unfold rule_tol.
  destruct (rule_atol py rule) as [atol|e1]; [|discriminate].
  destruct (rule_rtol py rule) as [rtol|e2]; [|discriminate].
  intros [= <-]. by exists atol, rtol.
Qed.

Lemma rule_tol_nonneg (rule : list (text * json)) (expected tol : pyfloat) :
  rule_tol py rule expected = Ok tol → Float.le (Finite 0) tol = true.
Proof.
  intros (atol & rtol & Ha & _ & ->)%rule_tol_ok_inv.
  apply rule_atol_nonneg in Ha.
  eapply float_le_trans; [exact Ha|]. by apply float_max_ge_first.
Qed.

Lemma rule_hit_spec (tol expected : pyfloat) (nums : list pyfloat) :
  rule_hit tol expected nums = true
  ↔ ∃ v, v ∈ nums ∧ Float.le (Float.abs (Float.sub v expected)) tol = true.
Proof.
  unfold rule_hit. rewrite existsb_exists. split.
  - intros (v & Hin & Hle). exists v. split; [by apply list_elem_of_In|done].
  - intros (v & Hin & Hle). exists v. split; [by apply list_elem_of_In|done].
Qed.

Lemma rule_hit_equal (tol : pyfloat) (e : Q) (nums : list pyfloat) :
  Float.le (Finite 0) tol = true →
  (∃ v, v ∈ nums ∧ Float.eq v (Finite e) = true) →
  rule_hit tol (Finite e) nums = true.
Proof.
  intros Htol (v & Hin & Heq). apply rule_hit_spec. exists v. split; [done|].
  destruct v as [q| | |]; simpl in Heq; try done. apply Qeq_bool_iff in Heq.
  eapply float_le_trans; [|exact Htol]. simpl. apply Qle_bool_iff.
  assert (Qabs (q - e) == 0)%Q as ->; [|apply Qle_refl].
  rewrite Heq. unfold Qminus. rewrite Qplus_opp_r. reflexivity.
Qed.

(** The difference of an infinity and itself is NaN, which lies within no
    tolerance. *)
Lemma rule_hit_infinite (tol expected : pyfloat) (nums : list pyfloat) :
  infinite expected = true →
  (∀ v, v ∈ nums → Float.eq v expected = true) →
  rule_hit tol expected nums = false.
Proof.
  intros Hinf Hall. destruct (rule_hit tol expected nums) eqn:E; [|done].
  apply rule_hit_spec in E as (v & Hin & Hle). apply Hall in Hin.
  by destruct expected, v.
Qed.

Lemma rule_tol_mono (rule1 rule2 : list (text * json)) (a1 a2 r1 r2 expected : pyfloat) :
  _to_float py (dict_get (u "atol") rule1) (Finite 0) = Ok a1 →
  _to_float py (dict_get (u "atol") rule2) (Finite 0) = Ok a2 →
  _to_float py (dict_get (u "rtol") rule1) (Finite 0.02) = Ok r1 →
  _to_float py (dict_get (u "rtol") rule2) (Finite 0.02) = Ok r2 →
  Float.le a1 a2 = true → Float.le r1 r2 = true →
  ∃ tol1 tol2,
    rule_tol py rule1 expected = Ok tol1 ∧ rule_tol py rule2 expected = Ok tol2
    ∧ Float.le tol1 tol2 = true.
Proof.
  intros Ea1 Ea2 Er1 Er2 Ha Hr. unfold rule_tol, rule_atol, rule_rtol.
  rewrite Ea1, Ea2, Er1, Er2. cbn [mbind outcome_bind].
  eexists _, _. split; [reflexivity|]. split; [reflexivity|].
  assert (∀ a, Float.le (Finite 0) (Float.max (Finite 0) a) = true) as Hnonneg
    by (intros a; by apply float_max_ge_first).
  rewrite (float_max_nan_to_zero (Float.max (Finite 0) a1)) by apply Hnonneg.
  rewrite (float_max_nan_to_zero (Float.max (Finite 0) a2)) by apply Hnonneg.
  apply float_max_mono.
  - by apply float_max_mono.
  - apply float_mul_mono; [apply float_abs_nonneg|apply Hnonneg|].
    by apply float_max_mono.
Qed.

(** When [judge_rule] counts a rule as matched. *)
Lemma judge_rule_matched (payload : json) (nums : list pyfloat) (idx : nat)
    (rule : list (text * json)) :
  judge_rule py payload nums idx (JDict rule) = Ok Matched
  ↔ ∃ path found expected tol,
      rule_path rule = Some (JStr path) ∧ strip path ≠ []
      ∧ _value_at_path py payload path = Some found
      ∧ py_float py found = Ok (Some expected)
      ∧ rule_tol py rule expected = Ok tol
      ∧ rule_hit tol expected nums = true.
Proof.
  unfold judge_rule. split.
  - destruct (rule_path rule) as [[| | | |path| |]|]; try discriminate.
    destruct (strip path) eqn:Es; [discriminate|].
    destruct (_value_at_path py payload path) as [found|] eqn:Ef; [|discriminate].
    destruct (py_float py found) as [[expected|]|e] eqn:Ee; try discriminate.
    cbn [mbind outcome_bind].
    destruct (rule_tol py rule expected) as [tol|e] eqn:Et; [|discriminate].
    cbn [mbind outcome_bind].
    destruct (rule_hit tol expected nums) eqn:Eh; [|discriminate].
    intros _. exists path, found, expected, tol.
    split; [reflexivity|]. split; [by rewrite Es|]. by repeat split.
  - intros (path & found & expected & tol & -> & Hne & -> & He & Ht & Hh).
    destruct (strip path); [done|]. rewrite He. cbn [mbind outcome_bind].
    rewrite Ht. cbn [mbind outcome_bind]. by rewrite Hh.
Qed.

(** C5, as amended. The tolerance of a rule, whenever it is computed, is
    never negative, whatever its [atol] and [rtol]; it is not computed, and
    OverflowError is raised, exactly when [atol] or [rtol] is an integer
    beyond the range of a float. So a rule whose expected value is finite and
    occurs among the numbers of the response is counted as matched, unless
    that error is raised. For an infinite expected value, numbers equal to it
    do not make the rule match. *)
Theorem C5_finite_expected_value_matches
    (rule : list (text * json)) (e : Q) (nums : list pyfloat) :
  (∃ v, v ∈ nums ∧ Float.eq v (Finite e) = true) →
  match rule_atol py rule with
  | Ok atol => Float.le (Finite 0) atol = true
  | Raised exc => exc = OverflowError ∧ huge (dict_get (u "atol") rule)
  end
  ∧ match rule_rtol py rule with
    | Ok rtol => Float.le (Finite 0) rtol = true
    | Raised exc => exc = OverflowError ∧ huge (dict_get (u "rtol") rule)
    end
  ∧ (∀ expected,
       match rule_tol py rule expected with
       | Ok tol => Float.le (Finite 0) tol = true
       | Raised exc => exc = OverflowError
       end
       ∧ (rule_tol py rule expected = Raised OverflowError
          ↔ huge (dict_get (u "atol") rule) ∨ huge (dict_get (u "rtol") rule)))
  ∧ (∀ tol, rule_tol py rule (Finite e) = Ok tol → rule_hit tol (Finite e) nums = true)
  ∧ (∀ payload idx path found,
       rule_path rule = Some (JStr path) → strip path ≠ [] →
       _value_at_path py payload path = Some found →
       py_float py found = Ok (Some (Finite e)) →
       match judge_rule py payload nums idx (JDict rule) with
       | Ok verdict => verdict = Matched
       | Raised exc =>
         exc = OverflowError
         ∧ (huge (dict_get (u "atol") rule) ∨ huge (dict_get (u "rtol") rule))
       end)
  ∧ (∀ payload idx path found expected equal,
       rule_path rule = Some (JStr path) → strip path ≠ [] →
       _value_at_path py payload path = Some found →
       py_float py found = Ok (Some expected) →
       infinite expected = true →
       (∀ v, v ∈ equal → Float.eq v expected = true) →
       judge_rule py payload equal idx (JDict rule) ≠ Ok Matched).
Proof.
  intros Hv. repeat apply conj.
  - destruct (rule_atol py rule) as [atol|exc] eqn:Ea; [by eapply rule_atol_nonneg|].
    unfold rule_atol in Ea.
    destruct (_to_float py _ _) as [a|e1] eqn:Et; [discriminate|].
    injection Ea as <-. by eapply to_float_raised_inv.
  - destruct (rule_rtol py rule) as [rtol|exc] eqn:Er; [by eapply rule_rtol_nonneg|].
    unfold rule_rtol in Er.
    destruct (_to_float py _ _) as [r|e1] eqn:Et; [discriminate|].
    injection Er as <-. by eapply to_float_raised_inv.
  - intros expected. split.
    + destruct (rule_tol py rule expected) as [tol|exc] eqn:Et.
      * by eapply rule_tol_nonneg.
      * by apply rule_tol_raised_inv in Et as [-> _].
    + split.
      * by intros [_ H]%rule_tol_raised_inv.
      * apply rule_tol_huge.
  - intros tol Ht. apply rule_hit_equal; [by eapply rule_tol_nonneg|done].
  - intros payload idx path found Hp Hne Hf He.
    destruct (rule_tol py rule (Finite e)) as [tol|exc] eqn:Et.
    + assert (judge_rule py payload nums idx (JDict rule) = Ok Matched) as ->; [|done].
      apply judge_rule_matched. exists path, found, (Finite e), tol.
      repeat split; try done. apply rule_hit_equal; [by eapply rule_tol_nonneg|done].
    + unfold judge_rule. rewrite Hp.
      destruct (strip path); [done|]. rewrite Hf, He. cbn [mbind outcome_bind].
      rewrite Et. cbn [mbind outcome_bind]. by eapply rule_tol_raised_inv.
  - intros payload idx path found expected equal Hp Hne Hf He Hinf Hall.
    intros (path' & found' & expected' & tol & Hp' & _ & Hf' & He' & _ & Hh)%judge_rule_matched.
    rewrite Hp in Hp'. injection Hp' as <-. rewrite Hf in Hf'. injection Hf' as <-.
    rewrite He in He'. injection He' as <-.
    by rewrite rule_hit_infinite in Hh.
Qed.

(** C6, as amended. Between two rules that differ in [atol] and [rtol] only,
    both converted by [float], the one with the larger values has the larger
    tolerance and matches whenever the other one does. *)
Theorem C6_raising_tolerances_keeps_match
    (rule1 rule2 : list (text * json)) (a1 a2 r1 r2 : pyfloat)
    (expected : pyfloat) (nums : list pyfloat) :
  _to_float py (dict_get (u "atol") rule1) (Finite 0) = Ok a1 →
  _to_float py (dict_get (u "atol") rule2) (Finite 0) = Ok a2 →
  _to_float py (dict_get (u "rtol") rule1) (Finite 0.02) = Ok r1 →
  _to_float py (dict_get (u "rtol") rule2) (Finite 0.02) = Ok r2 →
  Float.le a1 a2 = true → Float.le r1 r2 = true →
  (∃ tol1 tol2,
     rule_tol py rule1 expected = Ok tol1 ∧ rule_tol py rule2 expected = Ok tol2
     ∧ Float.le tol1 tol2 = true
     ∧ (rule_hit tol1 expected nums = true → rule_hit tol2 expected nums = true))
  ∧ ∀ payload idx,
      rule_path rule1 = rule_path rule2 →
      judge_rule py payload nums idx (JDict rule1) = Ok Matched →
      judge_rule py payload nums idx (JDict rule2) = Ok Matched.
Proof.
  intros Ea1 Ea2 Er1 Er2 Ha Hr.
  assert (∀ e tol1 tol2, Float.le tol1 tol2 = true →
            rule_hit tol1 e nums = true → rule_hit tol2 e nums = true) as Hhit.
  { intros e tol1 tol2 Hle. rewrite !rule_hit_spec. intros (v & Hin & Hv).
    exists v. split; [done|]. by eapply float_le_trans. }
  split.
  - destruct (rule_tol_mono rule1 rule2 a1 a2 r1 r2 expected)
      as (tol1 & tol2 & H1 & H2 & Hle); try done.
    exists tol1, tol2. repeat split; try done. by apply Hhit.
  - intros payload idx Hpath. rewrite !judge_rule_matched.
    intros (path & found & e & tol1 & Hp & Hne & Hf & He & Ht & Hh).
    destruct (rule_tol_mono rule1 rule2 a1 a2 r1 r2 e)
      as (tol1' & tol2 & H1 & H2 & Hle); try done.
    rewrite Ht in H1. injection H1 as <-.
    exists path, found, e, tol2. rewrite <- Hpath. repeat split; try done.
    by eapply Hhit.
Qed.

End Tolerance.

Module ToleranceExamples.
Import AsciiPy Demo.

(** The scenario of the specification: expected 12.0 with [rtol] 0.02 gives
    the tolerance 0.24, and 12.1 in the response matches. *)
Example ttk_scenario :
  (∃ tol, rule_tol py rule (Finite 12) = Ok tol ∧ Float.eq tol (Finite 0.24) = true)
  ∧ _extract_numbers py (u "TTK is about 12.1s") = [Finite 12.1]
  ∧ judge_rule py (JDict [(u "ttk", JFloat (Finite 12))])
               (_extract_numbers py (u "TTK is about 12.1s")) 1 (JDict rule) = Ok Matched.
Proof.
  split; [eexists; split; [vm_compute; reflexivity|reflexivity]|].
  split; vm_compute; reflexivity.
Qed.

(** C5 as stated fails in two ways. When the expected value is an infinity:
    the script prints 1e999, the response quotes 1e999, both are read as
    [inf], equal to each other, and the rule is not matched, since
    [inf - inf] is NaN. And when [atol] is an integer beyond the range of a
    float: the script prints 12.0, the response quotes 12.0, and no
    tolerance is computed, the conversion of [atol] raising OverflowError. *)
Lemma C5_counterexample :
  (json_loads py (ttk_prefix ++ u "1e999}") = inr (JDict [(u "ttk", JFloat PosInf)])
   ∧ _extract_numbers py response_huge = [PosInf]
   ∧ (∃ v, v ∈ _extract_numbers py response_huge ∧ Float.eq v PosInf = true)
   ∧ Float.sub PosInf PosInf = NaN
   ∧ rule_tol py rule PosInf = Ok PosInf
   ∧ rule_hit PosInf PosInf (_extract_numbers py response_huge) = false
   ∧ judge_rule py (JDict [(u "ttk", JFloat PosInf)]) (_extract_numbers py response_huge)
                1 (JDict rule) ≠ Ok Matched
   ∧ ∃ details,
       evaluate_script_numeric_checks py response_huge (u "ttk.py") validation
                                      (demo_world prints_huge)
       = Ok (0%Q, false, details))
  ∧ (float_overflows (10 ^ 400) = true
     ∧ (∃ v, v ∈ [Finite 12] ∧ Float.eq v (Finite 12) = true)
     ∧ rule_tol py (rule_with (JInt (10 ^ 400)) (JInt 0)) (Finite 12)
       = Raised OverflowError
     ∧ judge_rule py (JDict [(u "ttk", JFloat (Finite 12))]) [Finite 12] 1
                  (JDict (rule_with (JInt (10 ^ 400)) (JInt 0)))
       = Raised OverflowError).
Proof.
  assert (_extract_numbers py response_huge = [PosInf]) as Hnums by (vm_compute; reflexivity).
  split.
  - split; [vm_compute; reflexivity|]. split; [exact Hnums|]. rewrite Hnums.
    split; [exists PosInf; split; [by left|reflexivity]|].
    split; [reflexivity|]. split; [vm_compute; reflexivity|].
    split; [vm_compute; reflexivity|].
    split; [intros H; vm_compute in H; discriminate H|].
    eexists. vm_compute. reflexivity.
  - split; [vm_compute; reflexivity|].
    split; [exists (Finite 12); split; [by left|reflexivity]|].
    split; vm_compute; reflexivity.
Qed.

(** C5 with a negative [atol] and a zero [rtol]: the tolerance is 0 and the
    expected value itself still matches. *)
Lemma C5_witness :
  (∃ v, v ∈ [Finite 3; Finite 12] ∧ Float.eq v (Finite 12) = true)
  ∧ rule_tol py (rule_with (JFloat (Finite (-1))) (JInt 0)) (Finite 12) = Ok (Finite 0)
  ∧ judge_rule py (JDict [(u "ttk", JFloat (Finite 12))]) [Finite 3; Finite 12] 1
      (JDict (rule_with (JFloat (Finite (-1))) (JInt 0)))
    = Ok Matched.
Proof.
  assert (∃ v, v ∈ [Finite 3; Finite 12] ∧ Float.eq v (Finite 12) = true) as Hv.
  { exists (Finite 12). split; [by right; left|reflexivity]. }
  split; [exact Hv|]. split; [vm_compute; reflexivity|].
  destruct (C5_finite_expected_value_matches py
              (rule_with (JFloat (Finite (-1))) (JInt 0)) 12 [Finite 3; Finite 12] Hv)
    as (_ & _ & _ & _ & Hjudge & _).
  specialize (Hjudge (JDict [(u "ttk", JFloat (Finite 12))]) 1%nat (u "ttk")
                     (JFloat (Finite 12))).
  destruct (judge_rule py (JDict [(u "ttk", JFloat (Finite 12))]) [Finite 3; Finite 12] 1
              (JDict (rule_with (JFloat (Finite (-1))) (JInt 0)))) as [verdict|exc] eqn:E.
  - f_equal. apply Hjudge; [reflexivity| |reflexivity|reflexivity]. by vm_compute.
  - vm_compute in E. discriminate E.
Defined.

(** C6 as stated fails when a tolerance is raised to an integer beyond the
    range of a float: with [atol] 0 the rule matches 12.1 against 12, with
    [atol] raised to 10^400 its conversion raises OverflowError, and so does
    the numeric check. *)
Lemma C6_counterexample :
  judge_rule py (JDict [(u "ttk", JFloat (Finite 12))]) [Finite 12.1] 1
             (JDict (rule_with (JInt 0) (JFloat (Finite 0.02))))
  = Ok Matched
  ∧ float_overflows (10 ^ 400) = true
  ∧ rule_path (rule_with (JInt 0) (JFloat (Finite 0.02)))
    = rule_path (rule_with (JInt (10 ^ 400)) (JFloat (Finite 0.02)))
  ∧ judge_rule py (JDict [(u "ttk", JFloat (Finite 12))]) [Finite 12.1] 1
               (JDict (rule_with (JInt (10 ^ 400)) (JFloat (Finite 0.02))))
    = Raised OverflowError
  ∧ (∃ details,
       evaluate_script_numeric_checks py response (u "ttk.py")
         [(u "input", JStr (u "fixtures/ttk.json"));
          (u "extract", JList [JDict (rule_with (JInt 0) (JFloat (Finite 0.02)))])]
         (demo_world prints_12)
       = Ok (1%Q, true, details))
  ∧ evaluate_script_numeric_checks py response (u "ttk.py")
      [(u "input", JStr (u "fixtures/ttk.json"));
       (u "extract", JList [JDict (rule_with (JInt (10 ^ 400)) (JFloat (Finite 0.02)))])]
      (demo_world prints_12)
    = Raised OverflowError.
Proof.
  split; [vm_compute; reflexivity|]. split; [vm_compute; reflexivity|].
  split; [reflexivity|]. split; [vm_compute; reflexivity|].
  split; [eexists; vm_compute; reflexivity|vm_compute; reflexivity].
Qed.

(** C6 from [rtol] 0.02 to 0.05 and no [atol] to 0.1: 12.1 keeps matching 12. *)
Lemma C6_witness :
  _to_float py (dict_get (u "atol") rule) (Finite 0) = Ok (Finite 0)
  ∧ _to_float py (dict_get (u "atol")
                    (rule_with (JFloat (Finite 0.1)) (JFloat (Finite 0.05)))) (Finite 0)
    = Ok (Finite 0.1)
  ∧ _to_float py (dict_get (u "rtol") rule) (Finite 0.02) = Ok (Finite 0.02)
  ∧ _to_float py (dict_get (u "rtol")
                    (rule_with (JFloat (Finite 0.1)) (JFloat (Finite 0.05)))) (Finite 0.02)
    = Ok (Finite 0.05)
  ∧ Float.le (Finite 0) (Finite 0.1) = true
  ∧ Float.le (Finite 0.02) (Finite 0.05) = true
  ∧ judge_rule py (JDict [(u "ttk", JFloat (Finite 12))]) [Finite 12.1] 1 (JDict rule)
    = Ok Matched
  ∧ judge_rule py (JDict [(u "ttk", JFloat (Finite 12))]) [Finite 12.1] 1
      (JDict (rule_with (JFloat (Finite 0.1)) (JFloat (Finite 0.05))))
    = Ok Matched.
Proof.
  assert (judge_rule py (JDict [(u "ttk", JFloat (Finite 12))]) [Finite 12.1] 1 (JDict rule)
          = Ok Matched) as Hfirst by (vm_compute; reflexivity).
  do 4 (split; [vm_compute; reflexivity|]).
  do 2 (split; [reflexivity|]).
  split; [exact Hfirst|].
  destruct (C6_raising_tolerances_keeps_match py rule
              (rule_with (JFloat (Finite 0.1)) (JFloat (Finite 0.05)))
              (Finite 0) (Finite 0.1) (Finite 0.02) (Finite 0.05)
              (Finite 12) [Finite 12.1]) as (_ & Hjudge);
    [vm_compute; reflexivity|vm_compute; reflexivity|vm_compute; reflexivity
    |vm_compute; reflexivity|reflexivity|reflexivity|].
  apply Hjudge; [reflexivity|exact Hfirst].
Defined.

End ToleranceExamples.


(** ** Trimming *)

Lemma lstrip_length (s : text) : (length (lstrip s) ≤ length s)%nat.
Proof.
  induction s as [|c s IH]; [done|]. simpl. destruct (is_space c); simpl; lia.
Qed.

(** A text is left-trimmed when it is empty or starts with a visible character. *)
Lemma lstrip_fixed (s : text) :
  lstrip s = s ↔ match s with [] => True | c :: _ => is_space c = false end.
Proof.
  destruct s as [|c s]; [done|]. simpl. destruct (is_space c) eqn:E.
  - split; [|done]. intros H. pose proof (lstrip_length s) as Hl.
    rewrite H in Hl. simpl in Hl. lia.
  - done.
Qed.

Lemma lstrip_idemp (s : text) : lstrip (lstrip s) = lstrip s.
Proof.
  induction s as [|c s IH]; [done|]. simpl. destruct (is_space c) eqn:E; [done|].
  simpl. by rewrite E.
Qed.

Lemma lstrip_suffix (s : text) : ∃ p, s = p ++ lstrip s ∧ Forall (λ c, is_space c = true) p.
Proof.
  induction s as [|c s (p & Hp & Hall)]; [by exists []|]. simpl.
  destruct (is_space c) eqn:E.
  - exists (c :: p). split; [simpl; by rewrite <- Hp|by constructor].
  - by exists [].
Qed.

Lemma lstrip_app_spaces (p s : text) :
  Forall (λ c, is_space c = true) p → lstrip (p ++ s) = lstrip s.
Proof. induction 1 as [|c p Hc _ IH]; [done|]. simpl. by rewrite Hc. Qed.

Lemma lstrip_app_visible (s r : text) :
  lstrip s ≠ [] → lstrip (s ++ r) = lstrip s ++ r.
Proof.
  induction s as [|c s IH]; [done|]. simpl. destruct (is_space c); [exact IH|done].
Qed.

Lemma rstrip_idemp (s : text) : rstrip (rstrip s) = rstrip s.
Proof. unfold rstrip. by rewrite rev_involutive, lstrip_idemp. Qed.

Lemma rstrip_fixed_suffix (p y : text) : rstrip (p ++ y) = p ++ y → rstrip y = y.
Proof.
  unfold rstrip. intros H.
  assert (lstrip (rev (p ++ y)) = rev (p ++ y)) as H'.
  { rewrite <- (rev_involutive (lstrip _)). by rewrite H. }
  rewrite rev_app_distr in H'. destruct (rev y) as [|c ry] eqn:Ey.
  - simpl. by rewrite <- (rev_involutive y), Ey.
  - simpl in H'. destruct (is_space c) eqn:Ec.
    + pose proof (lstrip_length (ry ++ rev p)) as Hl. rewrite H' in Hl. simpl in Hl. lia.
    + simpl. rewrite Ec. by rewrite <- Ey, rev_involutive.
Qed.

Lemma strip_idemp (s : text) : strip (strip s) = strip s.
Proof.
  unfold strip. destruct (lstrip_suffix (rstrip s)) as (p & Hp & _).
  rewrite (rstrip_fixed_suffix p (lstrip (rstrip s))).
  - apply lstrip_idemp.
  - rewrite <- Hp. apply rstrip_idemp.
Qed.

(** ** Sections as a mapping *)

Lemma foldl_insert_snoc (entries : list (text * text)) (k v : text) :
  foldl (λ (sections : gmap text text) nb, <[nb.1 := nb.2]> sections) ∅ (entries ++ [(k, v)])
  = <[k := v]> (foldl (λ (sections : gmap text text) nb, <[nb.1 := nb.2]> sections) ∅ entries).
Proof. by rewrite foldl_app. Qed.

(** The mapping built from a list of headings holds, for each name, the body
    of the last heading of that name. *)
Lemma foldl_insert_last (before after : list (text * text)) (k v : text) :
  k ∉ after.*1 →
  foldl (λ (sections : gmap text text) nb, <[nb.1 := nb.2]> sections) ∅
        (before ++ (k, v) :: after) !! k = Some v.
Proof.
  induction after as [|[k' v'] after IH] using rev_ind; intros Hnot.
  - rewrite foldl_insert_snoc. apply lookup_insert_eq.
  - rewrite app_comm_cons, app_assoc, foldl_insert_snoc.
    rewrite fmap_app in Hnot. simpl in Hnot.
    rewrite lookup_insert_ne.
    + apply IH. intros Hin. apply Hnot. apply elem_of_app. by left.
    + intros ->. apply Hnot. apply elem_of_app. right. by left.
Qed.

Lemma foldl_insert_dom (entries : list (text * text)) :
  dom (foldl (λ (sections : gmap text text) nb, <[nb.1 := nb.2]> sections) ∅ entries)
  = list_to_set entries.*1.
Proof.
  induction entries as [|[k v] entries IH] using rev_ind.
  - simpl. apply dom_empty_L.
  - rewrite foldl_insert_snoc, dom_insert_L, IH, fmap_app, list_to_set_app_L. simpl.
    rewrite (right_id_L ∅ (∪)). apply (comm_L (∪)).
Qed.

Lemma section_bodies_names (t : text) (matches : list rematch) :
  (section_bodies t matches).*1 = map (λ m, strip (m_group1 m)) matches.
Proof. induction matches as [|m ms IH]; [done|]. simpl. f_equal. exact IH. Qed.

Lemma section_bodies_stripped (t : text) (matches : list rematch) (name body : text) :
  (name, body) ∈ section_bodies t matches → strip name = name ∧ strip body = body.
Proof.
  induction matches as [|m ms IH]; simpl; [by intros ?%elem_of_nil|].
  intros [[= -> ->]|H]%elem_of_cons; [|by apply IH].
  split; apply strip_idemp.
Qed.

Lemma parsed_names_headings (t : text) (wanted : text) :
  wanted ∈ parsed_names t ↔ wanted ∈ heading_names t.
Proof.
  unfold parsed_names, parse_sections, heading_names.
  rewrite foldl_insert_dom, section_bodies_names, elem_of_map.
  setoid_rewrite elem_of_list_to_set. split.
  - intros (n & -> & Hn). apply list_elem_of_fmap in Hn as (m & -> & Hm).
    rewrite strip_idemp. apply list_elem_of_fmap. eauto.
  - intros Hn. exists wanted. split; [|done].
    apply list_elem_of_fmap in Hn as (m & -> & Hm). by rewrite strip_idemp.
Qed.

(** ** Claims about the structural parser *)

(** C8, as amended. [find_missing_sections] returns, in the order of the
    required names, the canonical forms of those whose canonical form is not
    among the level-2 heading names of the text; the canonical form of a name
    is the name without its first [##], trimmed. When the required names are
    canonical already, these are the missing required names themselves. *)
Theorem C8_missing_sections_in_canonical_form (t : text) (required : list text) :
  find_missing_sections t required
  = map _canonical_section
        (filter (λ r, _canonical_section r ∉ heading_names t) required)
  ∧ ((∀ r, r ∈ required → _canonical_section r = r) →
     find_missing_sections t required = filter (λ r, r ∉ heading_names t) required).
Proof.
  assert (find_missing_sections t required
          = map _canonical_section
                (filter (λ r, _canonical_section r ∉ heading_names t) required)) as Heq.
  { rewrite find_missing_sections_filter. f_equal.
    apply list_filter_iff. intros r. by rewrite parsed_names_headings. }
  split; [exact Heq|]. intros Hcanon. rewrite Heq. clear Heq.
  induction required as [|r required IH]; [done|].
  rewrite !filter_cons.
  assert (_canonical_section r = r) as Hr by (apply Hcanon; by left).
  rewrite Hr. destruct (decide (r ∉ heading_names t)); simpl.
  - rewrite Hr. f_equal. apply IH. intros r' Hr'. apply Hcanon. by right.
  - apply IH. intros r' Hr'. apply Hcanon. by right.
Qed.

(** C8 as stated fails on a required name written with its [##]: the name
    returned is the canonical form, which is not one of the required names. *)
Lemma C8_counterexample :
  heading_names (u "## Overview
text") = [u "Overview"]
  ∧ find_missing_sections (u "## Overview
text") [u "## Summary"] = [u "Summary"]
  ∧ filter (λ r, _canonical_section r ∉ heading_names (u "## Overview
text")) [u "## Summary"] = [u "## Summary"]
  ∧ find_missing_sections (u "## Overview
text") [u "## Summary"]
    ≠ filter (λ r, _canonical_section r ∉ heading_names (u "## Overview
text")) [u "## Summary"]
  ∧ ¬ (find_missing_sections (u "## Overview
text") [u "## Summary"] ⊆ [u "## Summary"]).
Proof.
  assert (find_missing_sections (u "## Overview
text") [u "## Summary"] = [u "Summary"]) as Hfind by (vm_compute; reflexivity).
  assert (filter (λ r, _canonical_section r ∉ heading_names (u "## Overview
text")) [u "## Summary"] = [u "## Summary"]) as Hfilter by (vm_compute; reflexivity).
  split; [vm_compute; reflexivity|]. split; [exact Hfind|]. split; [exact Hfilter|].
  rewrite Hfind, Hfilter. split.
  - intros H. vm_compute in H. discriminate H.
  - intros H. assert (u "Summary" ∈ [u "## Summary"]) as Hin by (apply H; by left).
    apply list_elem_of_singleton in Hin. vm_compute in Hin. discriminate Hin.
Qed.

(** C8 on names that are canonical. *)
Lemma C8_witness :
  (∀ r, r ∈ [u "Summary"; u "Overview"] → _canonical_section r = r)
  ∧ find_missing_sections (u "## Overview
text") [u "Summary"; u "Overview"] = [u "Summary"].
Proof.
  assert (∀ r, r ∈ [u "Summary"; u "Overview"] → _canonical_section r = r) as Hc.
  { intros r Hr. apply elem_of_cons in Hr as [->|Hr]; [reflexivity|].
    apply list_elem_of_singleton in Hr as ->. reflexivity. }
  split; [exact Hc|].
  destruct (C8_missing_sections_in_canonical_form (u "## Overview
text") [u "Summary"; u "Overview"]) as [_ H].
  rewrite (H Hc). vm_compute. reflexivity.
Defined.

Section Duplicates.
Variable py : builtins.

(** C10. Of the level-2 headings of a text that carry a given trimmed name,
    [parse_sections] keeps the body of the last one; and [count_assumptions]
    counts the entries of the body of the last heading named "가정". *)
Theorem C10_last_heading_of_a_name_wins
    (t name body : text) (before after : list (text * text)) :
  section_bodies t (finditer SECTION_RE t) = before ++ (name, body) :: after →
  name ∉ after.*1 →
  parse_sections t !! name = Some body
  ∧ (name = ASSUMPTIONS → count_assumptions py t = count_in_body py body).
Proof.
  intros Hsplit Hlast.
  assert (parse_sections t !! name = Some body) as Hlookup.
  { unfold parse_sections. rewrite Hsplit. by apply foldl_insert_last. }
  split; [exact Hlookup|]. intros ->.
  unfold count_assumptions. rewrite Hlookup. simpl.
  destruct (section_bodies_stripped t (finditer SECTION_RE t) ASSUMPTIONS body) as [_ ->];
    [|done].
  rewrite Hsplit. apply elem_of_app. right. by left.
Qed.

End Duplicates.

Module DuplicateExamples.
Import AsciiPy Demo.

(** C10 on [twice]: the mapping holds the second body and one entry is counted. *)
Lemma C10_witness :
  section_bodies twice (finditer SECTION_RE twice)
  = [(u "가정", u "- a
- b
- c"); (u "요약", u "text")] ++ (u "가정", u "- d") :: []
  ∧ parse_sections twice !! u "가정" = Some (u "- d")
  ∧ count_assumptions py twice = 1%nat.
Proof.
  assert (section_bodies twice (finditer SECTION_RE twice)
          = [(u "가정", u "- a
- b
- c"); (u "요약", u "text")] ++ (u "가정", u "- d") :: []) as Hsplit
    by (vm_compute; reflexivity).
  split; [exact Hsplit|].
  destruct (C10_last_heading_of_a_name_wins py twice (u "가정") (u "- d") _ _ Hsplit)
    as [Hlookup Hcount]; [by intros ?%elem_of_nil|].
  split; [exact Hlookup|]. rewrite Hcount by reflexivity. vm_compute. reflexivity.
Defined.

End DuplicateExamples.

(** ** The matcher and the declarative reading of patterns *)

Section Matcher.
Context {A : Type}.

Lemma star_loop_sound (step : cursor → (cursor → option A) → option A) (g : bool) (r : re) :
  (∀ c k a, step c k = Some a → ∃ c', matches r c c' ∧ k c' = Some a) →
  ∀ n c k a, star_loop step g k n c = Some a →
    ∃ c', matches (Star g r) c c' ∧ k c' = Some a.
Proof.
  intros Hstep n. induction n as [|n IH]; intros c k a H; simpl in H.
  - destruct g.
    + exists c. split; [constructor|done].
    + destruct (k c) eqn:Ek; [|done]. exists c. split; [constructor|congruence].
  - destruct g.
    + destruct (step c _) as [a0|] eqn:Es.
      * injection H as ->. apply Hstep in Es as (c1 & M1 & Hk1).
        destruct (c_pos c <? c_pos c1)%nat eqn:Hlt; [|done].
        apply IH in Hk1 as (c2 & M2 & Hk2). exists c2. split; [|done].
        eapply M_StarCons; eauto. by apply Nat.ltb_lt.
      * exists c. split; [constructor|done].
    + destruct (k c) eqn:Ek.
      * exists c. split; [constructor|congruence].
      * apply Hstep in H as (c1 & M1 & Hk1).
        destruct (c_pos c <? c_pos c1)%nat eqn:Hlt; [|done].
        apply IH in Hk1 as (c2 & M2 & Hk2). exists c2. split; [|done].
        eapply M_StarCons; eauto. by apply Nat.ltb_lt.
Qed.

(** Whatever the matcher finds is a match. *)
Lemma exec_sound (r : re) (c : cursor) (k : cursor → option A) (a : A) :
  exec r c k = Some a → ∃ c', matches r c c' ∧ k c' = Some a.
Proof.
  revert c k a. induction r as [|p|r1 IH1 r2 IH2|r1 IH1 r2 IH2|g r1 IH1|m|m|r1 IH1|p|p];
    intros c k a H; simpl in H.
  - exists c. split; [constructor|done].
  - destruct (c_rest c) as [|x rest] eqn:Er; [done|].
    destruct (p x) eqn:Ep; [|done]. eexists. split; [by eapply M_Chr|done].
  - apply IH1 in H as (c1 & M1 & H). apply IH2 in H as (c2 & M2 & H).
    exists c2. split; [by eapply M_Seq|done].
  - destruct (exec r1 c k) as [a0|] eqn:E1.
    + injection H as ->. apply IH1 in E1 as (c' & M & Hk). exists c'.
      split; [by apply M_AltL|done].
    + apply IH2 in H as (c' & M & Hk). exists c'. split; [by apply M_AltR|done].
  - eapply star_loop_sound; [|exact H]. intros c0 k0 a0. apply IH1.
  - destruct (at_bol m c) eqn:E; [|done]. exists c. split; [by constructor|done].
  - destruct (at_eol m c) eqn:E; [|done]. exists c. split; [by constructor|done].
  - apply IH1 in H as (c' & M & Hk). eexists. split; [by apply M_Group|done].
  - destruct (c_prev c) as [x|] eqn:Ex; [|done]. destruct (p x) eqn:Ep; [|done].
    exists c. split; [by eapply M_Behind|done].
  - destruct (c_rest c) as [|x rest] eqn:Er; [done|]. destruct (p x) eqn:Ep; [|done].
    exists c. split; [by eapply M_Ahead|done].
Qed.

End Matcher.

(** A match moves forward and keeps offset and remaining text in step. *)
Lemma matches_advance (r : re) (c c' : cursor) :
  matches r c c' →
  (c_pos c ≤ c_pos c')%nat
  ∧ (length (c_rest c') + c_pos c' = length (c_rest c) + c_pos c)%nat.
Proof.
  induction 1 as [c|p c x rest Hr Hp|r1 r2 c c1 c2 _ [? ?] _ [? ?]|r1 r2 c c' _ IH
                  |r1 r2 c c' _ IH|g r c|g r c c1 c2 _ [? ?] Hlt _ [? ?]|m c|m c
                  |r c c' _ [? ?]|p c x|p c x rest]; simpl; try done; try lia.
  rewrite Hr. simpl. lia.
Qed.

Section Completeness.
Context {A : Type}.

(** A continuation that succeeds more often makes the matcher succeed more
    often. *)
Lemma star_loop_mono (step : cursor → (cursor → option A) → option A) (g : bool) :
  (∀ c (k1 k2 : cursor → option A),
     (∀ c', is_Some (k1 c') → is_Some (k2 c')) →
     is_Some (step c k1) → is_Some (step c k2)) →
  ∀ n m c (k1 k2 : cursor → option A),
    (n ≤ m)%nat →
    (∀ c', is_Some (k1 c') → is_Some (k2 c')) →
    is_Some (star_loop step g k1 n c) → is_Some (star_loop step g k2 m c).
Proof.
  intros Hstep n. induction n as [|n IH]; intros m c k1 k2 Hnm Hk H.
  - simpl in H. assert (is_Some (k1 c)) as Hk1.
    { destruct g; [done|]. by destruct (k1 c). }
    apply Hk in Hk1 as [a Ha].
    destruct m; simpl; destruct g; rewrite ?Ha; try done.
    by destruct (step c _).
  - destruct m as [|m]; [lia|]. simpl in H. simpl.
    assert (is_Some (step c (λ c', if (c_pos c <? c_pos c')%nat
                                   then star_loop step g k1 n c' else None))
            ∨ is_Some (k1 c)) as [Hs|Hk1].
    { destruct g.
      - destruct (step c _); [by left|by right].
      - destruct (k1 c); [by right|by left]. }
    + assert (is_Some (step c (λ c', if (c_pos c <? c_pos c')%nat
                                     then star_loop step g k2 m c' else None))) as [a Ha].
      { eapply Hstep; [|exact Hs]. intros c'. simpl.
        destruct (c_pos c <? c_pos c')%nat; [|done]. apply IH; [lia|done]. }
      destruct g; rewrite Ha; [done|]. by destruct (k2 c).
    + apply Hk in Hk1 as [a Ha]. destruct g; rewrite Ha; [|done].
      match goal with |- is_Some (match ?x with _ => _ end) => destruct x end; eauto.
Qed.

Lemma exec_mono (r : re) (c : cursor) (k1 k2 : cursor → option A) :
  (∀ c', is_Some (k1 c') → is_Some (k2 c')) →
  is_Some (exec r c k1) → is_Some (exec r c k2).
Proof.
  revert c k1 k2. induction r as [|p|r1 IH1 r2 IH2|r1 IH1 r2 IH2|g r1 IH1|m|m|r1 IH1|p|p];
    intros c k1 k2 Hk H; simpl in *.
  - by apply Hk.
  - destruct (c_rest c) as [|x rest]; [done|]. destruct (p x); [by apply Hk|done].
  - eapply IH1; [|exact H]. intros c'. by apply IH2.
  - destruct (exec r1 c k1) eqn:E1.
    + assert (is_Some (exec r1 c k2)) as [a2 Ha] by (eapply IH1; [exact Hk|by rewrite E1]).
      by rewrite Ha.
    + destruct (exec r1 c k2); [done|]. by eapply IH2.
  - eapply star_loop_mono; [|reflexivity|exact Hk|exact H].
    intros c0 k1' k2'. apply IH1.
  - destruct (at_bol m c); [by apply Hk|done].
  - destruct (at_eol m c); [by apply Hk|done].
  - eapply IH1; [|exact H]. intros c'. apply Hk.
  - destruct (c_prev c) as [x|]; [|done]. destruct (p x); [by apply Hk|done].
  - destruct (c_rest c) as [|x rest]; [done|]. destruct (p x); [by apply Hk|done].
Qed.

(** Every match is found, as long as the rest of the pattern accepts it. *)
Lemma exec_complete (r : re) (c c' : cursor) :
  matches r c c' →
  ∀ k : cursor → option A, is_Some (k c') → is_Some (exec r c k).
Proof.
  induction 1 as [c|p c x rest Hr Hp|r1 r2 c c1 c2 _ IH1 _ IH2|r1 r2 c c' _ IH
                  |r1 r2 c c' _ IH|g r c|g r c c1 c2 M1 IH1 Hlt M2 IH2|m c Hm|m c Hm
                  |r c c' _ IH|p c x Hx Hp|p c x rest Hr Hp]; intros k Hk; simpl.
  - done.
  - by rewrite Hr, Hp.
  - apply IH1. by apply IH2.
  - destruct (IH k Hk) as [a ->]. done.
  - destruct (exec r1 c k); [done|]. by apply IH.
  - destruct (length (c_rest c)); simpl; destruct g; destruct Hk as [a ->]; try done;
      by destruct (exec r c _).
  - pose proof (matches_advance _ _ _ M1) as [_ Hlen].
    destruct (length (c_rest c)) as [|n] eqn:En; [lia|]. simpl.
    assert (is_Some (exec r c (λ c', if (c_pos c <? c_pos c')%nat
                                     then star_loop (exec r) g k n c' else None)))
      as [a Ha].
    { apply IH1. rewrite (proj2 (Nat.ltb_lt _ _) Hlt).
      specialize (IH2 k Hk). simpl in IH2.
      eapply star_loop_mono; [| |intros c0 H0; exact H0|exact IH2].
      - intros c0 k1 k2. apply exec_mono.
      - lia. }
    destruct g; rewrite Ha; [done|]. by destruct (k c).
  - by rewrite Hm.
  - by rewrite Hm.
  - apply IH. exact Hk.
  - by rewrite Hx, Hp.
  - by rewrite Hr, Hp.
Qed.

End Completeness.

(** ** What a match consumes *)

Lemma last_app_cases {X : Type} (l1 l2 : list X) :
  last (l1 ++ l2) = match last l2 with Some y => Some y | None => last l1 end.
Proof.
  induction l2 as [|y l2 IH] using rev_ind.
  - by rewrite app_nil_r.
  - by rewrite app_assoc, !last_snoc.
Qed.

(** A match of a pattern without lookahead consumes a prefix [x] of the
    remaining text, ends just after the last character of [x], and is a
    match over any other continuation of [x] as well. *)
Lemma matches_retail (r : re) (c c' : cursor) :
  matches r c c' → lookahead_free r = true →
  ∃ x, c_rest c = x ++ c_rest c'
     ∧ c_pos c' = (c_pos c + length x)%nat
     ∧ c_prev c' = match last x with Some y => Some y | None => c_prev c end
     ∧ ∀ t, matches r (with_rest c (x ++ t)) (with_rest c' t).
Proof.
  induction 1 as [c|p c x0 rest Hr Hp|r1 r2 c c1 c2 _ IH1 _ IH2|r1 r2 c c' _ IH
                  |r1 r2 c c' _ IH|g r c|g r c c1 c2 _ IH1 Hlt _ IH2|m c Hm|m c Hm
                  |r c c' _ IH|p c x0 Hx Hp|p c x0 rest Hr Hp]; simpl; intros Hfree.
  - exists []. repeat split; [simpl; lia|]. intros t. constructor.
  - exists [x0]. repeat split; [by rewrite Hr|simpl; lia|]. intros t.
    by apply (M_Chr p (with_rest c ([x0] ++ t)) x0 t).
  - apply andb_true_iff in Hfree as [Hf1 Hf2].
    destruct (IH1 Hf1) as (x1 & Hr1 & Hp1 & Hl1 & Hm1).
    destruct (IH2 Hf2) as (x2 & Hr2 & Hp2 & Hl2 & Hm2).
    exists (x1 ++ x2). split; [by rewrite Hr1, Hr2, app_assoc|].
    split; [rewrite length_app; lia|]. split.
    + rewrite last_app_cases, Hl2, Hl1. by destruct (last x2).
    + intros t. eapply M_Seq; [|apply Hm2]. rewrite <- app_assoc. apply Hm1.
  - apply andb_true_iff in Hfree as [Hf1 Hf2].
    destruct (IH Hf1) as (x & Hr & Hp & Hl & Hm). exists x. repeat split; try done.
    intros t. by apply M_AltL.
  - apply andb_true_iff in Hfree as [Hf1 Hf2].
    destruct (IH Hf2) as (x & Hr & Hp & Hl & Hm). exists x. repeat split; try done.
    intros t. by apply M_AltR.
  - exists []. repeat split; [simpl; lia|]. intros t. constructor.
  - destruct (IH1 Hfree) as (x1 & Hr1 & Hp1 & Hl1 & Hm1).
    destruct (IH2 Hfree) as (x2 & Hr2 & Hp2 & Hl2 & Hm2).
    exists (x1 ++ x2). split; [by rewrite Hr1, Hr2, app_assoc|].
    split; [rewrite length_app; lia|]. split.
    + rewrite last_app_cases, Hl2, Hl1. by destruct (last x2).
    + intros t. eapply M_StarCons; [| |apply Hm2]; [|done].
      rewrite <- app_assoc. apply Hm1.
  - exists []. repeat split; [simpl; lia|]. intros t. by constructor.
  - done.
  - destruct (IH Hfree) as (x & Hr & Hp & Hl & Hm). exists x. repeat split; try done.
    intros t. unfold with_rest. simpl.
    replace (take (c_pos c' - c_pos c) (c_rest c))
      with (take (c_pos (with_rest c' t) - c_pos (with_rest c (x ++ t)))
                 (c_rest (with_rest c (x ++ t)))).
    + apply (M_Group r (with_rest c (x ++ t)) (with_rest c' t)). apply Hm.
    + simpl. rewrite Hr, Hp.
      replace (c_pos c + length x - c_pos c)%nat with (length x) by lia.
      by rewrite !take_app_length.
  - exists []. repeat split; [simpl; lia|]. intros t. by eapply M_Behind.
  - done.
Qed.

Lemma search_from_sound (r : re) (prev : option N) (rest : text) (pos start : nat)
    (c' : cursor) :
  search_from r prev rest pos = Some (start, c') →
  ∃ prev' rest', matches r (Cursor prev' rest' start None) c'
    ∧ ((prev', rest', start) = (prev, rest, pos) ∨ is_Some prev').
Proof.
  revert prev pos. induction rest as [|x rest IH]; intros prev pos; simpl.
  - destruct (exec r _ Some) as [c0|] eqn:E; [|done]. intros [= <- <-].
    apply exec_sound in E as (c1 & M & [= ->]). eexists _, _. split; [exact M|by left].
  - destruct (exec r _ Some) as [c0|] eqn:E.
    + intros [= <- <-]. apply exec_sound in E as (c1 & M & [= ->]).
      eexists _, _. split; [exact M|by left].
    + intros H. apply IH in H as (prev' & rest' & M & [[= -> -> ->]|Hs]).
      * eexists _, _. split; [exact M|by right].
      * eexists _, _. split; [exact M|by right].
Qed.

Lemma search_from_complete (r : re) (prev : option N) (rest : text) (pos : nat) (c' : cursor) :
  matches r (Cursor prev rest pos None) c' → is_Some (search_from r prev rest pos).
Proof.
  intros M. destruct (exec_complete r _ _ M Some) as [c0 Hc0]; [done|].
  destruct rest; simpl; by rewrite Hc0.
Qed.

(** A pattern that starts with [^] (without MULTILINE) matches at the start
    of the text or nowhere. *)
Lemma search_anchored (r : re) (s : text) :
  search (Seq (Bol false) r) s = true
  ↔ ∃ c', matches (Seq (Bol false) r) (Cursor None s 0 None) c'.
Proof.
  unfold search. split.
  - destruct (search_from _ None s 0) as [[start c']|] eqn:E; [|done]. intros _.
    apply search_from_sound in E as (prev' & rest' & M & [[= -> -> ->]|[y ->]]); [eauto|].
    inversion M as [| |r1 r2 c0 c1 c2 M1 M2| | | | | | | | |]; subst.
    inversion M1; subst. done.
  - intros [c' M]. by destruct (search_from_complete _ _ _ _ _ M) as [? ->].
Qed.

(** ** The table separator *)

Ltac inv_matches H := inversion H; subst; clear H.

Lemma matches_lit_prev (ch : N) (c c' : cursor) :
  matches (lit ch) c c' → c_prev c' = Some ch.
Proof.
  unfold lit. intros M. inv_matches M. simpl.
  match goal with H : (ch =? _)%N = true |- _ => apply N.eqb_eq in H as -> end. done.
Qed.

Lemma matches_star_lit_prev (g : bool) (ch : N) (c c' : cursor) :
  matches (Star g (lit ch)) c c' → c_prev c = Some ch → c_prev c' = Some ch.
Proof.
  intros M. remember (Star g (lit ch)) as r eqn:Er.
  induction M as [| | | | |g' r' c|g' r' c c1 c2 M1 _ Hlt M2 IH| | | | |]; try discriminate.
  - done.
  - injection Er as -> ->. intros _. apply IH; [done|]. by eapply matches_lit_prev.
Qed.

(** A match of the separator pattern ends just after a dash. *)
Lemma table_sep_ends_with_dash (c c' : cursor) :
  matches TABLE_SEP_RE c c' → c_prev c' = Some 45%N.
Proof.
  unfold TABLE_SEP_RE. cbn [seq]. intros M.
  repeat match goal with
         | H : matches (Seq _ _) _ _ |- _ => inv_matches H
         end.
  eapply matches_star_lit_prev; [eassumption|]. by eapply matches_lit_prev.
Qed.

Lemma table_sep_lookahead_free : lookahead_free TABLE_SEP_RE = true.
Proof. reflexivity. Qed.

Lemma rstrip_after_visible (x : text) (ch : N) (r : text) :
  is_space ch = false → rstrip (x ++ ch :: r) = x ++ ch :: rstrip r.
Proof.
  intros Hch. unfold rstrip. rewrite rev_app_distr. simpl. rewrite <- app_assoc. simpl.
  destruct (lstrip (rev r)) as [|y ys] eqn:El.
  - destruct (lstrip_suffix (rev r)) as (p & Hp & Hall). rewrite El, app_nil_r in Hp.
    rewrite lstrip_app_spaces by (by rewrite Hp). simpl. rewrite Hch. simpl.
    by rewrite rev_involutive.
  - rewrite lstrip_app_visible by (by rewrite El). rewrite El.
    rewrite rev_app_distr. simpl rev at 1. rewrite rev_involutive, <- app_assoc. done.
Qed.

(** Trailing white space does not change whether a line is a separator. *)
Lemma table_sep_rstrip (line : text) :
  search TABLE_SEP_RE line = true → search TABLE_SEP_RE (rstrip line) = true.
Proof.
  change TABLE_SEP_RE with
    (Seq (Bol false) (seq [Star true space; opt (lit 124); Star true space; opt (lit 58);
                           lit 45; lit 45; lit 45; Star true (lit 45)])).
  rewrite !search_anchored. intros [c' M].
  pose proof (table_sep_ends_with_dash _ _ M) as Hdash.
  destruct (matches_retail _ _ _ M table_sep_lookahead_free) as (x & Hx & _ & Hlast & Hre).
  simpl in Hx, Hlast. rewrite Hdash in Hlast.
  destruct (last x) as [y|] eqn:Ey; [|done]. injection Hlast as <-.
  apply last_Some in Ey as [x' ->].
  rewrite Hx, <- app_assoc. simpl. rewrite rstrip_after_visible by done.
  specialize (Hre (rstrip (c_rest c'))). unfold with_rest in Hre at 1. simpl in Hre.
  rewrite <- app_assoc in Hre. simpl in Hre. eauto.
Qed.

(** ** Counting assumptions *)

Lemma lstrip_spaces (p : text) : Forall (λ c, is_space c = true) p → lstrip p = [].
Proof. intros H. rewrite <- (app_nil_r p). by rewrite lstrip_app_spaces. Qed.

Lemma rstrip_spaces (p : text) : Forall (λ c, is_space c = true) p → rstrip p = [].
Proof.
  intros H. unfold rstrip. rewrite lstrip_spaces; [done|]. by apply Forall_rev.
Qed.

Lemma lstrip_head_visible (s : text) (ch : N) (r : text) :
  lstrip s = ch :: r → is_space ch = false.
Proof.
  intros H. pose proof (lstrip_idemp s) as Hi. rewrite H in Hi.
  by apply (proj1 (lstrip_fixed (ch :: r))) in Hi.
Qed.

(** Trimming a line on the right keeps its first visible character. *)
Lemma lstrip_rstrip_head (line : text) :
  match lstrip line with
  | [] => lstrip (rstrip line) = []
  | ch :: r => lstrip (rstrip line) = ch :: rstrip r
  end.
Proof.
  destruct (lstrip_suffix line) as (p & Hp & Hall).
  destruct (lstrip line) as [|ch r] eqn:El.
  - rewrite app_nil_r in Hp. subst p. by rewrite rstrip_spaces.
  - pose proof (lstrip_head_visible _ _ _ El) as Hch.
    rewrite Hp, rstrip_after_visible, lstrip_app_spaces by done. simpl. by rewrite Hch.
Qed.

Lemma starts_with_pipe_rstrip (line : text) :
  starts_with_pipe (rstrip line) = starts_with_pipe line.
Proof.
  unfold starts_with_pipe. pose proof (lstrip_rstrip_head line) as H.
  destruct (lstrip line) as [|ch r]; rewrite H; [done|].
  change (u "|") with [124%N]. simpl. by rewrite !andb_true_r.
Qed.

Lemma nonblank_rstrip (line : text) : nonblank (rstrip line) = nonblank line.
Proof. unfold nonblank, strip. by rewrite rstrip_idemp. Qed.

Lemma filter_map_commute {X Y : Type} (f : X → Y) (ok : Y → bool) (l : list X) :
  filter (λ y, ok y = true) (map f l) = map f (filter (λ x, ok (f x) = true) l).
Proof.
  induction l as [|x l IH]; [done|]. simpl. rewrite !filter_cons, IH.
  by destruct (decide (ok (f x) = true)).
Qed.

Lemma filter_ext_bool {X : Type} (ok1 ok2 : X → bool) (l : list X) :
  (∀ x, ok1 x = ok2 x) →
  filter (λ x, ok1 x = true) l = filter (λ x, ok2 x = true) l.
Proof. intros H. apply list_filter_iff. intros x. by rewrite H. Qed.

Lemma foldl_insert_lookup (entries : list (text * text)) (k v : text) :
  foldl (λ (sections : gmap text text) nb, <[nb.1 := nb.2]> sections) ∅ entries !! k = Some v →
  (k, v) ∈ entries.
Proof.
  induction entries as [|[k' v'] entries IH] using rev_ind; [done|].
  rewrite foldl_insert_snoc. simpl. destruct (decide (k' = k)) as [->|Hne].
  - rewrite lookup_insert_eq. intros [= ->]. apply elem_of_app. right. by left.
  - rewrite lookup_insert_ne by done. intros H. apply elem_of_app. left. by apply IH.
Qed.

(** The bodies that [parse_sections] stores are trimmed. *)
Lemma parse_sections_stripped (t name body : text) :
  parse_sections t !! name = Some body → strip body = body.
Proof.
  intros H. apply foldl_insert_lookup in H.
  by destruct (section_bodies_stripped _ _ _ _ H).
Qed.

Section Assumptions.
Variable py : builtins.

(** The table rows among the lines of a body, from its non-blank lines. *)
Lemma count_table_rows_of_lines (lines : list text) (header sep : text) (rows : list text) :
  filter (λ line, nonblank line = true) lines = header :: sep :: rows →
  starts_with_pipe header = true →
  search TABLE_SEP_RE sep = true →
  rows ≠ [] →
  _count_table_rows (map rstrip lines)
  = length (filter (λ line, starts_with_pipe line = true) rows).
Proof.
  intros Hlines Hheader Hsep Hrows. unfold _count_table_rows.
  rewrite (filter_map_commute rstrip nonblank).
  rewrite (filter_ext_bool (λ x, nonblank (rstrip x)) nonblank) by apply nonblank_rstrip.
  rewrite Hlines. destruct rows as [|row rows]; [done|].
  cbn [map length Nat.ltb Nat.leb lookup list_lookup default drop].
  simpl default. unfold id.
  rewrite starts_with_pipe_rstrip, Hheader, table_sep_rstrip by done.
  cbn [negb]. change (rstrip row :: map rstrip rows) with (map rstrip (row :: rows)).
  rewrite (filter_map_commute rstrip starts_with_pipe), length_map.
  by rewrite (filter_ext_bool (λ x, starts_with_pipe (rstrip x)) starts_with_pipe)
    by apply starts_with_pipe_rstrip.
Qed.

(** C7, as amended. When the body of the "가정" section is a table - its
    first non-blank line starts with a pipe, its second non-blank line is a
    separator - with at least one pipe-prefixed row among the non-blank
    lines that follow, [count_assumptions] returns the number of these rows,
    whatever else the response holds. *)
Theorem C7_table_rows_are_counted
    (t body header sep : text) (rows : list text) :
  parse_sections t !! ASSUMPTIONS = Some body →
  filter (λ line, nonblank line = true) (splitlines body) = header :: sep :: rows →
  starts_with_pipe header = true →
  search TABLE_SEP_RE sep = true →
  (1 ≤ length (filter (λ line, starts_with_pipe line = true) rows))%nat →
  count_assumptions py t = length (filter (λ line, starts_with_pipe line = true) rows).
Proof.
  intros Hbody Hlines Hheader Hsep Hn.
  unfold count_assumptions. rewrite Hbody. simpl default.
  rewrite (parse_sections_stripped _ _ _ Hbody).
  unfold count_in_body. destruct body as [|ch body]; [done|].
  assert (rows ≠ []) as Hrows by (intros ->; simpl in Hn; lia).
  rewrite (count_table_rows_of_lines _ header sep rows) by done.
  by rewrite (proj2 (Nat.ltb_lt _ _) Hn).
Qed.

End Assumptions.

Module AssumptionExamples.
Import AsciiPy Demo.

(** C7 as stated fails for a table without rows: header and separator are
    counted as two plain lines. *)
Lemma C7_counterexample :
  parse_sections (u "## 가정
| item | value |
|---|---|
## 요약
text") !! ASSUMPTIONS = Some (u "| item | value |
|---|---|")
  ∧ filter (λ line, nonblank line = true) (splitlines (u "| item | value |
|---|---|")) = [u "| item | value |"; u "|---|---|"]
  ∧ starts_with_pipe (u "| item | value |") = true
  ∧ search TABLE_SEP_RE (u "|---|---|") = true
  ∧ count_assumptions py (u "## 가정
| item | value |
|---|---|
## 요약
text") = 2%nat
  ∧ count_assumptions py (u "## 가정
| item | value |
|---|---|
## 요약
text") ≠ length (filter (λ line, starts_with_pipe line = true) []).
Proof.
  assert (count_assumptions py (u "## 가정
| item | value |
|---|---|
## 요약
text") = 2%nat) as Hcount by (vm_compute; reflexivity).
  repeat split; try (vm_compute; reflexivity). rewrite Hcount. done.
Qed.

(** C7 on a table of two rows followed by a list and a further section. *)
Lemma C7_witness :
  parse_sections (u "## 가정
| item | value |
| :--- | ---: |
| hp | 100 |

| dps | 12 |
- note
## 요약
- x
- y
- z") !! ASSUMPTIONS = Some (u "| item | value |
| :--- | ---: |
| hp | 100 |

| dps | 12 |
- note")
  ∧ count_assumptions py (u "## 가정
| item | value |
| :--- | ---: |
| hp | 100 |

| dps | 12 |
- note
## 요약
- x
- y
- z") = 2%nat.
Proof.
  assert (parse_sections (u "## 가정
| item | value |
| :--- | ---: |
| hp | 100 |

| dps | 12 |
- note
## 요약
- x
- y
- z") !! ASSUMPTIONS = Some (u "| item | value |
| :--- | ---: |
| hp | 100 |

| dps | 12 |
- note")) as Hbody by (vm_compute; reflexivity).
  split; [exact Hbody|].
  rewrite (C7_table_rows_are_counted py _ _ (u "| item | value |") (u "| :--- | ---: |")
             [u "| hp | 100 |"; u "| dps | 12 |"; u "- note"] Hbody);
    vm_compute; reflexivity || lia.
Defined.

End AssumptionExamples.

(** * Further properties

    Properties of the functions around the claims: what the numeric check,
    the scorer and the aggregator guarantee to their callers, and how the
    selection of cases, the lint, the decoding of responses and the routing
    synchroniser behave. *)

(** ** The numeric check *)

Lemma safe_ratio_one_inv (n d : Z) :
  0 < d → (_safe_ratio (inject_Z n) d == 1)%Q → n = d.
Proof.
  intros Hd H. unfold _safe_ratio in H.
  rewrite (proj2 (Z.leb_gt d 0) Hd) in H.
  unfold Qeq, Qdiv, Qmult, Qinv, inject_Z in H. simpl in H.
  destruct d as [|p|p]; try lia. simpl in H. lia.
Qed.

Section NumericCheck.
Variable py : builtins.

Lemma judge_rules_count (payload : json) (nums : list pyfloat) (rules : list json)
    (matched : nat) (missing : list text) :
  judge_rules py payload nums rules = Ok (matched, missing) →
  (matched + length missing = length rules)%nat.
Proof.
  intros E. pose proof (judge_rules_inv py payload nums rules) as H. by rewrite E in H.
Qed.

(** What the numeric check returns, read off its branches. *)
Lemma numeric_check_ok (response script : text) (validation : list (text * json))
    (w : world) (score : Q) (passed : bool) (details : text) :
  evaluate_script_numeric_checks py response script validation w
  = Ok (score, passed, details) →
  (0 <= score <= 1)%Q
  ∧ ((score == 1)%Q → passed = true)
  ∧ (dict_get (u "min_matches") validation = None → passed = true → (score == 1)%Q).
Proof.
  intros E.
  assert (∀ d, Ok (0%Q, false, d) = Ok (score, passed, details) →
               (0 <= score <= 1)%Q ∧ ((score == 1)%Q → passed = true)
               ∧ (dict_get (u "min_matches") validation = None →
                  passed = true → (score == 1)%Q)) as Hfail.
  { intros d [= <- <- _]. split; [split; discriminate|]. split; [|done].
    intros H. by vm_compute in H. }
  unfold evaluate_script_numeric_checks in E.
  destruct (negb (path_exists w (script_path w script))); [by eapply Hfail|].
  destruct (dict_get (u "input") validation) as [[| | | |input_rel| |]|];
    try (by eapply Hfail).
  destruct (strip input_rel); [by eapply Hfail|].
  destruct (negb (path_exists w (input_path w input_rel))); [by eapply Hfail|].
  destruct (dict_get (u "extract") validation) as [[| | | | |[|rule0 rules']|]|];
    try (by eapply Hfail).
  destruct (subprocess_run w _) as [rc out err|]; [|done].
  destruct (negb (rc =? 0)); [by eapply Hfail|].
  destruct (strip out); [by eapply Hfail|].
  destruct (json_loads py _) as [exc|payload]; [by eapply Hfail|].
  destruct (_extract_numbers py response) as [|num0 nums] eqn:En; [by eapply Hfail|].
  destruct (judge_rules py payload (num0 :: nums) (rule0 :: rules'))
    as [[matched missing]|e] eqn:Hcount; [|done].
  apply judge_rules_count in Hcount. simpl in Hcount.
  set (total := length (rule0 :: rules')) in *.
  assert (0 < Z.of_nat total) as Htotal by (subst total; simpl; lia).
  assert (matched ≤ total)%nat as Hle by (subst total; simpl; lia).
  destruct (_to_int py (dict_get (u "min_matches") validation) (Z.of_nat total))
    as [requested|] eqn:Ereq; [|done].
  simpl in E. injection E as <- <- _.
  split; [apply safe_ratio_bounds; lia|]. split.
  - intros H1. apply safe_ratio_one_inv in H1; [|done]. apply Z.leb_le. lia.
  - intros Hnone Hpass. rewrite Hnone in Ereq. injection Ereq as <-.
    apply Z.leb_le in Hpass.
    assert (Z.of_nat matched = Z.of_nat total) as -> by lia.
    apply safe_ratio_full.
Qed.

(** X1. Whatever the numeric check returns, its score lies between 0 and 1;
    a score of 1 comes with a pass; and when the validation sets no
    [min_matches], the check passes only with a score of 1, that is when
    every rule matched. What it raises comes from the time limit of the
    run, from an infinite [min_matches], or from a rule in which the value
    at the path, [atol] or [rtol] is an integer beyond the range of a
    float. *)
Theorem numeric_check_score_and_verdict
    (response script : text) (validation : list (text * json)) (w : world) :
  match evaluate_script_numeric_checks py response script validation w with
  | Raised e => validation_raises py w validation e
  | Ok (score, passed, details) =>
    (0 <= score <= 1)%Q
    ∧ ((score == 1)%Q → passed = true)
    ∧ (dict_get (u "min_matches") validation = None → passed = true → (score == 1)%Q)
  end.
Proof.
  destruct (evaluate_script_numeric_checks py response script validation w)
    as [[[score passed] details]|e] eqn:E.
  - by eapply numeric_check_ok.
  - by apply (evaluate_raised_inv py response script validation w e).
Qed.

(** X2. When the script is missing, or the validation names no existing
    input or holds no rule, the numeric check fails with score 0 without
    starting a process: the result is the same whatever a run would
    produce. *)
Theorem numeric_check_unusable_never_runs
    (response script : text) (validation : list (text * json)) (w : world) :
  runnable w script validation = false →
  (∃ details,
     evaluate_script_numeric_checks py response script validation w
     = Ok (0%Q, false, details))
  ∧ ∀ run, evaluate_script_numeric_checks py response script validation (with_run w run)
           = evaluate_script_numeric_checks py response script validation w.
Proof.
  intros Hrun. unfold runnable in Hrun.
  assert (∀ run, evaluate_script_numeric_checks py response script validation (with_run w run)
                 = evaluate_script_numeric_checks py response script validation w
                 ∧ ∃ details,
                     evaluate_script_numeric_checks py response script validation w
                     = Ok (0%Q, false, details)) as H.
  { intros run. unfold evaluate_script_numeric_checks. simpl.
    destruct (path_exists w (script_path w script)); simpl in *; [|by eauto].
    destruct (dict_get (u "input") validation) as [[| | | |input_rel| |]|];
      try (by eauto).
    unfold nonblank in Hrun.
    destruct (strip input_rel); [by eauto|].
    destruct (path_exists w (input_path w input_rel)); simpl in *; [|by eauto].
    destruct (dict_get (u "extract") validation) as [[| | | | |[|rule0 rules']|]|];
      by eauto. }
  split; [apply (H (subprocess_run w))|]. intros run. apply H.
Qed.

End NumericCheck.

Module NumericExamples.
Import AsciiPy Demo.

(** X2 on a validation without rules, in a world whose runs would time out. *)
Lemma numeric_check_unusable_never_runs_witness :
  runnable (demo_world TimedOut) (u "ttk.py") [(u "input", JStr (u "fixtures/ttk.json"))]
  = false
  ∧ (∃ details,
       evaluate_script_numeric_checks py response (u "ttk.py")
         [(u "input", JStr (u "fixtures/ttk.json"))] (demo_world TimedOut)
       = Ok (0%Q, false, details))
  ∧ ∀ run,
      evaluate_script_numeric_checks py response (u "ttk.py")
        [(u "input", JStr (u "fixtures/ttk.json"))] (with_run (demo_world TimedOut) run)
      = evaluate_script_numeric_checks py response (u "ttk.py")
          [(u "input", JStr (u "fixtures/ttk.json"))] (demo_world TimedOut).
Proof.
  assert (runnable (demo_world TimedOut) (u "ttk.py")
            [(u "input", JStr (u "fixtures/ttk.json"))] = false) as H
    by (vm_compute; reflexivity).
  split; [exact H|].
  exact (numeric_check_unusable_never_runs py response (u "ttk.py")
           [(u "input", JStr (u "fixtures/ttk.json"))] (demo_world TimedOut) H).
Defined.

End NumericExamples.

(** ** The ranges of the scores *)

Lemma round4_bounds (x : Q) : (0 <= x <= 1)%Q → (0 <= round4 x <= 1)%Q.
Proof.
  intros [H0 H1]. unfold round4.
  set (y := (x * 10000)%Q). set (f := Qfloor y).
  assert (0 <= y)%Q as Hy0 by (subst y; lra).
  assert (y <= 10000)%Q as Hy1 by (subst y; lra).
  assert (0 <= f) as Hf0.
  { subst f. change 0 with (Qfloor (inject_Z 0)). by apply Qfloor_resp_le. }
  assert (f <= 10000) as Hf1.
  { subst f. change 10000 with (Qfloor (inject_Z 10000)). by apply Qfloor_resp_le. }
  assert (∀ n : Z, 0 <= n <= 10000 → (0 <= inject_Z n / 10000 <= 1)%Q) as Hn.
  { intros n [Hn0 Hn1].
    assert (0 <= inject_Z n)%Q by (unfold Qle; simpl; lia).
    assert (inject_Z n <= 10000)%Q by (unfold Qle; simpl; lia).
    split.
    - apply Qle_shift_div_l; lra.
    - apply Qle_shift_div_r; lra. }
  assert ((0 < y - inject_Z f)%Q → f + 1 <= 10000) as Hup.
  { intros Hr. assert (inject_Z f < 10000)%Q as Hlt by lra.
    unfold Qlt in Hlt. simpl in Hlt. lia. }
  destruct (Qle_bool (y - inject_Z f) (1 # 2)) eqn:E1.
  - destruct (Qle_bool (1 # 2) (y - inject_Z f)) eqn:E2; [|apply Hn; lia].
    apply Qle_bool_iff in E2.
    destruct (Z.even f); [apply Hn; lia|].
    apply Hn. split; [lia|]. apply Hup. lra.
  - apply Qle_bool_false in E1. apply Hn. split; [lia|]. apply Hup. lra.
Qed.

Section Ranges.
Variable py : builtins.

Lemma script_check_ok (case : Case) (response : text) (w : world)
    (s : Q) (p : bool) (d : text) :
  script_check py case response w = Ok (Some (s, p), d) →
  (0 <= s <= 1)%Q ∧ ((s == 1)%Q → p = true).
Proof.
  unfold script_check. destruct (script_declared case) as [script|]; [|done].
  assert (∀ pass : bool,
            Ok (Some (if pass then 1%Q else 0%Q, pass),
                if pass then u "mentioned " ++ script else u "missing mention: " ++ script)
            = Ok (Some (s, p), d) →
            (0 <= s <= 1)%Q ∧ ((s == 1)%Q → p = true)) as Hmention.
  { intros pass [= <- <- _]. destruct pass; split; try done; lra. }
  destruct (script_validation case) as [[| | | | | |validation]|]; try apply Hmention.
  destruct (evaluate_script_numeric_checks py response script validation w)
    as [[[s' p'] d']|e] eqn:E; simpl; [|done].
  intros [= <- <- _]. apply numeric_check_ok in E. tauto.
Qed.

Lemma weighted_score_bounds (l : locals) :
  (0 <= sections_score l <= 1)%Q → (0 <= assumptions_score l <= 1)%Q →
  (0 <= keywords_score l <= 1)%Q → (0 <= refs_score l <= 1)%Q →
  (0 <= traits_score l <= 1)%Q →
  (∀ s, script_score l = Some s → (0 <= s <= 1)%Q) →
  (0 <= weighted_score (metric_scores l) <= 1)%Q.
Proof.
  intros Hs Ha Hk Hr Ht Hp. unfold metric_scores.
  destruct (script_score l) as [s|]; simpl app.
  - rewrite weighted_score_six. specialize (Hp s eq_refl). lra.
  - rewrite weighted_score_five.
    split.
    + apply Qle_shift_div_l; lra.
    + apply Qle_shift_div_r; lra.
Qed.

Lemma locals_script_bounded (case : Case) (template : Template) (response : text)
    (w : world) (l : locals) :
  case_locals py case template response w = Ok l →
  ∀ s, script_score l = Some s →
       (0 <= s <= 1)%Q ∧ ((s == 1)%Q → script_pass l = Some true).
Proof.
  intros H s Hs. apply case_locals_inv in H as (sc & Hsc & H).
  destruct H as (_ & _ & _ & _ & _ & _ & _ & _ & _ & _ & _ & _ & _ & _ & Hss & Hsp & _).
  rewrite Hss in Hs. rewrite Hsp. destruct sc as [[[s' p']|] d]; simpl in *; [|done].
  injection Hs as ->. apply script_check_ok in Hsc as [Hb Hone].
  split; [done|]. intros H1. by rewrite Hone.
Qed.

Lemma score_case_ok_range (case : Case) (template : Template) (response : option text)
    (min_score : Q) (allow : bool) (w : world) (r : CaseResult) :
  score_case py case template response min_score allow w = Ok r →
  (0 <= cr_score r <= 1)%Q
  ∧ Forall (λ ck, (0 <= ck_score ck <= 1)%Q) (cr_checks r).
Proof.
  intros E. destruct response as [response|].
  - apply score_case_ok_inv in E as (l & Hl & ->). simpl.
    pose proof (locals_scores_bounded py _ _ _ _ _ Hl) as (Hs & Ha & Hk & Hr & Ht).
    pose proof (locals_script_bounded _ _ _ _ _ Hl) as Hp.
    split.
    + apply round4_bounds, weighted_score_bounds; try done. intros s Hs'.
      by apply Hp.
    + unfold checks_of. apply Forall_app. split.
      * repeat (apply Forall_cons; split; [simpl; by apply round4_bounds|]).
        apply Forall_nil_2.
      * destruct (script_score l) as [s|] eqn:Es; [|apply Forall_nil_2].
        apply Forall_cons. split; [|apply Forall_nil_2]. simpl.
        apply round4_bounds. by apply Hp.
  - injection E as <-. simpl. split; [lra|].
    apply Forall_cons. split; [simpl; lra|apply Forall_nil_2].
Qed.

(** X3. Every score that [score_case] reports lies between 0 and 1: the
    score of the case and the score of each of its checks, with or without
    a response and with or without a script. What it raises comes from the
    numeric validation of the case. *)
Theorem score_case_scores_in_range
    (case : Case) (template : Template) (response : option text)
    (min_score : Q) (allow : bool) (w : world) :
  match score_case py case template response min_score allow w with
  | Raised e => case_raises py w case e
  | Ok r =>
    (0 <= cr_score r <= 1)%Q
    ∧ Forall (λ ck, (0 <= ck_score ck <= 1)%Q) (cr_checks r)
  end.
Proof.
  destruct (score_case py case template response min_score allow w) as [r|e] eqn:E.
  - by eapply score_case_ok_range.
  - by eapply score_case_raised_inv.
Qed.

Lemma ratio_found_full_iff (required missing : list text) :
  (length missing ≤ length required)%nat →
  is_empty missing = true ↔ (ratio_found required missing == 1)%Q.
Proof.
  intros Hlen. split.
  - destruct missing; [|done]. intros _. apply ratio_found_none_missing.
  - intros H. destruct required as [|r required].
    + destruct missing; [done|simpl in Hlen; lia].
    + unfold ratio_found in H. apply safe_ratio_one_inv in H; [|simpl; lia].
      destruct missing; [done|]. simpl length in H. lia.
Qed.

(** X4. In the five checks on the text of a response the verdict and the
    score say the same thing: the check passes exactly when its score is 1.
    For the script check a score of 1 comes with a pass. What the scorer
    raises instead comes from the numeric validation of the case. *)
Theorem check_passes_iff_full_score
    (case : Case) (template : Template) (response : text) (w : world) :
  match case_locals py case template response w with
  | Raised e => case_raises py w case e
  | Ok l =>
    (sections_pass l = true ↔ (sections_score l == 1)%Q)
    ∧ (assumptions_pass l = true ↔ (assumptions_score l == 1)%Q)
    ∧ (keywords_pass l = true ↔ (keywords_score l == 1)%Q)
    ∧ (refs_pass l = true ↔ (refs_score l == 1)%Q)
    ∧ (traits_pass l = true ↔ (traits_score l == 1)%Q)
    ∧ (∀ s, script_score l = Some s → (s == 1)%Q → script_pass l = Some true)
  end.
Proof.
  destruct (case_locals py case template response w) as [l|e] eqn:E;
    [|by eapply case_locals_raised_inv].
  pose proof (locals_script_bounded _ _ _ _ _ E) as Hp.
  apply case_locals_inv in E as (sc & _ & Hms & Hs & Hsp & _ & _ & Ha & Hmk & Hk & Hkp
    & Hmr & Hr & Hrp & Ht & Htp & _).
  rewrite Hs, Hsp, Hk, Hkp, Hr, Hrp, Ha, Htp.
  split; [apply ratio_found_full_iff; rewrite Hms; apply find_missing_sections_length|].
  split.
  { destruct (assumptions_pass l); split; done. }
  split; [apply ratio_found_full_iff; rewrite Hmk; apply not_mentioned_length|].
  split; [apply ratio_found_full_iff; rewrite Hmr; apply not_mentioned_length|].
  split; [|intros s Hs' H1; by apply (Hp s)].
  rewrite check_traits_filter in Ht. injection Ht as -> ->.
  pose proof (length_filter_split (trait_ok py response) (required_traits template)) as Hsplit.
  set (yes := filter (λ tr, trait_ok py response tr = true) (required_traits template)) in *.
  set (no := filter (λ tr, trait_ok py response tr = false) (required_traits template)) in *.
  clearbody yes no. split.
  - destruct no; [|done]. intros _. simpl in Hsplit.
    assert (length yes = length (required_traits template)) as -> by lia.
    apply safe_ratio_full.
  - intros H. destruct (required_traits template) as [|t0 traits] eqn:Et.
    + destruct no; [done|]. simpl in Hsplit. lia.
    + apply safe_ratio_one_inv in H; [|simpl; lia].
      destruct no; [done|]. simpl length in H, Hsplit. lia.
Qed.

(** X5. A case without [script_validation] is always scored, nothing is
    raised: its result never carries the reason
    [preferred_script_numeric_mismatch] and has no check named
    [preferred_script_numeric]; when it names a script, the check
    [preferred_script] passes exactly when the name of the script occurs in
    the response, letter case apart, and scores 1 or 0 accordingly. *)
Theorem unvalidated_script_is_mention_only
    (case : Case) (template : Template) (response : text)
    (min_score : Q) (allow : bool) (w : world) :
  script_validation case = None →
  ∃ r, score_case py case template (Some response) min_score allow w = Ok r
     ∧ (u "preferred_script_numeric_mismatch" ∉ cr_hard_fail_reasons r)
     ∧ find_check (u "preferred_script_numeric") r = None
     ∧ (∀ script, script_declared case = Some script →
          ∃ ck, find_check (u "preferred_script") r = Some ck
              ∧ ck_passed ck = contains (lower py script) (lower py response)
              ∧ (ck_score ck == (if ck_passed ck then 1 else 0))%Q).
Proof.
  intros Hv.
  assert (∃ sc, script_check py case response w = Ok sc
              ∧ ∀ script, script_declared case = Some script →
                  sc.1 = Some (if contains (lower py script) (lower py response)
                               then 1%Q else 0%Q,
                               contains (lower py script) (lower py response)))
    as (sc & Hsc & Hmention).
  { unfold script_check. rewrite Hv. destruct (script_declared case) as [script|].
    - eexists. split; [reflexivity|]. by intros ? [= <-].
    - eexists. split; [reflexivity|]. done. }
  destruct (case_locals_of_script_check py case template response w sc Hsc) as [l Hl].
  exists {| cr_id := case_id case; cr_title := case_title case;
            cr_category := case_category case;
            cr_score := round4 (weighted_score (metric_scores l));
            cr_passed := Qle_bool min_score (weighted_score (metric_scores l))
                         && is_empty (hard_fail_reasons case l);
            cr_skipped := false;
            cr_hard_fail_reasons := hard_fail_reasons case l;
            cr_checks := checks_of case template l |}.
  split; [by apply score_case_of_locals|].
  apply case_locals_inv in Hl as (sc' & Hsc' & H).
  rewrite Hsc in Hsc'. injection Hsc' as <-.
  destruct H as (_ & _ & _ & _ & _ & _ & _ & _ & _ & _ & _ & _ & _ & _ & Hss & Hsp & _).
  cbn [cr_hard_fail_reasons cr_checks]. split; [|split].
  - unfold hard_fail_reasons. rewrite Hv. cbn [is_Some_b]. rewrite andb_false_r.
    cbn [andb]. rewrite app_nil_r. intros Hin. apply elem_of_app in Hin as [Hin|Hin].
    + destruct (sections_pass l); [by apply elem_of_nil in Hin|].
      apply list_elem_of_singleton in Hin. vm_compute in Hin. discriminate Hin.
    + destruct (assumptions_pass l); [by apply elem_of_nil in Hin|].
      apply list_elem_of_singleton in Hin. vm_compute in Hin. discriminate Hin.
  - unfold find_check, checks_of. rewrite Hv. cbn [is_Some_b cr_checks app].
    do 5 skip_check. destruct (script_score l); [|done]. by skip_check.
  - intros script Hd. specialize (Hmention script Hd).
    unfold find_check, checks_of. rewrite Hv. cbn [is_Some_b cr_checks app].
    do 5 skip_check. rewrite Hss, Hsp, Hmention. unfold fmap, option_fmap, option_map.
    cbn [fst snd]. take_check. eexists. split; [reflexivity|]. cbn [ck_passed ck_score bool_of default].
    split; [done|]. by destruct (contains (lower py script) (lower py response)).
Qed.

End Ranges.

(** ** Counting assumptions *)

Lemma linebreak_is_space (c : N) : is_linebreak c = true → is_space c = true.
Proof.
  unfold is_linebreak, is_space.
  rewrite !orb_true_iff, !andb_true_iff, !N.leb_le, !N.eqb_eq. lia.
Qed.

Lemma lstrip_nil_spaces (s : text) : lstrip s = [] → Forall (λ c, is_space c = true) s.
Proof.
  intros H. destruct (lstrip_suffix s) as (p & Hp & Hall).
  rewrite H, app_nil_r in Hp. by subst p.
Qed.

(** A line is not blank exactly when it holds a visible character. *)
Lemma nonblank_visible (s : text) :
  nonblank s = true ↔ ∃ c, c ∈ s ∧ is_space c = false.
Proof.
  unfold nonblank, strip. pose proof (lstrip_rstrip_head s) as H.
  destruct (lstrip s) as [|ch r] eqn:El.
  - rewrite H. split; [done|]. intros (c & Hc & Hv).
    apply lstrip_nil_spaces in El. rewrite Forall_forall in El.
    specialize (El c Hc). congruence.
  - rewrite H. split; [|done]. intros _. exists ch.
    split; [|by eapply lstrip_head_visible].
    destruct (lstrip_suffix s) as (p & Hp & _). rewrite Hp, El.
    apply elem_of_app. right. by left.
Qed.

Lemma splitlines_from_visible (cur s : text) (c : N) :
  c ∈ cur ++ s → is_space c = false →
  ∃ line, line ∈ splitlines_from cur s ∧ c ∈ line.
Proof.
  intros Hin Hv. revert cur Hin. induction s as [|a s IH]; intros cur Hin.
  - rewrite app_nil_r in Hin. simpl. destruct cur as [|c0 cur]; [by apply elem_of_nil in Hin|].
    eexists. split; [by left|done].
  - assert (is_linebreak a = true →
            ∃ line, line ∈ cur :: splitlines_from [] s ∧ c ∈ line) as Hbreak.
    { intros Ha. apply linebreak_is_space in Ha.
      apply elem_of_app in Hin as [Hin|Hin]; [exists cur; split; [by left|done]|].
      apply elem_of_cons in Hin as [->|Hin]; [congruence|].
      destruct (IH [] Hin) as (line & Hl & Hc). exists line. split; [by right|done]. }
    simpl. destruct (a =? 13)%N eqn:E13.
    + apply N.eqb_eq in E13. subst a. specialize (Hbreak eq_refl).
      destruct s as [|b s']; [done|].
      destruct (decide (b = 10%N)) as [->|Hb].
      * destruct Hbreak as (line & Hl & Hc). exists line. split; [|done].
        apply elem_of_cons in Hl as [->|Hl]; [by left|]. right.
        simpl in Hl. apply elem_of_cons in Hl as [->|Hl]; [by apply elem_of_nil in Hc|done].
      * destruct b as [|p]; [done|].
        do 4 (destruct p as [p|p|]; try done).
    + destruct (is_linebreak a) eqn:Eb; [by apply Hbreak|].
      apply IH. rewrite <- app_assoc. done.
Qed.

Section AssumptionCount.
Variable py : builtins.

Lemma count_in_body_zero (body : text) :
  strip body = body → count_in_body py body = 0%nat → body = [].
Proof.
  intros Hs H. destruct body as [|c0 body']; [done|]. exfalso.
  set (body := c0 :: body') in *.
  assert (nonblank body = true) as Hnb by (unfold nonblank; by rewrite Hs).
  apply nonblank_visible in Hnb as (c & Hc & Hv).
  destruct (splitlines_from_visible [] body c Hc Hv) as (line & Hline & Hcl).
  assert (rstrip line ∈ filter (λ l, nonblank l = true) (map rstrip (splitlines body)))
    as Hin.
  { apply list_elem_of_filter. split.
    - rewrite nonblank_rstrip. apply nonblank_visible. eauto.
    - apply list_elem_of_fmap. by exists line. }
  unfold count_in_body in H. fold body in H. cbv zeta in H.
  change (match body with [] => 0%nat | _ :: _ =>
            if (0 <? _count_table_rows (map rstrip (splitlines body)))%nat
            then _count_table_rows (map rstrip (splitlines body))
            else if (0 <? length (filter (λ line, search (LIST_ROW_RE py) line = true)
                                   (map rstrip (splitlines body))))%nat
                 then length (filter (λ line, search (LIST_ROW_RE py) line = true)
                                (map rstrip (splitlines body)))
                 else length (filter (λ line, nonblank line = true)
                                (map rstrip (splitlines body)))
          end = 0%nat) in H.
  subst body. cbv iota in H.
  destruct (0 <? _)%nat eqn:E1 in H; [apply Nat.ltb_lt in E1; lia|].
  destruct (0 <? _)%nat eqn:E2 in H; [apply Nat.ltb_lt in E2; lia|].
  apply length_zero_iff_nil in H. rewrite H in Hin. by apply elem_of_nil in Hin.
Qed.

(** X6. [count_assumptions] returns 0 exactly when the text has no section
    named "가정" or that section has an empty body; a body with any visible
    character counts at least one assumption. *)
Theorem count_assumptions_zero_iff (t : text) :
  count_assumptions py t = 0%nat
  ↔ parse_sections t !! ASSUMPTIONS = None ∨ parse_sections t !! ASSUMPTIONS = Some [].
Proof.
  unfold count_assumptions.
  destruct (parse_sections t !! ASSUMPTIONS) as [body|] eqn:E; simpl.
  - pose proof (parse_sections_stripped _ _ _ E) as Hs. rewrite Hs. split.
    + intros H. right. f_equal. by apply count_in_body_zero.
    + intros [H|[= ->]]; done.
  - split; [by left|done].
Qed.

End AssumptionCount.

(** ** Paths into the output of a script *)

Lemma split_from_app (sep : N) (cur p q : text) :
  split_from sep cur (p ++ sep :: q) = split_from sep cur p ++ split_from sep [] q.
Proof.
  revert cur. induction p as [|c p IH]; intros cur; simpl.
  - by rewrite N.eqb_refl.
  - destruct (c =? sep)%N; [by rewrite IH|apply IH].
Qed.

Section Paths.
Variable py : builtins.

Lemma descend_none (tokens : list text) :
  foldl (λ current raw_token, current ≫= λ c, descend py c raw_token) None tokens = None.
Proof. by induction tokens. Qed.

(** X7. Paths compose: resolving [p.q] is resolving [p] and then [q] from
    the value found, and fails when either step fails; the empty path
    resolves to the payload itself. *)
Theorem value_at_path_composes (payload : json) (p q : text) :
  _value_at_path py payload (p ++ u "." ++ q)
  = (_value_at_path py payload p ≫= λ v, _value_at_path py v q)
  ∧ _value_at_path py payload [] = Some payload.
Proof.
  split; [|done]. unfold _value_at_path, split. change (u ".") with [46%N]. simpl app.
  rewrite split_from_app, foldl_app.
  destruct (foldl _ (Some payload) (split_from 46 [] p)) as [v|]; [done|].
  apply descend_none.
Qed.

End Paths.

(** ** The run as a whole *)

Lemma mapM_ok_inv {A B : Type} (f : A → outcome B) (l : list A) (ys : list B) :
  mapM f l = Ok ys → Forall2 (λ x y, f x = Ok y) l ys.
Proof.
  revert ys. induction l as [|a l IH]; intros ys; simpl.
  - intros [= <-]. constructor.
  - destruct (f a) as [b|e] eqn:Ea; simpl; [|done].
    destruct (mapM f l) as [bs|e] eqn:El; simpl; [|done].
    intros [= <-]. constructor; [done|by apply IH].
Qed.

Lemma length_filter_full {A : Type} (P : A → Prop) `{!∀ x, Decision (P x)} (l : list A) :
  length (filter P l) = length l ↔ Forall P l.
Proof.
  induction l as [|a l IH]; [by split|]. rewrite filter_cons.
  pose proof (length_filter P l) as Hle.
  destruct (decide (P a)) as [Ha|Ha]; simpl; split.
  - intros Hl. constructor; [done|]. apply IH. lia.
  - intros Hl. apply Forall_cons in Hl as [_ Hl]. apply IH in Hl. lia.
  - lia.
  - intros Hl. by apply Forall_cons in Hl as [Hl _].
Qed.

Lemma Forall2_in_r {A B : Type} (R : A → B → Prop) (l : list A) (k : list B) (y : B) :
  Forall2 R l k → y ∈ k → ∃ x, x ∈ l ∧ R x y.
Proof.
  induction 1 as [|x y' l k Hxy _ IH]; intros Hin; [by apply elem_of_nil in Hin|].
  apply elem_of_cons in Hin as [->|Hin].
  - exists x. split; [by left|done].
  - destruct (IH Hin) as (x' & Hx' & HR). exists x'. split; [by right|done].
Qed.

Lemma Forall2_in_l {A B : Type} (R : A → B → Prop) (l : list A) (k : list B) (x : A) :
  Forall2 R l k → x ∈ l → ∃ y, y ∈ k ∧ R x y.
Proof.
  induction 1 as [|x' y l k Hxy _ IH]; intros Hin; [by apply elem_of_nil in Hin|].
  apply elem_of_cons in Hin as [->|Hin].
  - exists y. split; [by left|done].
  - destruct (IH Hin) as (y' & Hy' & HR). exists y'. split; [by right|done].
Qed.

Lemma foldl_Qplus_bounds (acc : Q) (l : list Q) :
  Forall (λ q, (0 <= q <= 1)%Q) l →
  (acc <= foldl Qplus acc l <= acc + inject_Z (Z.of_nat (length l)))%Q.
Proof.
  intros H. revert acc. induction H as [|q l Hq _ IH]; intros acc.
  - change (acc <= acc <= acc + 0)%Q. lra.
  - simpl foldl. specialize (IH (acc + q)%Q).
    replace (Z.of_nat (length (q :: l))) with (Z.of_nat (length l) + 1)
      by (simpl length; lia).
    rewrite inject_Z_plus. change (inject_Z 1) with 1%Q. lra.
Qed.

Lemma suite_score_bounds (case_results : list CaseResult) :
  Forall (λ r, (0 <= cr_score r <= 1)%Q) case_results →
  (0 <= suite_score case_results <= 1)%Q.
Proof.
  intros H. unfold suite_score.
  set (evaluated := evaluated_cases case_results).
  destruct (0 <? length evaluated)%nat eqn:E; [|lra].
  apply Nat.ltb_lt in E.
  assert (Forall (λ q, (0 <= q <= 1)%Q) (map cr_score evaluated)) as Hq.
  { apply Forall_fmap. subst evaluated. unfold evaluated_cases.
    apply Forall_forall. intros r Hr. apply list_elem_of_filter in Hr as [_ Hr].
    rewrite Forall_forall in H. by apply H. }
  pose proof (foldl_Qplus_bounds 0 _ Hq) as Hsum. rewrite length_map in Hsum.
  unfold _safe_ratio. rewrite (proj2 (Z.leb_gt _ 0)) by lia.
  assert (0 < inject_Z (Z.of_nat (length evaluated)))%Q as Hpos
    by (unfold Qlt; simpl; lia).
  split.
  - apply Qle_shift_div_l; [done|]. lra.
  - apply Qle_shift_div_r; [done|]. lra.
Qed.

Lemma case_passed_le (case_results : list CaseResult) :
  (case_passed case_results ≤ length (evaluated_cases case_results)
   ≤ length case_results)%nat.
Proof. unfold case_passed, evaluated_cases. split; apply length_filter. Qed.

Section Run.
Variable py : builtins.

Lemma score_case_skipped (case : Case) (template : Template) (response : option text)
    (min_score : Q) (allow : bool) (w : world) (r : CaseResult) :
  score_case py case template response min_score allow w = Ok r →
  cr_skipped r = match response with Some _ => false | None => allow end
  ∧ (response = None → cr_passed r = false).
Proof.
  destruct response as [response|]; intros E.
  - apply score_case_ok_inv in E as (l & _ & ->). done.
  - injection E as <-. done.
Qed.

Lemma preferred_scripts_spec (cases : list Case) :
  NoDup (preferred_scripts cases)
  ∧ ∀ s, s ∈ preferred_scripts cases ↔ ∃ case, case ∈ cases ∧ script_declared case = Some s.
Proof.
  unfold preferred_scripts.
  assert (∀ acc, NoDup acc →
            NoDup (foldl (λ preferred case,
                            match script_declared case with
                            | Some value => if decide (value ∈ preferred) then preferred
                                            else preferred ++ [value]
                            | None => preferred
                            end) acc cases)
            ∧ ∀ s, s ∈ foldl (λ preferred case,
                                match script_declared case with
                                | Some value => if decide (value ∈ preferred) then preferred
                                                else preferred ++ [value]
                                | None => preferred
                                end) acc cases
                   ↔ s ∈ acc ∨ ∃ case, case ∈ cases ∧ script_declared case = Some s) as H.
  { induction cases as [|case cases IH]; intros acc Hacc; simpl.
    - split; [done|]. intros s. split; [by left|].
      intros [H|(case & Hin & _)]; [done|by apply elem_of_nil in Hin].
    - destruct (script_declared case) as [value|] eqn:Ed.
      + destruct (decide (value ∈ acc)) as [Hin|Hnin].
        * destruct (IH acc Hacc) as [Hnd Hmem]. split; [done|]. intros s. rewrite Hmem.
          split.
          -- intros [H|(c & Hc & Hs)]; [by left|]. right. exists c. split; [by right|done].
          -- intros [H|(c & Hc & Hs)]; [by left|].
             apply elem_of_cons in Hc as [->|Hc]; [|right; eauto].
             left. congruence.
        * destruct (IH (acc ++ [value])) as [Hnd Hmem].
          { apply NoDup_app. split; [done|]. split; [|apply NoDup_singleton].
            intros x Hx Hx'. apply list_elem_of_singleton in Hx'. by subst x. }
          split; [done|]. intros s. rewrite Hmem, elem_of_app, list_elem_of_singleton.
          split.
          -- intros [[H| ->]|(c & Hc & Hs)]; [by left| |].
             ++ right. exists case. split; [by left|done].
             ++ right. exists c. split; [by right|done].
          -- intros [H|(c & Hc & Hs)]; [by left; left|].
             apply elem_of_cons in Hc as [->|Hc]; [|right; eauto].
             left. right. congruence.
      + destruct (IH acc Hacc) as [Hnd Hmem]. split; [done|]. intros s. rewrite Hmem.
        split.
        * intros [H|(c & Hc & Hs)]; [by left|]. right. exists c. split; [by right|done].
        * intros [H|(c & Hc & Hs)]; [by left|].
          apply elem_of_cons in Hc as [->|Hc]; [congruence|right; eauto]. }
  destruct (H [] (NoDup_nil_2)) as [Hnd Hmem]. split; [done|].
  intros s. rewrite Hmem. split; [|by right].
  intros [Hin|Hc]; [by apply elem_of_nil in Hin|done].
Qed.

Lemma health_check_script (w : world) (script : text) (res : ScriptResult) :
  health_check py w script = Ok res → sr_script res = script.
Proof.
  unfold health_check. intros H.
  repeat (case_match; try discriminate); by injection H as <-.
Qed.

Lemma health_checks_names (w : world) (scripts : list text) (results : list ScriptResult) :
  Forall2 (λ script res, health_check py w script = Ok res) scripts results →
  map sr_script results = scripts.
Proof.
  induction 1 as [|script res scripts results Hh _ IH]; [done|].
  simpl. rewrite IH. f_equal. by eapply health_check_script.
Qed.

Lemma execute_ok_inv (cases : list Case) (w : world) (checks : ScriptChecks) :
  execute_preferred_scripts py cases w = Ok checks →
  Forall2 (λ script res, health_check py w script = Ok res)
          (preferred_scripts cases) (sc_results checks)
  ∧ sc_passed checks
    = (length (filter (λ item, sr_passed item = true) (sc_results checks))
       =? length (sc_results checks))%nat
  ∧ sc_score checks
    = round4 (_safe_ratio
                (inject_Z (Z.of_nat (length (filter (λ item, sr_passed item = true)
                                               (sc_results checks)))))
                (Z.of_nat (length (sc_results checks)))).
Proof.
  unfold execute_preferred_scripts.
  destruct (mapM (health_check py w) (preferred_scripts cases)) as [results|e] eqn:E;
    simpl; [|done].
  intros [= <-]. simpl. split; [by apply mapM_ok_inv|done].
Qed.

Lemma execute_raised_inv (cases : list Case) (w : world) (e : exn) :
  execute_preferred_scripts py cases w = Raised e →
  ∃ script, script ∈ preferred_scripts cases
          ∧ e = TimeoutExpired (health_cmd w script) 30.
Proof.
  unfold execute_preferred_scripts. intros E.
  destruct (mapM (health_check py w) (preferred_scripts cases)) as [results|e'] eqn:Em;
    simpl in E; [done|].
  injection E as <-. apply mapM_raised_from in Em as (script & Hin & Hs).
  exists script. split; [done|]. by eapply health_check_raised_inv.
Qed.

(** X8. The health checks run each distinct script of the cases once, in
    the order in which the cases first name them; the batch passes exactly
    when every entry passed, and its score lies between 0 and 1: it is 1
    when no case names a script. The only exception that leaves the batch
    is the timeout of one of these runs. *)
Theorem health_checks_cover_each_script_once (cases : list Case) (w : world) :
  match execute_preferred_scripts py cases w with
  | Raised e =>
    ∃ script, script ∈ preferred_scripts cases
            ∧ e = TimeoutExpired (health_cmd w script) 30
  | Ok checks =>
    map sr_script (sc_results checks) = preferred_scripts cases
    ∧ NoDup (map sr_script (sc_results checks))
    ∧ (∀ s, s ∈ map sr_script (sc_results checks)
            ↔ ∃ case, case ∈ cases ∧ script_declared case = Some s)
    ∧ (sc_passed checks = true
       ↔ Forall (λ res, sr_passed res = true) (sc_results checks))
    ∧ (0 <= sc_score checks <= 1)%Q
    ∧ (sc_results checks = [] → (sc_score checks == 1)%Q)
  end.
Proof.
  destruct (execute_preferred_scripts py cases w) as [checks|e] eqn:E.
  - apply execute_ok_inv in E as (Hres & Hpass & Hscore).
    assert (map sr_script (sc_results checks) = preferred_scripts cases) as Hnames
      by (by eapply health_checks_names).
    destruct (preferred_scripts_spec cases) as [Hnd Hmem].
    rewrite Hnames. split; [done|]. split; [done|]. split; [done|]. split; [|split].
    + rewrite Hpass. split.
      * intros H. apply Nat.eqb_eq in H. by apply length_filter_full in H.
      * intros H. apply Nat.eqb_eq. by apply length_filter_full.
    + rewrite Hscore. apply round4_bounds, safe_ratio_bounds.
      split; [lia|]. apply inj_le, length_filter.
    + intros Hnil. rewrite Hscore, Hnil. reflexivity.
  - unfold execute_preferred_scripts in E.
    destruct (mapM (health_check py w) (preferred_scripts cases)) as [results|e'] eqn:Em;
      simpl in E; [done|].
    injection E as <-. apply mapM_raised_from in Em as (script & Hin & Hs).
    exists script. split; [done|]. by eapply health_check_raised_inv.
Qed.

Lemma build_report_ok_inv (suite : Suite) (lint_issues : list text) (case_ids : option text)
    (responses : gmap text text) (args : Args) (w : world) (s : Summary) :
  build_report py suite lint_issues case_ids responses args w = Ok s →
  ∃ results checks,
    Forall2 (λ case r,
               score_case py case
                 (default empty_template (templates suite !! expected_template case))
                 (responses !! case_id case) (min_case_score args)
                 (allow_missing_cases args) w = Ok r)
            (filter_cases (cases suite) (parse_case_ids case_ids)) results
    ∧ (if check_scripts args
       then execute_preferred_scripts py (cases suite) w = Ok checks
       else checks = script_checks_disabled)
    ∧ s = summarize (is_empty lint_issues) results checks (min_suite_score args).
Proof.
  unfold build_report, score_cases. cbn [cases templates].
  destruct (mapM _ (filter_cases (cases suite) (parse_case_ids case_ids)))
    as [results|e] eqn:Em; simpl; [|done].
  apply mapM_ok_inv in Em.
  destruct (check_scripts args).
  - destruct (execute_preferred_scripts py (cases suite) w) as [checks|e] eqn:Ee;
      simpl; [|done].
    intros [= <-]. by exists results, checks.
  - simpl. intros [= <-]. by exists results, script_checks_disabled.
Qed.

Lemma build_report_raised_inv (suite : Suite) (lint_issues : list text)
    (case_ids : option text) (responses : gmap text text) (args : Args) (w : world)
    (e : exn) :
  build_report py suite lint_issues case_ids responses args w = Raised e →
  (∃ case, case ∈ filter_cases (cases suite) (parse_case_ids case_ids)
         ∧ case_raises py w case e)
  ∨ (check_scripts args = true
     ∧ ∃ script, script ∈ preferred_scripts (cases suite)
               ∧ e = TimeoutExpired (health_cmd w script) 30).
Proof.
  unfold build_report, score_cases. cbn [cases templates].
  destruct (mapM _ (filter_cases (cases suite) (parse_case_ids case_ids)))
    as [results|e'] eqn:Em; simpl.
  - destruct (check_scripts args); [|done].
    destruct (execute_preferred_scripts py (cases suite) w) as [checks|e'] eqn:Ee;
      simpl; [done|].
    intros [= <-]. right. split; [done|]. by apply execute_raised_inv.
  - intros [= <-]. left. apply mapM_raised_from in Em as (case & Hin & Hc).
    exists case. split; [done|]. by eapply score_case_raised_inv.
Qed.

(** X9. The summary of a run counts the selected cases; of these no more
    are evaluated, and of the evaluated no more have passed; the suite score
    lies between 0 and 1; unless missing responses are tolerated every
    selected case is evaluated; and a run that evaluated no case has not
    passed and has the suite score 0. What the run raises comes from the
    numeric validation of a selected case or from the timeout of a health
    check. *)
Theorem build_report_summary_invariants
    (suite : Suite) (lint_issues : list text) (case_ids : option text)
    (responses : gmap text text) (args : Args) (w : world) :
  match build_report py suite lint_issues case_ids responses args w with
  | Raised e =>
    (∃ case, case ∈ filter_cases (cases suite) (parse_case_ids case_ids)
           ∧ case_raises py w case e)
    ∨ (check_scripts args = true
       ∧ ∃ script, script ∈ preferred_scripts (cases suite)
                 ∧ e = TimeoutExpired (health_cmd w script) 30)
  | Ok s =>
    cases_total s = length (filter_cases (cases suite) (parse_case_ids case_ids))
    ∧ (cases_passed s ≤ cases_evaluated s ≤ cases_total s)%nat
    ∧ (0 <= sm_suite_score s <= 1)%Q
    ∧ (allow_missing_cases args = false → cases_evaluated s = cases_total s)
    ∧ (cases_evaluated s = 0%nat →
       overall_passed s = false ∧ (sm_suite_score s == 0)%Q)
  end.
Proof.
  destruct (build_report py suite lint_issues case_ids responses args w) as [s|e] eqn:E;
    [|by eapply build_report_raised_inv].
  apply build_report_ok_inv in E as (results & checks & Hres & _ & ->).
  cbn [cases_total cases_passed cases_evaluated sm_suite_score overall_passed summarize].
  assert (Forall (λ r, (0 <= cr_score r <= 1)%Q) results) as Hrange.
  { apply Forall_forall. intros r Hr.
    destruct (Forall2_in_r _ _ _ _ Hres Hr) as (case & _ & Hc).
    by apply score_case_ok_range in Hc as [Hc _]. }
  split; [symmetry; by eapply Forall2_length|].
  split; [apply case_passed_le|].
  split; [by apply round4_bounds, suite_score_bounds|]. split.
  - intros Hallow. unfold evaluated_cases. apply length_filter_full.
    apply Forall_forall. intros r Hr.
    destruct (Forall2_in_r _ _ _ _ Hres Hr) as (case & _ & Hc).
    apply score_case_skipped in Hc as [-> _]. rewrite Hallow. by case_match.
  - intros Hzero. unfold suite_score. rewrite Hzero. simpl.
    by rewrite andb_false_r.
Qed.


Lemma main_zero_inv (report : outcome Summary) :
  main report = 0 → ∃ s, report = Ok s ∧ overall_passed s = true.
Proof.
  unfold main. destruct report as [s|e]; [|done].
  destruct (overall_passed s) eqn:E; [eauto|done].
Qed.

(** X10. A run ends with exit status 0 only if the lint found no issue and
    at least one selected case has a response; and unless missing responses
    are tolerated, only if every selected case has one. *)
Theorem exit_status_zero_needs_responses
    (suite : Suite) (lint_issues : list text) (case_ids : option text)
    (responses : gmap text text) (args : Args) (w : world) :
  main (build_report py suite lint_issues case_ids responses args w) = 0 →
  lint_issues = []
  ∧ (∃ case, case ∈ filter_cases (cases suite) (parse_case_ids case_ids)
           ∧ is_Some (responses !! case_id case))
  ∧ (allow_missing_cases args = false →
     ∀ case, case ∈ filter_cases (cases suite) (parse_case_ids case_ids) →
             is_Some (responses !! case_id case)).
Proof.
  intros Hmain. apply main_zero_inv in Hmain as (s & Hs & Hpass).
  apply build_report_ok_inv in Hs as (results & checks & Hres & _ & ->).
  cbn [overall_passed summarize] in Hpass.
  apply andb_true_iff in Hpass as [Hpass _].
  apply andb_true_iff in Hpass as [Hpass Hall].
  apply andb_true_iff in Hpass as [Hpass _].
  apply andb_true_iff in Hpass as [Hlint Hsome].
  apply Nat.eqb_eq in Hall. apply Nat.ltb_lt in Hsome.
  unfold case_passed in Hall. apply length_filter_full in Hall.
  rewrite Forall_forall in Hall.
  assert (∀ case r, score_case py case
                      (default empty_template (templates suite !! expected_template case))
                      (responses !! case_id case) (min_case_score args)
                      (allow_missing_cases args) w = Ok r →
                    r ∈ evaluated_cases results →
                    is_Some (responses !! case_id case)) as Hresp.
  { intros case r Hc Hr. specialize (Hall r Hr).
    apply score_case_skipped in Hc as [_ Hc].
    destruct (responses !! case_id case); [done|]. rewrite Hc in Hall; done. }
  split; [by destruct lint_issues|]. split.
  - assert (∃ r, r ∈ evaluated_cases results) as [r Hr].
    { destruct (evaluated_cases results) as [|r rest]; [simpl in Hsome; lia|].
      exists r. by left. }
    assert (r ∈ results) as Hr'.
    { unfold evaluated_cases in Hr. by apply list_elem_of_filter in Hr as [_ Hr]. }
    destruct (Forall2_in_r _ _ _ _ Hres Hr') as (case & Hin & Hc).
    exists case. split; [done|]. exact (Hresp case r Hc Hr).
  - intros Hallow case Hin.
    destruct (Forall2_in_l _ _ _ _ Hres Hin) as (r & Hr & Hc).
    apply (Hresp case r Hc). unfold evaluated_cases. apply list_elem_of_filter.
    split; [|done]. apply score_case_skipped in Hc as [-> _]. rewrite Hallow.
    by case_match.
Qed.

(** X11. With [--check-scripts], a script of any case of the suite,
    selected or not, whose health check fails keeps the run from exit
    status 0. *)
Theorem failing_health_check_fails_run
    (suite : Suite) (lint_issues : list text) (case_ids : option text)
    (responses : gmap text text) (args : Args) (w : world)
    (script : text) (res : ScriptResult) :
  check_scripts args = true →
  (∃ case, case ∈ cases suite ∧ script_declared case = Some script) →
  health_check py w script = Ok res →
  sr_passed res = false →
  main (build_report py suite lint_issues case_ids responses args w) ≠ 0.
Proof.
  intros Hcheck Hcase Hh Hfail Hmain.
  apply main_zero_inv in Hmain as (s & Hs & Hpass).
  apply build_report_ok_inv in Hs as (results & checks & _ & Hchecks & ->).
  rewrite Hcheck in Hchecks.
  cbn [overall_passed summarize] in Hpass.
  apply andb_true_iff in Hpass as [_ Hpass].
  apply execute_ok_inv in Hchecks as (Hres & Hsc & _).
  rewrite Hsc in Hpass. apply Nat.eqb_eq in Hpass. apply length_filter_full in Hpass.
  rewrite Forall_forall in Hpass.
  apply (proj2 (preferred_scripts_spec (cases suite))) in Hcase.
  destruct (Forall2_in_l _ _ _ _ Hres Hcase) as (res' & Hin & Hh').
  rewrite Hh in Hh'. injection Hh' as <-.
  specialize (Hpass res Hin). simpl in Hpass. congruence.
Qed.

End Run.

(** ** Selection of cases *)

Lemma split_from_tokens (sep : N) (cur s tok : text) :
  tok ∈ split_from sep cur s →
  ∀ c, c ∈ tok → c ∈ cur ++ s ∧ (c ∈ cur ∨ c ≠ sep).
Proof.
  revert cur. induction s as [|a s IH]; intros cur Hin c Hc.
  - simpl in Hin. apply list_elem_of_singleton in Hin. subst tok.
    rewrite app_nil_r. split; [done|by left].
  - simpl in Hin. destruct (a =? sep)%N eqn:E.
    + apply elem_of_cons in Hin as [->|Hin].
      * split; [apply elem_of_app; by left|by left].
      * destruct (IH [] Hin c Hc) as [H1 H2]. simpl in H1. split.
        -- apply elem_of_app. right. by right.
        -- destruct H2 as [H2|H2]; [by apply elem_of_nil in H2|by right].
    + apply N.eqb_neq in E. destruct (IH (cur ++ [a]) Hin c Hc) as [H1 H2]. split.
      * by rewrite <- app_assoc in H1.
      * destruct H2 as [H2|H2]; [|by right].
        apply elem_of_app in H2 as [H2|H2]; [by left|].
        apply list_elem_of_singleton in H2. subst c. by right.
Qed.

Lemma lstrip_subseteq (s : text) (c : N) : c ∈ lstrip s → c ∈ s.
Proof.
  intros H. destruct (lstrip_suffix s) as (p & Hp & _). rewrite Hp.
  apply elem_of_app. by right.
Qed.

Lemma strip_subseteq (s : text) (c : N) : c ∈ strip s → c ∈ s.
Proof.
  unfold strip, rstrip. intros H. apply lstrip_subseteq in H.
  apply list_elem_of_In, in_rev, list_elem_of_In, lstrip_subseteq in H.
  by apply list_elem_of_In, in_rev, list_elem_of_In in H.
Qed.

Lemma strip_spaces (s : text) : Forall (λ c, is_space c = true) s → strip s = [].
Proof. intros H. unfold strip. by rewrite rstrip_spaces. Qed.

(** X12. The ids that [parse_case_ids] returns are not empty, trimmed and
    free of commas, and it returns none only for a missing or empty option;
    so a non-empty selection keeps only cases of the suite whose id has
    this form. *)
Theorem parse_case_ids_selectable (raw : option text) :
  match parse_case_ids raw with
  | None => raw = None ∨ raw = Some []
  | Some ids =>
    Forall selectable ids
    ∧ (ids ≠ [] → ∀ cases case,
         case ∈ filter_cases cases (Some ids) →
         case ∈ cases ∧ selectable (case_id case))
  end.
Proof.
  destruct raw as [[|c0 raw]|]; simpl; [by right| |by left].
  set (ids := filter (λ value, value ≠ []) (map strip (split 44 (c0 :: raw)))).
  assert (Forall selectable ids) as Hids.
  { apply Forall_forall. intros id Hid. subst ids.
    apply list_elem_of_filter in Hid as [Hne Hid].
    apply list_elem_of_fmap in Hid as (tok & -> & Htok).
    split; [done|]. split; [apply strip_idemp|].
    intros Hc. apply strip_subseteq in Hc.
    destruct (split_from_tokens _ _ _ _ Htok _ Hc) as [_ [H|H]]; [|done].
    by apply elem_of_nil in H. }
  split; [done|]. intros Hne cases case Hin.
  destruct ids as [|id ids'] eqn:E; [done|].
  change (filter_cases cases (Some (id :: ids')))
    with (filter (λ case, case_id case ∈ (list_to_set (id :: ids') : gset text)) cases)
    in Hin.
  apply list_elem_of_filter in Hin as [Hw Hin]. split; [done|].
  apply elem_of_list_to_set in Hw. rewrite Forall_forall in Hids. by apply Hids.
Qed.

Lemma split_blank_tokens (raw : text) :
  Forall (λ c, separator c = true) raw →
  filter (λ value : text, value ≠ []) (map strip (split 44 raw)) = [].
Proof.
  intros Hraw. rewrite Forall_forall in Hraw.
  assert (Forall (λ value : text, ¬ value ≠ []) (map strip (split 44 raw))) as Hall.
  { apply Forall_forall. intros value Hv Hne.
    apply list_elem_of_fmap in Hv as (tok & -> & Htok). apply Hne, strip_spaces.
    apply Forall_forall. intros c Hc.
    destruct (split_from_tokens _ _ _ _ Htok _ Hc) as [Hin [H|H]];
      [by apply elem_of_nil in H|].
    simpl in Hin. specialize (Hraw c Hin). unfold separator in Hraw.
    apply orb_true_iff in Hraw as [Hraw|Hraw]; [|done].
    by apply N.eqb_eq in Hraw. }
  induction Hall as [|value values Hv _ IH]; [done|].
  by rewrite filter_cons, decide_False.
Qed.

(** X13. An option [--case-ids] made of commas and white space only selects
    every case, like a missing option: no id is left after trimming, and
    [filter_cases] reads an empty selection as no selection. *)
Theorem blank_case_ids_select_all (raw : text) (cases : list Case) :
  Forall (λ c, separator c = true) raw →
  filter_cases cases (parse_case_ids (Some raw)) = cases
  ∧ filter_cases cases (parse_case_ids None) = cases.
Proof.
  intros Hraw. split; [|done]. destruct raw as [|c0 raw]; [done|].
  unfold parse_case_ids. cbv zeta. by rewrite split_blank_tokens.
Qed.

(** ** Lint of the suite *)

Lemma is_Some_b_true {A : Type} (o : option A) : is_Some_b o = true ↔ is_Some o.
Proof.
  destruct o; simpl; split; done.
Qed.

Section LintProperties.
Variable py : builtins.

Lemma lint_rule_clean (case_id : text) (ridx : nat) (rule : json) :
  lint_rule case_id ridx rule = [] ↔ well_formed_rule rule.
Proof.
  unfold lint_rule, well_formed_rule. destruct rule as [| | | | | |d];
    try (split; [done|by intros (? & ? & _)]).
  destruct (nonblank_str (dict_get (u "path") d)) eqn:E1; simpl.
  - split; [|done]. intros _. exists d. split; [done|]. left. by rewrite E1.
  - destruct (nonblank_str (dict_get (u "json_path") d)) eqn:E2.
    + split; [|done]. intros _. exists d. split; [done|]. right. by rewrite E2.
    + split; [done|]. intros (d' & [= <-] & [H|H]); congruence.
Qed.

Lemma lint_rules_clean (case_id : text) (f : nat → nat) (rules : list json) :
  concat (imap (λ i rule, lint_rule case_id (f i) rule) rules) = []
  ↔ Forall well_formed_rule rules.
Proof.
  revert f. induction rules as [|rule rules IH]; intros f; [by split|].
  simpl. rewrite Forall_cons, <- lint_rule_clean, <- (IH (f ∘ S)).
  split.
  - intros H. by apply app_eq_nil in H.
  - intros [-> H]. simpl. exact H.
Qed.

Lemma lint_validation_clean (case_id : text) (validation : list (text * json)) :
  lint_validation case_id validation = []
  ↔ nonblank_str (dict_get (u "input") validation) = true
    ∧ ∃ rule0 rules', dict_get (u "extract") validation = Some (JList (rule0 :: rules'))
                    ∧ Forall well_formed_rule (rule0 :: rules').
Proof.
  unfold lint_validation.
  destruct (nonblank_str (dict_get (u "input") validation)); simpl;
    [|split; [done|by intros [? _]]].
  destruct (dict_get (u "extract") validation) as [[| | | | |[|rule0 rules']|]|];
    try (split; [done|by intros (_ & ? & ? & ? & _)]).
  rewrite (lint_rules_clean case_id S (rule0 :: rules')). split.
  - intros H. split; [done|]. by exists rule0, rules'.
  - by intros (_ & r & rs & [= <- <-] & H).
Qed.

Lemma lint_script_clean (case_id : text) (case : list (text * json)) :
  lint_script case_id case = [] ↔ well_formed_validation case.
Proof.
  unfold lint_script, well_formed_validation.
  destruct (dict_get (u "script_validation") case) as [sv|]; [|done].
  destruct (truthy_opt (dict_get (u "preferred_script") case)) eqn:Et; simpl.
  - destruct sv; try done. rewrite lint_validation_clean. tauto.
  - destruct sv; try done. split; [done|]. by intros [? _].
Qed.

Lemma lint_keys_clean (case_id : text) (case : list (text * json)) :
  lint_keys case_id case = []
  ↔ is_Some (dict_get (u "prompt") case)
    ∧ is_Some (dict_get (u "required_references") case)
    ∧ is_Some (dict_get (u "required_keywords") case).
Proof.
  unfold lint_keys. cbn [flat_map]. rewrite <- !is_Some_b_true.
  destruct (is_Some_b (dict_get (u "prompt") case));
    destruct (is_Some_b (dict_get (u "required_references") case));
    destruct (is_Some_b (dict_get (u "required_keywords") case)); simpl;
    split; try done; intros (? & ? & ?); done.
Qed.

Lemma lint_id_clean (seen : gset text) (idx : nat) (case_id : text) :
  ((lint_id seen idx case_id).1 = [] ↔ case_id ≠ [] ∧ case_id ∉ seen)
  ∧ ((lint_id seen idx case_id).1 = [] → (lint_id seen idx case_id).2 = {[case_id]} ∪ seen).
Proof.
  unfold lint_id. destruct case_id as [|c cs]; simpl.
  - split; [split; [done|by intros [? _]]|done].
  - destruct (decide (c :: cs ∈ seen)); simpl.
    + split; [split; [done|by intros [_ ?]]|done].
    + split; [split; done|done].
Qed.

Lemma lint_template_dict (templates : list (text * json)) (case_id : text)
    (case : list (text * json)) :
  ∃ issues, lint_template py (JDict templates) case_id case = Done issues
          ∧ (issues = []
             ↔ str_field py (u "expected_template") case = []
               ∨ is_Some (dict_get (str_field py (u "expected_template") case) templates)).
Proof.
  unfold lint_template. destruct (str_field py (u "expected_template") case) as [|c cs].
  - exists []. split; [done|]. split; [by left|done].
  - simpl. destruct (dict_get (c :: cs) templates) as [v|]; simpl.
    + exists []. split; [done|]. split; [by right|done].
    + eexists. split; [done|]. split; [done|]. intros [H|[? H]]; done.
Qed.

Lemma lint_cases_clean (templates : list (text * json)) (seen : gset text) (idx : nat)
    (cases : list json) :
  lint_cases py (JDict templates) seen idx cases = Done []
  ↔ Forall (well_formed_case py templates) cases
    ∧ NoDup (map (case_key py) cases)
    ∧ ∀ id, id ∈ map (case_key py) cases → id ∉ seen.
Proof.
  revert seen idx. induction cases as [|case cases IH]; intros seen idx.
  - simpl. split; [|done]. intros _. split; [constructor|]. split; [constructor|].
    intros id Hid. by apply elem_of_nil in Hid.
  - assert (∀ c, (∀ d, c ≠ JDict d) →
              ¬ well_formed_case py templates c) as Hnot.
    { intros c Hc (d & -> & _). by apply (Hc d). }
    destruct case as [| | | | | |d].
    1-6: simpl; destruct (lint_cases py (JDict templates) seen (S idx) cases).
    1-12: simpl; split; [done|]; intros [H _]; apply Forall_cons in H as [H _].
    1-12: by apply Hnot in H.
    cbn [lint_cases]. cbv zeta.
    destruct (lint_template_dict templates (str_field py (u "id") d) d)
      as (tissues & -> & Ht).
    cbn [mbind attempt_bind].
    pose proof (lint_id_clean seen idx (str_field py (u "id") d)) as [Hid Hseen].
    destruct (lint_cases py (JDict templates)
                (lint_id seen idx (str_field py (u "id") d)).2 (S idx) cases)
      as [later|e] eqn:El; cbn [mbind attempt_bind].
    + split.
      * intros [= H]. apply app_eq_nil in H as [H1 H].
        apply app_eq_nil in H as [H2 H]. apply app_eq_nil in H as [H3 H].
        apply app_eq_nil in H as [H4 H5]. subst later.
        rewrite (Hseen H1) in El. apply IH in El as (Hall & Hnd & Hfresh).
        apply Hid in H1 as [Hne Hnew].
        split; [|split].
        -- constructor; [|done]. exists d. split; [done|]. split; [done|].
           split; [by apply Ht|]. apply lint_keys_clean in H3 as (? & ? & ?).
           apply lint_script_clean in H4. done.
        -- simpl. constructor; [|done]. intros Hin. apply Hfresh in Hin.
           apply Hin. apply elem_of_union. left. by apply elem_of_singleton.
        -- simpl. intros id Hin. apply elem_of_cons in Hin as [->|Hin]; [done|].
           apply Hfresh in Hin. intros Hs. apply Hin. apply elem_of_union. by right.
      * intros (Hall & Hnd & Hfresh). apply Forall_cons in Hall as [Hwf Hall].
        destruct Hwf as (d' & [= <-] & Hne & Htpl & Hp & Hr & Hk & Hv).
        simpl in Hnd. apply NoDup_cons in Hnd as [Hnin Hnd].
        assert ((lint_id seen idx (str_field py (u "id") d)).1 = []) as H1.
        { apply Hid. split; [done|]. apply Hfresh. simpl. by left. }
        rewrite (Hseen H1) in El.
        assert (lint_cases py (JDict templates)
                  ({[str_field py (u "id") d]} ∪ seen) (S idx) cases = Done []) as Hl.
        { apply IH. split; [done|]. split; [done|]. intros id Hin Hs.
          apply elem_of_union in Hs as [Hs|Hs].
          - apply elem_of_singleton in Hs. by subst id.
          - by apply (Hfresh id); [simpl; right|]. }
        rewrite Hl in El. injection El as <-.
        rewrite H1, (proj2 Ht Htpl), (proj2 (lint_keys_clean _ _)) by done.
        by rewrite (proj2 (lint_script_clean _ _) Hv).
    + split; [done|]. intros (Hall & Hnd & Hfresh). exfalso.
      apply Forall_cons in Hall as [Hwf Hall].
      destruct Hwf as (d' & [= <-] & Hne & _).
      simpl in Hnd. apply NoDup_cons in Hnd as [Hnin Hnd].
      assert ((lint_id seen idx (str_field py (u "id") d)).1 = []) as H1.
      { apply Hid. split; [done|]. apply Hfresh. simpl. by left. }
      rewrite (Hseen H1) in El.
      assert (lint_cases py (JDict templates)
                ({[str_field py (u "id") d]} ∪ seen) (S idx) cases = Done []) as Hl.
      { apply IH. split; [done|]. split; [done|]. intros id Hin Hs.
        apply elem_of_union in Hs as [Hs|Hs].
        - apply elem_of_singleton in Hs. by subst id.
        - by apply (Hfresh id); [simpl; right|]. }
      congruence.
Qed.

(** X14. The lint reports no issue exactly for a well-formed suite:
    [templates] is an object, [cases] is an array of objects whose ids are
    not empty and pairwise distinct, each with the keys [prompt],
    [required_references] and [required_keywords], a known template if it
    names one, and a [script_validation] that, when present, comes with a
    script and is an object with an input and at least one rule, each rule
    with a path. *)
Theorem lint_clean_iff_well_formed (suite : list (text * json)) :
  lint_suite py suite = Done []
  ↔ ∃ templates cases,
      dict_get (u "templates") suite = Some (JDict templates)
      ∧ dict_get (u "cases") suite = Some (JList cases)
      ∧ Forall (well_formed_case py templates) cases
      ∧ NoDup (map (case_key py) cases).
Proof.
  unfold lint_suite. split.
  - destruct (dict_get (u "templates") suite) as [[| | | | | |templates]|] eqn:Et;
      simpl; try (repeat case_match; try done;
                  destruct (lint_cases _ _ _ _ _); simpl; done).
    destruct (dict_get (u "cases") suite) as [[| | | | |cases|]|]; try done.
    destruct (lint_cases py (JDict templates) ∅ 1 cases) as [later|e] eqn:El;
      simpl; [|done].
    intros [= ->]. apply lint_cases_clean in El as (Hall & Hnd & _).
    by exists templates, cases.
  - intros (templates & cases & -> & -> & Hall & Hnd). simpl.
    rewrite (proj2 (lint_cases_clean templates ∅ 1 cases)); [done|].
    split; [done|]. split; [done|]. intros id _. apply not_elem_of_empty.
Qed.

Lemma py_in_failed (needle : text) (container : json) (e : pyerror) :
  py_in needle container = Failed e ↔ e = TypeError ∧ scalar container = true.
Proof.
  destruct container; simpl; split; try done; try (by intros [_ ?]).
  all: try (by intros [= <-]). all: by intros [-> _].
Qed.

Lemma lint_template_failed (templates : json) (case_id : text) (case : list (text * json))
    (e : pyerror) :
  lint_template py templates case_id case = Failed e
  ↔ e = TypeError ∧ scalar templates = true
    ∧ str_field py (u "expected_template") case ≠ [].
Proof.
  unfold lint_template. destruct (str_field py (u "expected_template") case) as [|c cs].
  - split; [done|]. by intros (_ & _ & ?).
  - destruct (py_in (c :: cs) templates) as [known|e'] eqn:E; simpl.
    + split; [done|]. intros (-> & Hs & _).
      assert (py_in (c :: cs) templates = Failed TypeError) as H
        by (by apply py_in_failed).
      congruence.
    + apply py_in_failed in E as [-> Hs]. split.
      * by intros [= <-].
      * by intros (-> & _).
Qed.

Lemma lint_cases_failed (templates : json) (seen : gset text) (idx : nat)
    (cases : list json) (e : pyerror) :
  lint_cases py templates seen idx cases = Failed e
  ↔ e = TypeError ∧ scalar templates = true ∧ Exists (names_template py) cases.
Proof.
  revert seen idx e. induction cases as [|case cases IH]; intros seen idx e.
  - simpl. split; [done|]. intros (_ & _ & H). by apply Exists_nil in H.
  - assert (∀ c later_seen,
              (∀ d, c ≠ JDict d) →
              (later ← lint_cases py templates later_seen (S idx) cases;
               Done ((u "cases[" ++ str_of_nat idx ++ u "] must be an object") :: later))
              = Failed e
              ↔ e = TypeError ∧ scalar templates = true
                ∧ Exists (names_template py) (c :: cases)) as Hother.
    { intros c later_seen Hc. rewrite Exists_cons.
      destruct (lint_cases py templates later_seen (S idx) cases) as [later|e'] eqn:El;
        simpl.
      - split; [done|]. intros (-> & Hs & [(d & -> & _)|Hex]); [by destruct (Hc d)|].
        assert (lint_cases py templates later_seen (S idx) cases = Failed TypeError) as H
          by (by apply IH).
        congruence.
      - apply IH in El as (-> & Hs & Hex). split; [|by intros (-> & _)].
        intros [= <-]. split; [done|]. split; [done|]. by right. }
    destruct case as [| | | | | |d]; try (by apply Hother).
    cbn [lint_cases]. cbv zeta. rewrite Exists_cons.
    destruct (lint_template py templates (str_field py (u "id") d) d) as [tissues|e'] eqn:Et;
      simpl.
    + destruct (lint_cases py templates (lint_id seen idx (str_field py (u "id") d)).2
                  (S idx) cases) as [later|e'] eqn:El; simpl.
      * split; [done|]. intros (-> & Hs & [(d' & [= <-] & Hn)|Hex]).
        -- assert (lint_template py templates (str_field py (u "id") d) d
                   = Failed TypeError) as H by (by apply lint_template_failed).
           congruence.
        -- assert (lint_cases py templates (lint_id seen idx (str_field py (u "id") d)).2
                     (S idx) cases = Failed TypeError) as H by (by apply IH).
           congruence.
      * apply IH in El as (-> & Hs & Hex). split; [|by intros (-> & _)].
        intros [= <-]. split; [done|]. split; [done|]. by right.
    + apply lint_template_failed in Et as (-> & Hs & Hn). split; [|by intros (-> & _)].
      intros [= <-]. split; [done|]. split; [done|]. left. by exists d.
Qed.

(** X15. The lint itself fails, with a TypeError, exactly when [templates]
    is present but is null, a boolean or a number, [cases] is an array, and
    one of its objects names a template: the membership test on
    [templates] cannot be made. In every other situation it returns its
    list of issues. *)
Theorem lint_fails_iff_templates_scalar (suite : list (text * json)) (e : pyerror) :
  lint_suite py suite = Failed e
  ↔ e = TypeError
    ∧ ∃ templates cases,
        dict_get (u "templates") suite = Some templates
        ∧ scalar templates = true
        ∧ dict_get (u "cases") suite = Some (JList cases)
        ∧ Exists (names_template py) cases.
Proof.
  unfold lint_suite.
  destruct (dict_get (u "cases") suite) as [[| | | | |cases|]|];
    try (split; [done|by intros (_ & ? & ? & _ & _ & ? & _)]).
  set (templates := default (JDict []) (dict_get (u "templates") suite)).
  destruct (lint_cases py templates ∅ 1 cases) as [later|e'] eqn:El; simpl.
  - split; [done|]. intros (-> & t & cs & Ht & Hs & [= <-] & Hex).
    assert (lint_cases py templates ∅ 1 cases = Failed TypeError) as H.
    { apply lint_cases_failed. subst templates. rewrite Ht. done. }
    congruence.
  - apply lint_cases_failed in El as (-> & Hs & Hex). split; [|by intros (-> & _)].
    intros [= <-]. split; [done|]. subst templates.
    destruct (dict_get (u "templates") suite) as [t|]; [|done].
    by exists t, cases.
Qed.

(** X16. A rule that the lint accepts is evaluated on a path that is not
    blank, unless its [path] is set to a truthy value that is not such a
    string (a blank string, a number, a list): the lint then accepted the
    rule for its [json_path], which the evaluator does not read, and the
    evaluator reports the rule as [missing_path]. *)
Theorem lint_accepts_rules_with_shadowed_path
    (case_id : text) (ridx idx : nat) (rule : list (text * json))
    (payload : json) (nums : list pyfloat) :
  lint_rule case_id ridx (JDict rule) = [] →
  if shadowed rule
  then judge_rule py payload nums idx (JDict rule)
       = Ok (Missing (u "rule#" ++ str_of_nat idx ++ u ":missing_path"))
  else ∃ path, rule_path rule = Some (JStr path) ∧ nonblank path = true.
Proof.
  intros H. apply lint_rule_clean in H as (d & [= <-] & H).
  unfold shadowed, judge_rule, rule_path.
  destruct (dict_get (u "path") rule) as [v|].
  - destruct (truthy v) eqn:Et.
    + destruct v as [| | | |s| |]; try reflexivity.
      unfold nonblank_str, nonblank.
      destruct (strip s) eqn:Es; [reflexivity|]. exists s. split; [done|].
      unfold nonblank. by rewrite Es.
    + assert (nonblank_str (Some v) = false) as Hv.
      { destruct v as [| | | |s| |]; try done. by destruct s. }
      destruct H as [H|H]; [congruence|]. cbn [andb].
      destruct (dict_get (u "json_path") rule) as [[| | | |s| |]|]; try done.
      by exists s.
  - destruct H as [H|H]; [done|].
    destruct (dict_get (u "json_path") rule) as [[| | | |s| |]|]; try done.
    by exists s.
Qed.

(** X17. A validation that the lint accepts has an input and rules that the
    numeric check accepts too: it names an input, and the check can run as
    soon as the script and this input exist. *)
Theorem lint_clean_validation_is_runnable
    (case_id script : text) (validation : list (text * json)) (w : world) :
  lint_validation case_id validation = [] →
  ∃ input_rel,
    dict_get (u "input") validation = Some (JStr input_rel)
    ∧ runnable w script validation
      = path_exists w (script_path w script) && path_exists w (input_path w input_rel).
Proof.
  intros H. apply lint_validation_clean in H as (Hin & r & rs & He & _).
  unfold runnable. rewrite He.
  destruct (dict_get (u "input") validation) as [[| | | |input_rel| |]|]; try done.
  exists input_rel. split; [done|]. simpl in Hin. rewrite Hin.
  by rewrite andb_true_r.
Qed.

End LintProperties.

(** ** Decoding of the responses *)

Lemma filter_nil_Forall {A : Type} (P : A → Prop) `{!∀ x, Decision (P x)} (l : list A) :
  filter P l = [] ↔ Forall (λ x, ¬ P x) l.
Proof.
  induction l as [|a l IH]; [by split|]. rewrite filter_cons, Forall_cons.
  destruct (decide (P a)); [|tauto]. split; [done|]. by intros [? _].
Qed.

Lemma list_to_map_dict_get (d : list (text * json)) (k : text) :
  (list_to_map d : gmap text json) !! k = dict_get k d.
Proof.
  induction d as [|[k' v] d IH]; [done|]. rewrite list_to_map_cons. simpl.
  destruct (decide (k' = k)) as [->|Hne].
  - by rewrite lookup_insert_eq.
  - by rewrite lookup_insert_ne.
Qed.

Section Payloads.
Variable py : builtins.

Lemma str_items_empty (d : list (text * json)) : str_items py d = ∅ ↔ d = [].
Proof.
  unfold str_items. rewrite fmap_empty_iff. destruct d as [|[k v] d]; [done|].
  rewrite list_to_map_cons. split; [|done]. intros H. by apply insert_non_empty in H.
Qed.

Lemma str_items_lookup (d : list (text * json)) (k : text) :
  str_items py d !! k = py_str py <$> dict_get k d.
Proof. unfold str_items. by rewrite lookup_fmap, list_to_map_dict_get. Qed.

(** X18. [parse_response_payload] rejects a payload, with the ValueError
    "Unsupported responses payload shape.", exactly when the payload is
    neither a list nor an object, or is an object without a [responses]
    object and without a [cases] list all of whose values are objects or
    lists - the empty object among them. A list is never rejected. *)
Theorem unsupported_payload_iff (payload : json) (e : pyerror) :
  parse_response_payload py payload = Failed e
  ↔ e = ValueError (u "Unsupported responses payload shape.") ∧ unsupported payload.
Proof.
  unfold parse_response_payload, unsupported.
  destruct payload as [| | | | |items|d];
    try (split; [by intros [= <-]|by intros [-> _]]).
  { split; [done|by intros [_ ?]]. }
  destruct (dict_get (u "responses") d) as [[| | | | | |responses]|] eqn:Er;
    try (split; [done|intros (_ & H & _); by destruct (H responses)]).
  all: destruct (dict_get (u "cases") d) as [[| | | | |items|]|] eqn:Ec;
    try (split; [done|intros (_ & _ & H & _); by destruct (H items)]).
  all: destruct (decide (str_items py (filter (λ kv, is_container kv.2 = false) d) = ∅))
    as [He|He].
  all: rewrite str_items_empty, filter_nil_Forall in He.
  all: try (split; [done|]; intros (_ & _ & _ & H); destruct He;
            eapply Forall_impl; [exact H|]; intros kv Hkv; simpl in *; congruence).
  all: split; [intros [= <-]|by intros [-> _]].
  all: split; [done|]; split; [done|]; split; [done|].
  all: eapply Forall_impl; [exact He|]; intros kv Hkv; simpl in *.
  all: by destruct (is_container kv.2).
Qed.

Lemma collect_responses_snoc (items : list json) (item : json) :
  collect_responses py (items ++ [item])
  = match item with
    | JDict d =>
      match dict_get (u "id") d, dict_get (u "response") d with
      | Some id, Some response =>
        <[py_str py id := py_str py response]> (collect_responses py items)
      | _, _ => collect_responses py items
      end
    | _ => collect_responses py items
    end.
Proof. unfold collect_responses. by rewrite foldl_app. Qed.

Lemma collect_responses_last (before after : list json) (d : list (text * json))
    (id response : json) :
  dict_get (u "id") d = Some id →
  dict_get (u "response") d = Some response →
  Forall (λ item, ¬ answers py (py_str py id) item) after →
  collect_responses py (before ++ JDict d :: after) !! py_str py id
  = Some (py_str py response).
Proof.
  intros Hid Hr. induction after as [|item after IH] using rev_ind; intros Hafter.
  - rewrite collect_responses_snoc, Hid, Hr. by rewrite lookup_insert_eq.
  - apply Forall_app in Hafter as [Hafter Hitem].
    apply Forall_cons in Hitem as [Hitem _]. specialize (IH Hafter).
    change (before ++ JDict d :: after ++ [item])
      with (before ++ (JDict d :: after) ++ [item]).
    rewrite app_assoc, collect_responses_snoc.
    destruct item as [| | | | | |d']; try done.
    destruct (dict_get (u "id") d') as [i|] eqn:Ei; [|done].
    destruct (dict_get (u "response") d') as [r|] eqn:Er'; [|done].
    rewrite lookup_insert_ne; [done|]. intros Heq. apply Hitem.
    by exists d', i, r.
Qed.

(** X19. In a payload that is a list, the response of an id is the one of
    the last item that carries both this id and a response, both read
    through [str]; an object whose [cases] is this list, and whose
    [responses] is not an object, is read in the same way. *)
Theorem list_payload_last_item_wins
    (before after : list json) (d : list (text * json)) (id response : json) :
  dict_get (u "id") d = Some id →
  dict_get (u "response") d = Some response →
  Forall (λ item, ¬ answers py (py_str py id) item) after →
  (∃ m, parse_response_payload py (JList (before ++ JDict d :: after)) = Done m
      ∧ m !! py_str py id = Some (py_str py response))
  ∧ ∀ wrapper,
      dict_get (u "cases") wrapper = Some (JList (before ++ JDict d :: after)) →
      is_dict (dict_get (u "responses") wrapper) = false →
      parse_response_payload py (JDict wrapper)
      = parse_response_payload py (JList (before ++ JDict d :: after)).
Proof.
  intros Hid Hr Hafter. split.
  - eexists. split; [reflexivity|]. by apply collect_responses_last.
  - intros wrapper Hc Hresp. unfold parse_response_payload. rewrite Hc.
    by destruct (dict_get (u "responses") wrapper) as [[| | | | | |?]|].
Qed.

(** X20. When the payload is an object with a [responses] object, this
    object alone is read, whatever else the payload holds: each of its keys
    is mapped to the [str] of its value. *)
Theorem responses_object_takes_precedence
    (d responses : list (text * json)) :
  dict_get (u "responses") d = Some (JDict responses) →
  ∃ m, parse_response_payload py (JDict d) = Done m
     ∧ ∀ k, m !! k = py_str py <$> dict_get k responses.
Proof.
  intros H. unfold parse_response_payload. rewrite H. eexists. split; [reflexivity|].
  apply str_items_lookup.
Qed.

End Payloads.

(** ** One result per case *)

Section Results.
Variable py : builtins.

Lemma score_case_identity (case : Case) (template : Template) (response : option text)
    (min_score : Q) (allow : bool) (w : world) (r : CaseResult) :
  score_case py case template response min_score allow w = Ok r →
  cr_id r = case_id case ∧ cr_title r = case_title case
  ∧ cr_category r = case_category case.
Proof.
  destruct response as [response|]; intros E.
  - apply score_case_ok_inv in E as (l & _ & ->). done.
  - injection E as <-. done.
Qed.

(** X26. The scorer returns one result per case of the suite, in the order
    of the suite and under the id, title and category of its case; a result
    is marked as skipped exactly when its case has no response and missing
    responses are tolerated, and a case without a response never passes.
    What the scorer raises comes from the numeric validation of one of the
    cases. *)
Theorem score_cases_one_result_per_case
    (suite : Suite) (responses : gmap text text) (args : Args) (w : world) :
  match score_cases py suite responses args w with
  | Raised e => ∃ case, case ∈ cases suite ∧ case_raises py w case e
  | Ok results =>
    map cr_id results = map case_id (cases suite)
    ∧ map cr_title results = map case_title (cases suite)
    ∧ map cr_category results = map case_category (cases suite)
    ∧ Forall2 (λ case r,
                 (cr_skipped r = true
                  ↔ responses !! case_id case = None ∧ allow_missing_cases args = true)
                 ∧ (responses !! case_id case = None → cr_passed r = false))
              (cases suite) results
  end.
Proof.
  unfold score_cases.
  destruct (mapM _ (cases suite)) as [results|e] eqn:E.
  - apply mapM_ok_inv in E.
    induction E as [|case r cs rs Hc _ IH]; [by repeat split; try constructor|].
    destruct IH as (Hi & Ht & Hcat & Hall).
    pose proof (score_case_identity _ _ _ _ _ _ _ Hc) as (Hid & Htitle & Hcategory).
    pose proof (score_case_skipped py _ _ _ _ _ _ _ Hc) as [Hskip Hpass].
    simpl. rewrite Hi, Ht, Hcat, Hid, Htitle, Hcategory.
    split; [done|]. split; [done|]. split; [done|]. constructor; [|done].
    split; [|done]. rewrite Hskip.
    destruct (responses !! case_id case); [split; [done|by intros [? _]]|].
    split; [done|by intros [_ ?]].
  - apply mapM_raised_from in E as (case & Hin & Hc). exists case.
    split; [done|]. by eapply score_case_raised_inv.
Qed.

End Results.

(** ** The number of matches a validation asks for *)

Section MinMatches.
Variable py : builtins.

(** X27. Once the script has run, printed JSON, and the response holds a
    number, an integer [min_matches] is clamped to the range from 0 to the
    number of rules: with a value of 0 or less the check passes whatever
    the rules say, even with score 0; with a value of at least the number
    of rules it passes exactly when every rule matched. The check returns
    such a result unless a rule raises OverflowError, the value at its path,
    its [atol] or its [rtol] being an integer beyond the range of a float:
    the rules are judged before [min_matches] is read. *)
Theorem min_matches_is_clamped
    (response script input_rel stdout stderr : text) (validation : list (text * json))
    (rule0 : json) (rules : list json) (payload : json) (k : Z) (w : world) :
  path_exists w (script_path w script) = true →
  dict_get (u "input") validation = Some (JStr input_rel) →
  strip input_rel ≠ [] →
  path_exists w (input_path w input_rel) = true →
  dict_get (u "extract") validation = Some (JList (rule0 :: rules)) →
  subprocess_run w (numeric_cmd w script input_rel) = Completed 0 stdout stderr →
  strip stdout ≠ [] →
  json_loads py (strip stdout) = inr payload →
  _extract_numbers py response ≠ [] →
  dict_get (u "min_matches") validation = Some (JInt k) →
  match evaluate_script_numeric_checks py response script validation w with
  | Ok (score, passed, details) =>
    (k <= 0 → passed = true)
    ∧ (Z.of_nat (length (rule0 :: rules)) <= k → (passed = true ↔ (score == 1)%Q))
  | Raised e =>
    e = OverflowError
    ∧ ∃ rule, JDict rule ∈ rule0 :: rules ∧ rule_overflows py payload rule
  end
  ∧ ((∀ rule, JDict rule ∈ rule0 :: rules → ¬ rule_overflows py payload rule) →
     ∃ score passed details,
       evaluate_script_numeric_checks py response script validation w
       = Ok (score, passed, details)).
Proof.
  intros Hscript Hinput Hrel Hfile Hextract Hrun Hout Hjson Hnums Hmin.
  unfold evaluate_script_numeric_checks. unfold numeric_cmd in Hrun.
  rewrite Hscript, Hinput. cbn [negb].
  destruct (strip input_rel) as [|c0 rel] eqn:Erel; [done|].
  rewrite Hfile, Hextract. cbn [negb]. rewrite Hrun. cbn [Z.eqb negb].
  destruct (strip stdout) as [|o0 out] eqn:Eout; [done|]. rewrite Hjson.
  destruct (_extract_numbers py response) as [|num0 nums] eqn:En; [done|].
  pose proof (judge_rules_inv py payload (num0 :: nums) (rule0 :: rules)) as Hcount.
  destruct (judge_rules py payload (num0 :: nums) (rule0 :: rules))
    as [[matched missing]|e]; cbn [mbind outcome_bind].
  - rewrite Hmin. cbn [_to_int py_int mbind outcome_bind fst snd] in *.
    set (total := length (rule0 :: rules)) in *.
    assert (0 < Z.of_nat total) as Htotal by (subst total; simpl; lia).
    split; [|by eauto]. split.
    + intros Hk. apply Z.leb_le. lia.
    + intros Hk. split.
      * intros Hp. apply Z.leb_le in Hp.
        assert (Z.of_nat matched = Z.of_nat total) as -> by lia.
        apply safe_ratio_full.
      * intros H1. apply safe_ratio_one_inv in H1; [|done]. apply Z.leb_le. lia.
  - split; [exact Hcount|]. intros Hnone.
    destruct Hcount as (_ & rule & Hin & Hov). by destruct (Hnone rule Hin).
Qed.

End MinMatches.

(** ** The routing-table synchroniser *)

Lemma startswith_app_r (p s r : text) :
  startswith p s = true → startswith p (s ++ r) = true.
Proof.
  revert s. induction p as [|a p IH]; intros s; [done|].
  destruct s as [|b s]; [done|]. simpl. intros H.
  apply andb_true_iff in H as [-> H]. by rewrite IH.
Qed.

Lemma startswith_false_app (p s r : text) :
  startswith p s = false → (length p ≤ length s)%nat → startswith p (s ++ r) = false.
Proof.
  revert s. induction p as [|a p IH]; intros s; [done|].
  destruct s as [|b s]; simpl; [lia|]. intros H Hl.
  apply andb_false_iff in H as [->|H]; [done|].
  rewrite IH; [apply andb_false_r|done|lia].
Qed.

Lemma startswith_take (p s : text) (n : nat) :
  startswith p s = true → (length p ≤ n)%nat → startswith p (take n s) = true.
Proof.
  revert s n. induction p as [|a p IH]; intros s n; [done|].
  destruct s as [|b s]; [done|]. simpl. intros H Hl.
  destruct n as [|n]; [lia|]. simpl.
  apply andb_true_iff in H as [-> H]. rewrite IH; [done..|lia].
Qed.

Lemma startswith_of_take (p s : text) (n : nat) :
  startswith p (take n s) = true → startswith p s = true.
Proof.
  intros H. rewrite <- (take_drop n s). by apply startswith_app_r.
Qed.

Lemma startswith_length (p s : text) :
  startswith p s = true → (length p ≤ length s)%nat.
Proof.
  revert s. induction p as [|a p IH]; intros s; simpl; [lia|].
  destruct s as [|b s]; [done|]. intros H. apply andb_true_iff in H as [_ H].
  apply IH in H. simpl. lia.
Qed.

Lemma startswith_self (p r : text) : startswith p (p ++ r) = true.
Proof. induction p as [|a p IH]; [done|]. simpl. by rewrite N.eqb_refl. Qed.

Lemma startswith_split (p s : text) :
  startswith p s = true → s = p ++ drop (length p) s.
Proof.
  revert s. induction p as [|a p IH]; intros s; [done|].
  destruct s as [|b s]; [done|]. simpl. intros H.
  apply andb_true_iff in H as [Hab H]. apply N.eqb_eq in Hab. subst b.
  f_equal. by apply IH.
Qed.

Lemma find_bound (sub s : text) (i : nat) :
  Routing.find sub s = Some i → (i + length sub ≤ length s)%nat.
Proof.
  revert i. induction s as [|c s IH]; intros i; simpl.
  - destruct (startswith sub []) eqn:E; [|done]. intros [= <-].
    apply startswith_length in E. simpl in *. lia.
  - destruct (startswith sub (c :: s)) eqn:E.
    + intros [= <-]. apply startswith_length in E. simpl in *. lia.
    + destruct (Routing.find sub s) as [j|]; [|done]. simpl. intros [= <-].
      specialize (IH j eq_refl). lia.
Qed.

Lemma find_startswith (sub s : text) (i : nat) :
  Routing.find sub s = Some i → startswith sub (drop i s) = true.
Proof.
  revert i. induction s as [|c s IH]; intros i; simpl.
  - destruct (startswith sub []) eqn:E; [|done]. by intros [= <-].
  - destruct (startswith sub (c :: s)) eqn:E.
    + by intros [= <-].
    + destruct (Routing.find sub s) as [j|]; [|done]. simpl. intros [= <-].
      by apply IH.
Qed.

Lemma find_take (sub s : text) (i n : nat) :
  Routing.find sub s = Some i → (i + length sub ≤ n)%nat →
  Routing.find sub (take n s) = Some i.
Proof.
  revert i n. induction s as [|c s IH]; intros i n.
  - by destruct n.
  - simpl. destruct (startswith sub (c :: s)) eqn:E.
    + intros [= <-] Hn. apply (startswith_take _ _ n) in E; [|lia].
      destruct n as [|n]; simpl in *; by rewrite E.
    + destruct (Routing.find sub s) as [j|] eqn:Ej; [|done]. simpl. intros [= <-] Hn.
      destruct n as [|n]; [lia|]. simpl.
      destruct (startswith sub (c :: take n s)) eqn:E'.
      * apply (startswith_of_take _ (c :: s) (S n)) in E'. congruence.
      * rewrite (IH j n); [done..|lia].
Qed.

Lemma find_app_l (sub p r : text) (i : nat) :
  Routing.find sub p = Some i → Routing.find sub (p ++ r) = Some i.
Proof.
  revert i. induction p as [|c p IH]; intros i; simpl.
  - destruct (startswith sub []) eqn:E; [|done]. intros [= <-].
    destruct sub; [|done]. by destruct r.
  - change (c :: p ++ r) with ((c :: p) ++ r).
    destruct (startswith sub (c :: p)) eqn:E.
    + intros [= <-]. by rewrite (startswith_app_r sub (c :: p) r E).
    + destruct (Routing.find sub p) as [j|] eqn:Ej; [|done]. simpl. intros [= <-].
      apply find_bound in Ej as Hb.
      change (c :: p ++ r) with ((c :: p) ++ r).
      rewrite (startswith_false_app sub (c :: p) r E) by (simpl; lia).
      by rewrite (IH j).
Qed.

Lemma find_newline_after (marker s : text) (b : nat) :
  startswith marker s = true → 10%N ∉ marker →
  Routing.find [10%N] s = Some b → (length marker ≤ b)%nat.
Proof.
  revert s b. induction marker as [|a marker IH]; intros s b; simpl; [lia|].
  destruct s as [|c s]; [done|]. intros H Hn Hf.
  apply andb_true_iff in H as [Hac H]. apply N.eqb_eq in Hac. subst c.
  apply not_elem_of_cons in Hn as [Hne Hn].
  change (Routing.find [10%N] (a :: s))
    with (if (10 =? a)%N && true then Some 0%nat else S <$> Routing.find [10%N] s) in Hf.
  rewrite (proj2 (N.eqb_neq 10 a) Hne) in Hf. cbn [andb] in Hf.
  destruct (Routing.find [10%N] s) as [j|] eqn:Ej; [|done]. injection Hf as <-.
  specialize (IH s j H Hn Ej). lia.
Qed.

(** What a successful replacement looks like. *)
Lemma replace_between_markers_done (content start_marker end_marker body result : text) :
  Routing.replace_between_markers content start_marker end_marker body = Done result →
  ∃ a b c,
    Routing.find start_marker content = Some a
    ∧ Routing.find [10%N] (drop a content) = Some b
    ∧ Routing.find end_marker (drop (a + b + 1) content) = Some c
    ∧ result = take (a + b + 1) content ++ rstrip body ++ [10%N]
               ++ drop (a + b + 1 + c) content.
Proof.
  unfold Routing.replace_between_markers, Routing.find_from.
  destruct (Routing.find start_marker content) as [a|] eqn:Ea; [|done].
  destruct (Routing.find [10%N] (drop a content)) as [b|] eqn:Eb; [|done]. simpl.
  destruct (Routing.find end_marker (drop (a + b + 1) content)) as [c|] eqn:Ec;
    [|done]. simpl.
  intros [= <-]. by exists a, b, c.
Qed.

Lemma replace_between_markers_idem
    (content start_marker end_marker body result : text) :
  10%N ∉ start_marker →
  Routing.find end_marker (rstrip body ++ [10%N] ++ end_marker)
  = Some (S (length (rstrip body))) →
  Routing.replace_between_markers content start_marker end_marker body = Done result →
  Routing.replace_between_markers result start_marker end_marker body = Done result.
Proof.
  intros Hline Hend H.
  apply replace_between_markers_done in H as (a & b & c & Ha & Hb & Hc & ->).
  set (P := take (a + b + 1) content).
  set (T := drop (a + b + 1 + c) content).
  pose proof (find_bound _ _ _ Ha) as Hba. pose proof (find_bound _ _ _ Hb) as Hbb.
  rewrite length_drop in Hbb. simpl in Hbb.
  assert (length P = (a + b + 1)%nat) as HP by (subst P; rewrite length_take; lia).
  assert ((length start_marker ≤ b)%nat) as Hsb.
  { eapply find_newline_after; [by eapply find_startswith|done|done]. }
  assert (Routing.find start_marker (P ++ rstrip body ++ [10%N] ++ T) = Some a) as Ha'.
  { apply find_app_l. subst P. apply find_take; [done|lia]. }
  assert (drop a (P ++ rstrip body ++ [10%N] ++ T)
          = take (b + 1) (drop a content) ++ rstrip body ++ [10%N] ++ T) as Hdrop.
  { rewrite drop_app_le by lia. f_equal. subst P.
    rewrite take_drop_commute. do 2 f_equal. lia. }
  assert (Routing.find [10%N] (drop a (P ++ rstrip body ++ [10%N] ++ T)) = Some b) as Hb'.
  { rewrite Hdrop. apply find_app_l. apply find_take; [done|simpl; lia]. }
  assert (drop (a + b + 1) (P ++ rstrip body ++ [10%N] ++ T)
          = rstrip body ++ [10%N] ++ T) as Hdrop'.
  { rewrite <- HP. apply drop_app_length. }
  assert (Routing.find end_marker (rstrip body ++ [10%N] ++ T)
          = Some (S (length (rstrip body)))) as Hc'.
  { apply find_startswith in Hc. rewrite drop_drop in Hc. fold T in Hc.
    rewrite (startswith_split _ _ Hc), !app_assoc.
    apply find_app_l. by rewrite <- !app_assoc. }
  unfold Routing.replace_between_markers, Routing.find_from.
  rewrite Ha', Hb'. unfold fmap, option_fmap, option_map. rewrite Hdrop', Hc'.
  f_equal.
  rewrite <- HP at 1. rewrite take_app_length. f_equal. f_equal.
  replace (a + b + 1 + S (length (rstrip body)))%nat
    with (length (P ++ rstrip body ++ [10%N])) by (rewrite !length_app; simpl; lia).
  replace (P ++ rstrip body ++ [10%N] ++ T) with ((P ++ rstrip body ++ [10%N]) ++ T)
    by (by rewrite <- !app_assoc).
  by rewrite drop_app_length.
Qed.

(** X21. In an escaped cell every pipe comes right after a backslash, so
    that no pipe of the cell ends a column; the cell grows by one character
    for each pipe and a text without pipes is left as it is. *)
Theorem escape_cell_escapes_every_pipe (t : text) :
  (∀ i, Routing._escape_cell t !! i = Some 124%N →
        ∃ j, i = S j ∧ Routing._escape_cell t !! j = Some 92%N)
  ∧ length (Routing._escape_cell t) = (length t + length (filter (λ c, c = 124%N) t))%nat
  ∧ (124%N ∉ t → Routing._escape_cell t = t).
Proof.
  unfold Routing._escape_cell. split; [|split].
  - induction t as [|c t IH]; intros i Hi; [done|]. cbn [flat_map] in *.
    destruct (c =? 124)%N eqn:E.
    + destruct i as [|[|i]]; [done|by exists 0%nat|].
      cbn in Hi. destruct (IH i Hi) as (j & -> & Hj).
      by exists (S (S j)).
    + apply N.eqb_neq in E. destruct i as [|i]; [cbn in Hi; congruence|].
      cbn in Hi. destruct (IH i Hi) as (j & -> & Hj).
      by exists (S j).
  - induction t as [|c t IH]; [done|]. cbn [flat_map]. rewrite filter_cons, length_app.
    destruct (c =? 124)%N eqn:E.
    + apply N.eqb_eq in E. rewrite decide_True by done. simpl length. lia.
    + apply N.eqb_neq in E. rewrite decide_False by done. simpl length. lia.
  - induction t as [|c t IH]; [done|]. intros Hn.
    apply not_elem_of_cons in Hn as [Hc Hn]. cbn [flat_map].
    rewrite (proj2 (N.eqb_neq c 124)) by done. by rewrite IH.
Qed.

Section Entries.
Variable py : builtins.

Lemma str_field_stripped (key : text) (d : list (text * json)) :
  strip (str_field py key d) = str_field py key d.
Proof. apply strip_idemp. Qed.

Lemma normalize_done (idx : nat) (entry : json) (e : Routing.Entry) :
  Routing.normalize py idx entry = Done e → normalised e.
Proof.
  unfold Routing.normalize. destruct entry as [| | | | | |d]; try done.
  destruct (str_field py (u "signal") d) as [|c cs] eqn:Es; [done|].
  destruct (str_field py (u "primary") d) as [|c' cs'] eqn:Ep; [done|].
  cbn [is_empty orb]. intros [= <-]. unfold normalised.
  cbn [Routing.signal Routing.primary Routing.secondary Routing.output].
  repeat split; try done; try apply str_field_stripped.
  - rewrite <- Es. apply str_field_stripped.
  - rewrite <- Ep. apply str_field_stripped.
Qed.

Lemma normalize_failed (idx : nat) (entry : json) (e : pyerror) :
  Routing.normalize py idx entry = Failed e → ∃ msg, e = ValueError msg.
Proof.
  unfold Routing.normalize. destruct entry as [| | | | | |d];
    try (intros [= <-]; by eexists).
  destruct (_ || _); [|done]. intros [= <-]. by eexists.
Qed.

Lemma mapM_attempt_inv {A B : Type} (f : A → attempt B) (l : list A) :
  match mapM f l with
  | Done ys => Forall2 (λ x y, f x = Done y) l ys
  | Failed e => ∃ x, x ∈ l ∧ f x = Failed e
  end.
Proof.
  induction l as [|a l IH]; simpl; [constructor|].
  destruct (f a) as [b|e] eqn:Ea; simpl.
  - destruct (mapM f l) as [bs|e]; simpl.
    + by constructor.
    + destruct IH as (x & Hx & Hf). exists x. split; [by right|done].
  - exists a. split; [by left|done].
Qed.

(** X22. [load_entries] returns as many entries as the routing file lists,
    at least one, each with its four fields trimmed and with a [signal] and
    a [primary] that are not empty; otherwise it raises: an AttributeError
    when the file does not hold an object, a ValueError when [entries] is
    not a non-empty array or one entry is not acceptable. No entry is
    dropped silently. *)
Theorem load_entries_normalised (payload : json) :
  match Routing.load_entries py payload with
  | Done entries =>
    entries ≠ []
    ∧ Forall normalised entries
    ∧ ∃ p raw, payload = JDict p ∧ dict_get (u "entries") p = Some (JList raw)
             ∧ length entries = length raw
  | Failed e =>
    (e = AttributeError ∧ ∀ p, payload ≠ JDict p) ∨ (∃ msg, e = ValueError msg)
  end.
Proof.
  unfold Routing.load_entries.
  destruct payload as [| | | | | |p]; try (left; split; [done|by intros p]).
  destruct (dict_get (u "entries") p) as [[| | | | |[|entry0 entries']|]|] eqn:E;
    try (right; by eexists).
  pose proof (mapM_attempt_inv (λ ie : nat * json, Routing.normalize py ie.1 ie.2)
                (imap (λ i entry, (S i, entry)) (entry0 :: entries'))) as H.
  destruct (mapM _ _) as [entries|e].
  - apply Forall2_length in H as Hlen. rewrite length_imap in Hlen.
    split; [by destruct entries|]. split.
    + apply Forall_forall. intros e He.
      destruct (Forall2_in_r _ _ _ _ H He) as ([idx raw] & _ & Hn).
      by eapply normalize_done.
    + exists p, (entry0 :: entries'). by rewrite Hlen.
  - destruct H as ([idx raw] & _ & Hn). right. by eapply normalize_failed.
Qed.

End Entries.

Lemma replace_between_markers_frame (content start_marker end_marker body result : text) :
  Routing.replace_between_markers content start_marker end_marker body = Done result →
  ∃ before old after,
    content = before ++ old ++ after
    ∧ result = before ++ rstrip body ++ [10%N] ++ after
    ∧ last before = Some 10%N
    ∧ startswith end_marker after = true.
Proof.
  intros H. apply replace_between_markers_done in H as (a & b & c & Ha & Hb & Hc & ->).
  exists (take (a + b + 1) content), (take c (drop (a + b + 1) content)),
         (drop (a + b + 1 + c) content).
  split; [|split; [done|split]].
  - rewrite <- (drop_drop content c (a + b + 1)). by rewrite !take_drop.
  - pose proof (find_bound _ _ _ Hb) as Hbb. rewrite length_drop in Hbb. simpl in Hbb.
    apply find_startswith, startswith_split in Hb. rewrite drop_drop in Hb.
    rewrite last_lookup, length_take, Nat.min_l by lia.
    replace (Init.Nat.pred (a + b + 1)) with (a + b)%nat by lia.
    rewrite lookup_take_lt by lia.
    rewrite <- (Nat.add_0_r (a + b)), <- lookup_drop, Hb. done.
  - apply find_startswith in Hc. by rewrite drop_drop in Hc.
Qed.

(** X23. A replacement that succeeds keeps the content up to the end of the
    line of the start marker and from the end marker on, and puts the body,
    trimmed on the right and followed by one newline, between them. When
    the start marker holds no newline and the body brings no end marker of
    its own, replacing again changes nothing. *)
Theorem replace_between_markers_frame_and_idempotent
    (content start_marker end_marker body result : text) :
  10%N ∉ start_marker →
  closes_after end_marker body →
  Routing.replace_between_markers content start_marker end_marker body = Done result →
  (∃ before old after,
     content = before ++ old ++ after
     ∧ result = before ++ rstrip body ++ [10%N] ++ after
     ∧ last before = Some 10%N
     ∧ startswith end_marker after = true)
  ∧ Routing.replace_between_markers result start_marker end_marker body = Done result.
Proof.
  intros Hline Hend H. split.
  - by eapply replace_between_markers_frame.
  - by apply (replace_between_markers_idem content).
Qed.

Lemma universal_newlines_no_cr (s : text) : 13%N ∉ Routing.universal_newlines s.
Proof.
  induction s as [s IH] using (induction_ltof1 _ (@length N)); unfold ltof in IH.
  destruct s as [|c s]; [apply not_elem_of_nil|]. simpl.
  destruct (c =? 13)%N eqn:E.
  - destruct s as [|c' s'].
    + apply not_elem_of_cons. split; [done|apply not_elem_of_nil].
    + destruct (c' =? 10)%N.
      * apply not_elem_of_cons. split; [done|]. apply IH. simpl. lia.
      * apply not_elem_of_cons. split; [done|]. apply IH. simpl. lia.
  - apply N.eqb_neq in E. apply not_elem_of_cons. split; [done|]. apply IH. simpl. lia.
Qed.

Lemma universal_newlines_fixed (s : text) : 13%N ∉ s → Routing.universal_newlines s = s.
Proof.
  induction s as [|c s IH]; [done|]. intros H. apply not_elem_of_cons in H as [Hc H].
  simpl. rewrite (proj2 (N.eqb_neq c 13)) by done. by rewrite IH.
Qed.

Lemma rstrip_subseteq (s : text) (c : N) : c ∈ rstrip s → c ∈ s.
Proof.
  unfold rstrip. intros H.
  apply list_elem_of_In, in_rev, list_elem_of_In, lstrip_subseteq in H.
  by apply list_elem_of_In, in_rev, list_elem_of_In in H.
Qed.

Lemma replace_between_markers_no_cr (content start_marker end_marker body result : text) :
  Routing.replace_between_markers content start_marker end_marker body = Done result →
  13%N ∉ content → 13%N ∉ body → 13%N ∉ result.
Proof.
  intros H Hc Hb. apply replace_between_markers_frame in H
    as (before & old & after & -> & -> & _).
  rewrite !elem_of_app in *. intros [H|[H|[H|H]]].
  - apply Hc. by left.
  - by apply Hb, rstrip_subseteq.
  - apply list_elem_of_singleton in H. done.
  - apply Hc. right. by right.
Qed.

Lemma sync_file_done (files : gmap text text) (path : text) (markers : text * text)
    (table_body : text) (check in_sync : bool) (files' : gmap text text) :
  Routing.sync_file files path markers table_body check = Done (in_sync, files') →
  ∃ stored updated,
    files !! path = Some stored
    ∧ Routing.replace_between_markers (Routing.universal_newlines stored)
        markers.1 markers.2 table_body = Done updated
    ∧ in_sync = bool_decide (updated = Routing.universal_newlines stored)
    ∧ files' = if in_sync || check then files else <[path := updated]> files.
Proof.
  unfold Routing.sync_file. destruct (files !! path) as [stored|]; [|done].
  cbv zeta.
  destruct (Routing.replace_between_markers (Routing.universal_newlines stored)
              markers.1 markers.2 table_body) as [updated|] eqn:E; [|done].
  simpl. intros [= <- <-]. exists stored, updated.
  split; [done|]. split; [done|].
  destruct (decide (updated = Routing.universal_newlines stored)) as [Heq|Hne].
  - rewrite (bool_decide_eq_false_2 (updated ≠ _)) by (by intros ?).
    rewrite (bool_decide_eq_true_2 (updated = _)) by done. done.
  - rewrite (bool_decide_eq_true_2 (updated ≠ _)) by done.
    rewrite (bool_decide_eq_false_2 (updated = _)) by done.
    simpl. split; [done|]. by destruct check.
Qed.

Lemma sync_file_then_check (files : gmap text text) (path : text) (markers : text * text)
    (table_body : text) (in_sync : bool) (files' : gmap text text) :
  10%N ∉ markers.1 →
  fits markers.2 table_body →
  Routing.sync_file files path markers table_body false = Done (in_sync, files') →
  ∀ check, Routing.sync_file files' path markers table_body check = Done (true, files').
Proof.
  intros Hline [Hend Hcr] H check.
  apply sync_file_done in H as (stored & updated & Ho & Hr & -> & ->).
  pose proof (replace_between_markers_idem _ _ _ _ _ Hline Hend Hr) as Hidem.
  pose proof (replace_between_markers_no_cr _ _ _ _ _ Hr
                (universal_newlines_no_cr stored) Hcr) as Hclean.
  unfold Routing.sync_file.
  destruct (decide (updated = Routing.universal_newlines stored)) as [Heq|Hne].
  - rewrite (bool_decide_eq_true_2 (updated = _)) by done. simpl.
    rewrite Ho. cbv zeta. rewrite Hr. simpl.
    rewrite (bool_decide_eq_false_2 (updated ≠ _)) by (by intros ?). done.
  - rewrite (bool_decide_eq_false_2 (updated = _)) by done. simpl.
    rewrite lookup_insert_eq. cbv zeta.
    rewrite (universal_newlines_fixed updated Hclean), Hidem. simpl.
    by rewrite (bool_decide_eq_false_2 (updated ≠ updated)) by (by intros ?).
Qed.

(** X24. [sync_file] in check mode leaves the files as they are and answers
    whether the replacement would change the document. After a
    synchronisation that wrote, or found nothing to write, a further call
    in either mode reports the document in sync and changes nothing,
    provided the start marker holds no newline and the table brings neither
    an end marker of its own nor a carriage return, which reading the
    document back would turn into a newline. *)
Theorem sync_file_check_and_resync
    (files : gmap text text) (path : text) (markers : text * text) (table_body : text)
    (in_sync : bool) (files' : gmap text text) :
  10%N ∉ markers.1 →
  fits markers.2 table_body →
  Routing.sync_file files path markers table_body false = Done (in_sync, files') →
  (∀ check, Routing.sync_file files' path markers table_body check = Done (true, files'))
  ∧ Routing.sync_file files path markers table_body true = Done (in_sync, files)
  ∧ (in_sync = true → files' = files)
  ∧ ∀ other, other ≠ path → files' !! other = files !! other.
Proof.
  intros Hline Hfits H. split; [by eapply sync_file_then_check|].
  apply sync_file_done in H as (stored & updated & Ho & Hr & -> & ->).
  split; [|split].
  - unfold Routing.sync_file. rewrite Ho. cbv zeta. rewrite Hr. simpl.
    rewrite andb_false_r. f_equal. f_equal.
    destruct (decide (updated = Routing.universal_newlines stored)) as [Heq|Hne].
    + rewrite (bool_decide_eq_false_2 (updated ≠ _)) by (by intros ?).
      by rewrite (bool_decide_eq_true_2 (updated = _)).
    + rewrite (bool_decide_eq_true_2 (updated ≠ _)) by done.
      by rewrite (bool_decide_eq_false_2 (updated = _)).
  - by intros ->.
  - intros other Hne.
    destruct (bool_decide (updated = Routing.universal_newlines stored)); [done|].
    simpl. by rewrite lookup_insert_ne.
Qed.

Lemma sync_file_check_only_reads (files files2 : gmap text text) (path : text)
    (markers : text * text) (table_body : text) (in_sync : bool) (files' : gmap text text) :
  files2 !! path = files !! path →
  Routing.sync_file files path markers table_body true = Done (in_sync, files') →
  Routing.sync_file files2 path markers table_body true = Done (in_sync, files2).
Proof.
  intros Hsame. unfold Routing.sync_file. rewrite Hsame.
  destruct (files !! path) as [stored|]; [|done]. cbv zeta.
  destruct (Routing.replace_between_markers (Routing.universal_newlines stored)
              markers.1 markers.2 table_body) as [updated|]; [|done].
  simpl. rewrite !andb_false_r. by intros [= <- _].
Qed.

Lemma start_markers_on_one_line :
  (10%N ∉ Routing.AGENT_MARKERS.1) ∧ (10%N ∉ Routing.SKILL_MARKERS.1).
Proof. split; apply (bool_decide_unpack _); by vm_compute. Qed.

Section RoutingMain.
Variable py : builtins.

(** X25. After [main] has synchronised the two documents, a run in check
    mode on the resulting files returns 0 and changes nothing, as long as
    the two documents are different files and the tables bring neither an
    end marker of their own nor a carriage return; the synchronisation
    itself returns 0 and touches no file other than the two documents. *)
Theorem routing_main_sync_then_check
    (routing : json) (agent_doc skill_doc : text) (files files' : gmap text text)
    (code : Z) :
  agent_doc ≠ skill_doc →
  (∀ entries, Routing.load_entries py routing = Done entries →
     fits Routing.AGENT_MARKERS.2 (Routing.build_agent_table entries)
     ∧ fits Routing.SKILL_MARKERS.2 (Routing.build_skill_table entries)) →
  Routing.main py routing agent_doc skill_doc files false = Done (code, files') →
  code = 0
  ∧ Routing.main py routing agent_doc skill_doc files' true = Done (0, files')
  ∧ ∀ other, other ≠ agent_doc → other ≠ skill_doc → files' !! other = files !! other.
Proof.
  intros Hdocs Htables. unfold Routing.main.
  destruct (Routing.load_entries py routing) as [entries|] eqn:El; [|done].
  destruct (Htables entries eq_refl) as [Hagent Hskill]. simpl.
  destruct start_markers_on_one_line as [Hl1 Hl2].
  destruct (Routing.sync_file files agent_doc Routing.AGENT_MARKERS
              (Routing.build_agent_table entries) false) as [[ok1 files1]|] eqn:E1;
    [|done].
  simpl.
  destruct (Routing.sync_file files1 skill_doc Routing.SKILL_MARKERS
              (Routing.build_skill_table entries) false) as [[ok2 files2]|] eqn:E2;
    [|done].
  simpl. intros [= <- <-].
  pose proof (sync_file_then_check _ _ _ _ _ _ Hl1 Hagent E1 true) as Hc1.
  pose proof (sync_file_then_check _ _ _ _ _ _ Hl2 Hskill E2 true) as Hc2.
  apply sync_file_done in E1 as (o1 & u1 & Ho1 & Hr1 & -> & ->).
  apply sync_file_done in E2 as (o2 & u2 & Ho2 & Hr2 & -> & ->).
  rewrite !orb_false_r in *.
  set (files1 := if bool_decide (u1 = Routing.universal_newlines o1) then files
                 else <[agent_doc := u1]> files) in *.
  set (files2 := if bool_decide (u2 = Routing.universal_newlines o2) then files1
                 else <[skill_doc := u2]> files1) in *.
  assert (∀ other, other ≠ skill_doc → files2 !! other = files1 !! other) as Hsame2.
  { intros other Hne. subst files2. destruct (bool_decide (u2 = _)); [done|].
    by rewrite lookup_insert_ne. }
  assert (∀ other, other ≠ agent_doc → files1 !! other = files !! other) as Hsame1.
  { intros other Hne. subst files1. destruct (bool_decide (u1 = _)); [done|].
    by rewrite lookup_insert_ne. }
  split; [done|]. split.
  - rewrite (sync_file_check_only_reads files1 files2 _ _ _ true files1);
      [|by apply Hsame2|done].
    simpl. rewrite Hc2. done.
  - intros other Ha Hs. rewrite Hsame2, Hsame1; done.
Qed.

End RoutingMain.

(** ** Examples *)

Module ScorerExamples.
Import AsciiPy Demo Samples.

(** X5 on a case that names ttk.py without validation rules. *)
Lemma unvalidated_script_is_mention_only_witness :
  script_validation unvalidated = None
  ∧ ∃ r, score_case py unvalidated template (Some response) DEFAULT_CASE_SCORE false
                    (demo_world TimedOut) = Ok r
       ∧ (u "preferred_script_numeric_mismatch" ∉ cr_hard_fail_reasons r).
Proof.
  split; [reflexivity|].
  destruct (unvalidated_script_is_mention_only py unvalidated template response
              DEFAULT_CASE_SCORE false (demo_world TimedOut) eq_refl)
    as (r & Hr & Hn & _).
  exists r. split; [exact Hr|exact Hn].
Defined.

End ScorerExamples.

Module MinMatchesExamples.
Import AsciiPy Demo Samples.

(** X27 on a [min_matches] of 0: the script prints 13.0, the response
    quotes 12.1, no rule matches, and the check passes with score 0. *)
Lemma min_matches_is_clamped_witness :
  ∃ score details,
    evaluate_script_numeric_checks py response (u "ttk.py") validation_any
      (demo_world prints_13) = Ok (score, true, details)
    ∧ (score == 0)%Q.
Proof.
  assert (strip (u "fixtures/ttk.json") ≠ []) as Hrel
    by (vm_compute; discriminate).
  assert (strip (ttk_prefix ++ u "13.0}") ≠ []) as Hout
    by (vm_compute; discriminate).
  assert (json_loads py (strip (ttk_prefix ++ u "13.0}"))
          = inr (JDict [(u "ttk", JFloat (Finite 13.0))])) as Hjson
    by (vm_compute; reflexivity).
  assert (_extract_numbers py response ≠ []) as Hnums
    by (vm_compute; discriminate).
  destruct (min_matches_is_clamped py response (u "ttk.py") (u "fixtures/ttk.json")
              (ttk_prefix ++ u "13.0}") [] validation_any (JDict rule) []
              (JDict [(u "ttk", JFloat (Finite 13.0))]) 0 (demo_world prints_13)
              eq_refl eq_refl Hrel eq_refl eq_refl eq_refl Hout Hjson Hnums eq_refl)
    as [Hclamped _].
  destruct (evaluate_script_numeric_checks py response (u "ttk.py") validation_any
              (demo_world prints_13)) as [[[score passed] details]|e] eqn:Hok.
  - destruct Hclamped as [Hzero _]. rewrite (Hzero (Z.le_refl 0)) in *.
    exists score, details. split; [reflexivity|].
    vm_compute in Hok. by injection Hok as <- _.
  - vm_compute in Hok. discriminate Hok.
Defined.

End MinMatchesExamples.

Module RunnerExamples.
Import AsciiPy Demo Samples.

(** X10 on a run of one case that has a response. *)
Lemma exit_status_zero_needs_responses_witness :
  main (build_report py suite_bare [] None responses_bare (args false)
          (demo_world TimedOut)) = 0
  ∧ ∃ case, case ∈ filter_cases (cases suite_bare) (parse_case_ids None)
          ∧ is_Some (responses_bare !! case_id case).
Proof.
  assert (main (build_report py suite_bare [] None responses_bare (args false)
                  (demo_world TimedOut)) = 0) as H by (vm_compute; reflexivity).
  split; [exact H|].
  exact (proj1 (proj2 (exit_status_zero_needs_responses py suite_bare [] None
                         responses_bare (args false) (demo_world TimedOut) H))).
Defined.

(** X11 on a suite whose script exits with status 1, with no case selected. *)
Lemma failing_health_check_fails_run_witness :
  main (build_report py suite_scripted [] (Some (u "none")) ∅ (args true)
          (demo_world exits_1)) ≠ 0.
Proof.
  apply (failing_health_check_fails_run py suite_scripted [] (Some (u "none")) ∅
           (args true) (demo_world exits_1) (u "ttk.py")
           {| sr_script := u "ttk.py";
              sr_path := u "skills/game-balance-math/scripts/ttk.py";
              sr_passed := false; sr_details := u "exit=1: boom" |}).
  - reflexivity.
  - exists scripted. split; [by left|reflexivity].
  - vm_compute. reflexivity.
  - reflexivity.
Defined.

(** X13 on an option that holds commas and blanks only. *)
Lemma blank_case_ids_select_all_witness :
  Forall (λ c, separator c = true) (u " , ,")
  ∧ filter_cases [bare; plain] (parse_case_ids (Some (u " , ,"))) = [bare; plain].
Proof.
  assert (Forall (λ c, separator c = true) (u " , ,")) as H
    by (repeat constructor).
  split; [exact H|].
  exact (proj1 (blank_case_ids_select_all (u " , ,") [bare; plain] H)).
Defined.

End RunnerExamples.

Module LintExamples.
Import AsciiPy Demo Samples.

(** X16 on a rule with a blank [path] and a usable [json_path]. *)
Lemma lint_accepts_rules_with_shadowed_path_witness :
  lint_rule (u "A01") 1 (JDict shadowed_rule) = []
  ∧ judge_rule py (JDict [(u "ttk", JFloat (Finite 12))]) [Finite 12] 1
               (JDict shadowed_rule)
    = Ok (Missing (u "rule#" ++ str_of_nat 1 ++ u ":missing_path")).
Proof.
  assert (lint_rule (u "A01") 1 (JDict shadowed_rule) = []) as H
    by (vm_compute; reflexivity).
  split; [exact H|].
  exact (lint_accepts_rules_with_shadowed_path py (u "A01") 1 1 shadowed_rule
           (JDict [(u "ttk", JFloat (Finite 12))]) [Finite 12] H).
Defined.

(** X17 on the validation of the scripted case. *)
Lemma lint_clean_validation_is_runnable_witness :
  lint_validation (u "A01") validation = []
  ∧ ∃ input_rel,
      dict_get (u "input") validation = Some (JStr input_rel)
      ∧ runnable (demo_world TimedOut) (u "ttk.py") validation
        = path_exists (demo_world TimedOut)
            (script_path (demo_world TimedOut) (u "ttk.py"))
          && path_exists (demo_world TimedOut)
               (input_path (demo_world TimedOut) input_rel).
Proof.
  assert (lint_validation (u "A01") validation = []) as H by (vm_compute; reflexivity).
  split; [exact H|].
  exact (lint_clean_validation_is_runnable (u "A01") (u "ttk.py") validation
           (demo_world TimedOut) H).
Defined.

End LintExamples.

Module PayloadExamples.
Import AsciiPy Demo Samples.

(** X19 on a list that answers A01 twice: the second answer is kept. *)
Lemma list_payload_last_item_wins_witness :
  ∃ m, parse_response_payload py (JList payload_items) = Done m
     ∧ m !! u "A01" = Some (u "second").
Proof.
  assert (Forall (λ it, ¬ answers py (py_str py (JStr (u "A01"))) it)
                 [JDict (item "B02" "other")]) as Hafter.
  { constructor; [|constructor]. intros (d & i & r & Heq & Hi & Hr & Hs).
    injection Heq as <-. vm_compute in Hi. injection Hi as <-.
    vm_compute in Hs. discriminate Hs. }
  exact (proj1 (list_payload_last_item_wins py [JDict (item "A01" "first")]
                  [JDict (item "B02" "other")] (item "A01" "second")
                  (JStr (u "A01")) (JStr (u "second")) eq_refl eq_refl Hafter)).
Defined.

(** X20 on a payload that holds a [responses] object next to a [cases] list. *)
Lemma responses_object_takes_precedence_witness :
  ∃ m, parse_response_payload py (JDict payload_both) = Done m
     ∧ m !! u "A01" = Some (u "direct") ∧ m !! u "B02" = None.
Proof.
  destruct (responses_object_takes_precedence py payload_both
              [(u "A01", JStr (u "direct")); (u "n", JInt 7)] eq_refl)
    as (m & Hm & Hlookup).
  exists m. split; [exact Hm|]. split; rewrite Hlookup; reflexivity.
Defined.

End PayloadExamples.

Module RoutingExamples.
Import AsciiPy Demo Samples.

(** X23 on the agent document and a one-line table. *)
Lemma replace_between_markers_frame_and_idempotent_witness :
  ∃ result,
    Routing.replace_between_markers agent_doc Routing.AGENT_MARKERS.1
      Routing.AGENT_MARKERS.2 (u "| new |  ") = Done result
    ∧ Routing.replace_between_markers result Routing.AGENT_MARKERS.1
        Routing.AGENT_MARKERS.2 (u "| new |  ") = Done result.
Proof.
  assert (∃ result,
            Routing.replace_between_markers agent_doc Routing.AGENT_MARKERS.1
              Routing.AGENT_MARKERS.2 (u "| new |  ") = Done result) as [result H]
    by (eexists; vm_compute; reflexivity).
  exists result. split; [exact H|].
  refine (proj2 (replace_between_markers_frame_and_idempotent agent_doc
                   Routing.AGENT_MARKERS.1 Routing.AGENT_MARKERS.2 (u "| new |  ")
                   result _ _ H)).
  - apply (bool_decide_unpack _). vm_compute. reflexivity.
  - vm_compute. reflexivity.
Defined.

(** X24 on the agent document: after the write, a check finds it in sync. *)
Lemma sync_file_check_and_resync_witness :
  ∃ in_sync files',
    Routing.sync_file files (u "agents/game-balance-designer.md") Routing.AGENT_MARKERS
      (u "| new |") false = Done (in_sync, files')
    ∧ Routing.sync_file files' (u "agents/game-balance-designer.md")
        Routing.AGENT_MARKERS (u "| new |") true = Done (true, files').
Proof.
  assert (∃ r, Routing.sync_file files (u "agents/game-balance-designer.md")
                 Routing.AGENT_MARKERS (u "| new |") false = Done r)
    as [[in_sync files'] H] by (eexists; vm_compute; reflexivity).
  exists in_sync, files'. split; [exact H|].
  refine (proj1 (sync_file_check_and_resync files (u "agents/game-balance-designer.md")
                   Routing.AGENT_MARKERS (u "| new |") in_sync files' _ _ H) true).
  - apply (bool_decide_unpack _). vm_compute. reflexivity.
  - split; [vm_compute; reflexivity|apply (bool_decide_unpack _); by vm_compute].
Defined.

(** X25 on the two sample documents and a routing file of one entry. *)
Lemma routing_main_sync_then_check_witness :
  ∃ files',
    Routing.main py routing (u "agents/game-balance-designer.md")
      (u "skills/game-balance-math/SKILL.md") files false = Done (0, files')
    ∧ Routing.main py routing (u "agents/game-balance-designer.md")
        (u "skills/game-balance-math/SKILL.md") files' true = Done (0, files').
Proof.
  assert (∃ r, Routing.main py routing (u "agents/game-balance-designer.md")
                 (u "skills/game-balance-math/SKILL.md") files false = Done r)
    as [[code files'] H] by (eexists; vm_compute; reflexivity).
  assert (u "agents/game-balance-designer.md" ≠ u "skills/game-balance-math/SKILL.md")
    as Hdocs by (intros Heq; vm_compute in Heq; discriminate Heq).
  assert (∀ entries, Routing.load_entries py routing = Done entries →
            fits Routing.AGENT_MARKERS.2 (Routing.build_agent_table entries)
            ∧ fits Routing.SKILL_MARKERS.2 (Routing.build_skill_table entries))
    as Htables.
  { intros entries He. vm_compute in He. injection He as <-.
    split; (split; [vm_compute; reflexivity|apply (bool_decide_unpack _); by vm_compute]). }
  destruct (routing_main_sync_then_check py routing _ _ files files' code
              Hdocs Htables H) as (-> & Hcheck & _).
  exists files'. split; [exact H|exact Hcheck].
Defined.

End RoutingExamples.
